(** * Scheduled upload pipeline of the YouTube auto-poster (src/app.py)

    A shallow embedding of the parts of [app.py] that carry state, timing
    and failure handling: title sanitisation and fallback metadata, the
    metadata generator around the text-generation collaborator, the
    schedule-time parser, the resumable-transfer progress loop and the
    background dispatcher over the registry of scheduled uploads.

    Python values are modelled as follows.
    - [str] is a sequence of Unicode code points ([list N]); [len] is
      [length], slicing [s[:n]] is [take n s].
    - exceptions are an explicit [result] type; [try ... except Exception]
      is a handler on it, and a handler that prints the exception raises
      when the console cannot encode its text.
    - objects that are mutated through references ([ScheduledUpload]) live
      in a heap indexed by reference; the registry holds references.
    - [float] is IEEE binary64 ([PrimFloat.float]). *)

From Stdlib Require Import ZArith NArith List Bool Lia.
From Stdlib Require Import Strings.String Strings.Ascii.
From Stdlib Require Import Floats.PrimFloat Floats.FloatOps Floats.SpecFloat.
From stdpp Require Import base option list gmap.

#[local] Open Scope list_scope.

(** ** Python strings *)

Module PyStr.

Definition char := N.
Definition str := list char.

(** A literal of the source, written in ASCII. *)
Fixpoint py (s : String.string) : str :=
  match s with
  | EmptyString => []
  | String a s' => N_of_ascii a :: py s'
  end.

(** A character literal of the source. *)
Definition ch (s : String.string) : char :=
  match s with
  | String a _ => N_of_ascii a
  | EmptyString => 0%N
  end.

Definition SPACE : char := ch " ".
Definition NEWLINE : char := 10%N.

(** [str.isspace] on one code point: the code points CPython's
    [_PyUnicode_IsWhitespace] accepts. [str.strip], [str.split] and the
    regular-expression class [\s] all use it. *)
Definition isspace (c : char) : bool :=
  ((9 <=? c) && (c <=? 13) || (28 <=? c) && (c <=? 32)
   || (c =? 133) || (c =? 160) || (c =? 5760)
   || (8192 <=? c) && (c <=? 8202)
   || (c =? 8232) || (c =? 8233) || (c =? 8239) || (c =? 8287)
   || (c =? 12288))%N.

(** [s.lstrip()], [s.rstrip()], [s.strip()]. *)
Fixpoint lstrip (s : str) : str :=
  match s with
  | [] => []
  | c :: s' => if isspace c then lstrip s' else s
  end.

Fixpoint rstrip (s : str) : str :=
  match s with
  | [] => []
  | c :: s' =>
      match rstrip s' with
      | [] => if isspace c then [] else [c]
      | r => c :: r
      end
  end.

Definition strip (s : str) : str := rstrip (lstrip s).

(** [s.split()] with no argument: the maximal runs of non-whitespace. *)
Definition starts_word (s : str) : bool :=
  match s with
  | [] => false
  | d :: _ => negb (isspace d)
  end.

Definition cons_head (c : char) (ws : list str) : list str :=
  match ws with
  | [] => [[c]]
  | w :: ws' => (c :: w) :: ws'
  end.

Fixpoint split_ws (s : str) : list str :=
  match s with
  | [] => []
  | c :: s' =>
      if isspace c then split_ws s'
      else if starts_word s' then cons_head c (split_ws s')
      else [c] :: split_ws s'
  end.

(** [sep.join(l)]. *)
Fixpoint join (sep : str) (l : list str) : str :=
  match l with
  | [] => []
  | w :: ws =>
      match ws with
      | [] => w
      | _ :: _ => w ++ sep ++ join sep ws
      end
  end.

(** [s.startswith(p)]. *)
Fixpoint startswith (p s : str) : bool :=
  match p, s with
  | [], _ => true
  | _ :: _, [] => false
  | a :: p', b :: s' => (a =? b)%N && startswith p' s'
  end.

(** [sub in s]. *)
Fixpoint contains (sub s : str) : bool :=
  startswith sub s ||
  match s with
  | [] => false
  | _ :: s' => contains sub s'
  end.

(** [s.replace(old, new)] for a non-empty [old] (every call of the source
    passes a non-empty literal): occurrences are replaced left to right and
    do not overlap; [skip] counts the code points of the occurrence that
    is being skipped. *)
Fixpoint replace_from (old new : str) (skip : nat) (s : str) : str :=
  match s with
  | [] => []
  | c :: s' =>
      match skip with
      | S k => replace_from old new k s'
      | O =>
          if startswith old s
          then new ++ replace_from old new (length old - 1) s'
          else c :: replace_from old new 0 s'
      end
  end.

Definition replace (old new s : str) : str := replace_from old new 0 s.

(** [s.split(sep)] for a non-empty [sep]; [cur] is the part being read,
    reversed. *)
Fixpoint split_from (sep : str) (skip : nat) (cur : str) (s : str) : list str :=
  match s with
  | [] => [rev cur]
  | c :: s' =>
      match skip with
      | S k => split_from sep k cur s'
      | O =>
          if startswith sep s
          then rev cur :: split_from sep (length sep - 1) [] s'
          else split_from sep 0 (c :: cur) s'
      end
  end.

Definition split (sep s : str) : list str := split_from sep 0 [] s.

(** [s.split(' ', 1)] when [' ' in s]: the text before and after the first
    space; [None] when there is no space. *)
Fixpoint split_space_once (s : str) : option (str * str) :=
  match s with
  | [] => None
  | c :: s' =>
      if (c =? SPACE)%N then Some ([], s')
      else match split_space_once s' with
           | Some (a, b) => Some (c :: a, b)
           | None => None
           end
  end.

(** Truthiness of a string: [if s] / [not s]. *)
Definition truthy (s : str) : bool :=
  match s with
  | [] => false
  | _ :: _ => true
  end.

End PyStr.
Import PyStr.

(** ** Title sanitisation: [YouTubeBot._sanitize_title] *)

Definition MAX_TITLE_LENGTH : nat := 100.

Definition _sanitize_title (title : str) : str :=
  let title := strip title in
  let title := join (py " ") (split_ws title) in
  let title :=
    if MAX_TITLE_LENGTH <? length title
    then take (MAX_TITLE_LENGTH - 3) title ++ py "..."
    else title in
  let title := if negb (truthy title) then py "Untitled Video" else title in
  title.

(** The title after the two whitespace steps of [_sanitize_title], before
    the length check. *)
Definition normalized (title : str) : str :=
  join (py " ") (split_ws (strip title)).

(** ** Exceptions

    Every exception of this model is an instance of Python's [Exception]:
    the built-in errors the modelled library calls raise, the transfer
    client's [HttpError], and [CollaboratorError] for whatever other
    [Exception] a collaborator raises, with the text [str(e)] gives for
    it. A [try ... except Exception] block is [try_except]. *)

Inductive exn : Type :=
| ValueError
| OverflowError
| KeyError
| IndexError
| UnicodeEncodeError
| HttpError (status : Z) (content : str)
| CollaboratorError (what : str).

Inductive result (A : Type) : Type :=
| Return (a : A)
| Raise (e : exn).
Arguments Return {A} a.
Arguments Raise {A} e.

Definition bind {A B : Type} (m : result A) (k : A -> result B) : result B :=
  match m with
  | Return a => k a
  | Raise e => Raise e
  end.

Definition try_except {A : Type} (body : result A) (handler : exn -> result A)
  : result A :=
  match body with
  | Return a => Return a
  | Raise e => handler e
  end.

(** ** The console

    [sys.stdout] encodes what is printed, and [print] raises
    [UnicodeEncodeError] on a text with a code point its encoding does not
    have. A console is the set of the code points it encodes. The
    program's own messages, the numbers it formats and the text it read
    from the operator are taken to print; the text of an exception comes
    from elsewhere. *)
Definition console : Type := char -> bool.

(** The UTF-8 console: every code point but the surrogates. *)
Definition utf8 : console :=
  fun c => (c <=? 1114111)%N && negb ((55296 <=? c) && (c <=? 57343))%N.

(** What [str(e)] holds that is not the interpreter's own ASCII text: the
    message of a collaborator's exception. [HttpError.content] is bytes. *)
Definition exn_text (e : exn) : str :=
  match e with
  | CollaboratorError what => what
  | HttpError _ content => content
  | _ => []
  end.

(** [print(f"... {e}")]. *)
Definition print_exception (stdout : console) (e : exn) : result unit :=
  if forallb stdout (exn_text e) then Return tt else Raise UnicodeEncodeError.

Declare Scope py_scope.
Delimit Scope py_scope with py.
Notation "'let*' x ':=' m 'in' k" := (bind m (fun x => k))
  (at level 10, x name, m at level 100, k at level 200) : py_scope.
Notation "'let*' ' p ':=' m 'in' k" := (bind m (fun p => k))
  (at level 10, p pattern, m at level 100, k at level 200) : py_scope.
#[local] Open Scope py_scope.

(** [l[i]]: raises [IndexError] out of range. *)
Definition item {A : Type} (l : list A) (i : nat) : result A :=
  match nth_error l i with
  | Some a => Return a
  | None => Raise IndexError
  end.

(** ** Unicode tables of the Python runtime

    The source relies on three tables of the interpreter for code points
    outside ASCII; they are parameters of the model. The ASCII part of each
    operation is written out below. *)

Class UnicodeData : Type := {
  (** [str.isalnum] of a code point: the regular-expression class [\w] *)
  uc_isalnum : char -> bool;
  (** decimal value of a code point of category Nd: the class [\d] and
      [int()] *)
  uc_decimal : char -> option Z;
  (** [str.lower] of a code point (for capital sigma, whose lower case
      depends on its place in the word, one of the two) *)
  uc_lower : char -> str
}.

(** The tables of a runtime whose non-ASCII code points are neither
    alphanumeric nor cased. *)
Definition ascii_tables : UnicodeData :=
  {| uc_isalnum := fun _ => false;
     uc_decimal := fun _ => None;
     uc_lower := fun c => [c] |}.

(** The dictionary [{"title": ..., "description": ...}] of generated
    metadata. *)
Module Metadata.
Record t : Type := { title : str; description : str }.
End Metadata.
Abbreviation metadata := Metadata.t.

Section Text.
Context {U : UnicodeData}.

Definition is_ascii_alnum (c : char) : bool :=
  ((48 <=? c) && (c <=? 57) || (65 <=? c) && (c <=? 90)
   || (97 <=? c) && (c <=? 122))%N.

(** The class [\w] of a [str] pattern. *)
Definition is_word (c : char) : bool :=
  (is_ascii_alnum c || (c =? ch "_") || (128 <=? c) && uc_isalnum c)%N.

(** The class [\d] with the value [int()] gives the digit. *)
Definition digit_value (c : char) : option Z :=
  if ((48 <=? c) && (c <=? 57))%N then Some (Z.of_N c - 48)%Z
  else if (c <? 128)%N then None
  else uc_decimal c.

Definition is_digit (c : char) : bool :=
  match digit_value c with
  | Some _ => true
  | None => false
  end.

(** [s.lower()]. *)
Definition lower_char (c : char) : str :=
  if ((65 <=? c) && (c <=? 90))%N then [(c + 32)%N]
  else if (c <? 128)%N then [c]
  else uc_lower c.

Definition lower (s : str) : str := flat_map lower_char s.

(** ** [Path(p).stem], POSIX flavour

    The path is cut at ['/']; empty components and ['.'] are dropped; the
    name is the last component left, and the stem is the name up to its
    last dot when that dot is neither the first nor the last character. *)

Definition str_eqb (a b : str) : bool :=
  (length a =? length b)%nat && startswith a b.

Definition path_name (p : str) : str :=
  let parts :=
    filter (fun part => negb (str_eqb part [] || str_eqb part (py "."))%bool = true)
           (split (py "/") p) in
  List.last parts [].

(** [s.rfind(c)] for a single character, counting from index [i]. *)
Fixpoint rfind_from (c : char) (i : nat) (s : str) : option nat :=
  match s with
  | [] => None
  | d :: s' =>
      match rfind_from c (S i) s' with
      | Some j => Some j
      | None => if (d =? c)%N then Some i else None
      end
  end.

Definition path_stem (p : str) : str :=
  let name := path_name p in
  match rfind_from (ch ".") 0 name with
  | Some i =>
      if ((0 <? i) && (i <? length name - 1))%nat then take i name else name
  | None => name
  end.

(** ** [re.sub(r'\[[\w-]+\]$', '', title)]

    One match of the pattern at the head of [s]: ['['], the longest run of
    [\w] or ['-'] (at least one), [']'], and then the end of the string,
    which [$] also finds before one final newline. The run is followed by
    [']'] only when taken whole, since [']'] is not in the class, so the
    greedy run decides the match. The result is the text after the
    match. *)

Definition is_tag_char (c : char) : bool := (is_word c || (c =? ch "-")%N).

Fixpoint skip_tag_chars (s : str) : nat * str :=
  match s with
  | [] => (0, [])
  | c :: s' =>
      if is_tag_char c
      then let '(n, rest) := skip_tag_chars s' in (S n, rest)
      else (0, s)
  end.

Definition at_dollar (s : str) : bool :=
  match s with
  | [] => true
  | [c] => (c =? NEWLINE)%N
  | _ => false
  end.

Definition match_tag (s : str) : option str :=
  match s with
  | c :: s1 =>
      if (c =? ch "[")%N then
        match skip_tag_chars s1 with
        | (S _, d :: s3) =>
            if ((d =? ch "]")%N && at_dollar s3)%bool then Some s3 else None
        | _ => None
        end
      else None
  | [] => None
  end.

(** The substitution scans left to right; after a match it goes on behind
    it ([skip] counts what is left of the match). *)
Fixpoint sub_tag_from (skip : nat) (s : str) : str :=
  match s with
  | [] => []
  | c :: s' =>
      match skip with
      | S k => sub_tag_from k s'
      | O =>
          match match_tag s with
          | Some rest => sub_tag_from (length s' - length rest) s'
          | None => c :: sub_tag_from 0 s'
          end
      end
  end.

Definition sub_trailing_tag (s : str) : str := sub_tag_from 0 s.

(** ** Fallback metadata: [YouTubeBot._create_fallback_metadata] *)

(** The double-bar glyph of the source: U+FF5C twice. *)
Definition DOUBLE_BAR : str := [65372%N; 65372%N].

Definition _create_fallback_metadata (video_path user_context : str) : metadata :=
  let video_name := path_stem video_path in
  let title := video_name in
  let title := sub_trailing_tag title in
  let title := replace (py "_") (py " ") (replace DOUBLE_BAR (py "-") title) in
  let title := join (py " ") (split_ws title) in
  let title := _sanitize_title title in
  let description := py "Video: " ++ video_name in
  let description :=
    if truthy user_context
    then description ++ [NEWLINE; NEWLINE] ++ user_context
    else description in
  {| Metadata.title := title; Metadata.description := description |}.

(** ** Metadata generation: [YouTubeBot.generate_metadata]

    The text-generation collaborator is [gemini_model]: [None] when it
    could not be configured, otherwise the function from the prompt to
    the text of the response ([generate_content] followed by [.text]),
    which may raise. *)

Definition model : Type := str -> result str.

Definition QUOTE : char := 34%N.

Definition prompt_of (video_name user_context : str) : str :=
  join [NEWLINE]
    [ py "Generate a YouTube video title and description for a video file named: "
        ++ [QUOTE] ++ video_name ++ [QUOTE];
      [];
      (if truthy user_context
       then py "Additional context: " ++ user_context else []);
      [];
      py "Please provide:";
      py "1. An engaging, SEO-friendly title (max 100 characters)";
      py "2. A detailed description (200-300 words) that includes:";
      py "   - What the video is about";
      py "   - Key points or highlights";
      py "   - Relevant hashtags (3-5)";
      [];
      py "Format your response as:";
      py "TITLE: [your title here]";
      py "DESCRIPTION: [your description here]" ].

(** The body of the [try] block. *)
Definition generate_with (m : model) (video_name user_context : str)
  : result metadata :=
  let* text := m (prompt_of video_name user_context) in
  let* '(title, description) :=
    (if (contains (py "TITLE:") text && contains (py "DESCRIPTION:") text)%bool
     then
       let parts := split (py "DESCRIPTION:") text in
       let* p0 := item parts 0 in
       let* p1 := item parts 1 in
       Return (strip (replace (py "TITLE:") [] p0), strip p1)
     else
       let lines := split [NEWLINE] (strip text) in
       let* l0 := item lines 0 in
       Return (strip l0, strip (join [NEWLINE] (drop 1 lines)))) in
  let title := strip (replace (py "*") [] (replace (py "**") [] title)) in
  let title := _sanitize_title title in
  let description :=
    if negb (truthy description) then py "Video: " ++ video_name
    else description in
  Return {| Metadata.title := title; Metadata.description := description |}.

(** The handler prints the exception before it falls back, so it raises
    when the console refuses the text. *)
Definition generate_metadata (stdout : console) (gemini_model : option model)
    (video_path user_context : str) : result metadata :=
  let video_name := path_stem video_path in
  match gemini_model with
  | None => Return (_create_fallback_metadata video_path user_context)
  | Some m =>
      try_except (generate_with m video_name user_context)
        (fun e =>
           let* _ := print_exception stdout e in
           Return (_create_fallback_metadata video_path user_context))
  end.

End Text.

(** ** [datetime]

    Naive datetimes as the interpreter's [datetime] module has them: the
    seven fields, the proleptic Gregorian ordinal of the date, comparison
    field by field, and the addition of whole days through the ordinal. *)

#[local] Open Scope Z_scope.

Record datetime : Type := {
  year : Z; month : Z; day : Z;
  hour : Z; minute : Z; second : Z; microsecond : Z
}.

Definition MINYEAR : Z := 1.
Definition MAXYEAR : Z := 9999.
Definition _MAXORDINAL : Z := 3652059.

Definition _is_leap (y : Z) : bool :=
  (y mod 4 =? 0) && (negb (y mod 100 =? 0) || (y mod 400 =? 0)).

Definition _days_before_year (y0 : Z) : Z :=
  let y := y0 - 1 in
  y * 365 + y / 4 - y / 100 + y / 400.

Definition _DAYS_IN_MONTH : list Z :=
  [-1; 31; 28; 31; 30; 31; 30; 31; 31; 30; 31; 30; 31].

Definition _DAYS_BEFORE_MONTH : list Z :=
  [-1; 0; 31; 59; 90; 120; 151; 181; 212; 243; 273; 304; 334].

Definition table (t : list Z) (i : Z) : Z := nth (Z.to_nat i) t 0.

Definition b2z (b : bool) : Z := if b then 1 else 0.

Definition _days_in_month (y m : Z) : Z :=
  if (m =? 2) && _is_leap y then 29 else table _DAYS_IN_MONTH m.

Definition _days_before_month (y m : Z) : Z :=
  table _DAYS_BEFORE_MONTH m + b2z ((2 <? m) && _is_leap y).

Definition _ymd2ord (y m d : Z) : Z :=
  _days_before_year y + _days_before_month y m + d.

Definition _DI400Y : Z := _days_before_year 401.
Definition _DI100Y : Z := _days_before_year 101.
Definition _DI4Y : Z := _days_before_year 5.

Definition _ord2ymd (n0 : Z) : Z * Z * Z :=
  let n := n0 - 1 in
  let n400 := n / _DI400Y in
  let n := n mod _DI400Y in
  let y := n400 * 400 + 1 in
  let n100 := n / _DI100Y in
  let n := n mod _DI100Y in
  let n4 := n / _DI4Y in
  let n := n mod _DI4Y in
  let n1 := n / 365 in
  let n := n mod 365 in
  let y := y + (n100 * 100 + n4 * 4 + n1) in
  if (n1 =? 4) || (n100 =? 4) then (y - 1, 12, 31)
  else
    let leapyear := (n1 =? 3) && (negb (n4 =? 24) || (n100 =? 3)) in
    let m := Z.shiftr (n + 50) 5 in
    let preceding := table _DAYS_BEFORE_MONTH m + b2z ((2 <? m) && leapyear) in
    let '(m, preceding) :=
      if n <? preceding
      then (m - 1,
            preceding - (table _DAYS_IN_MONTH (m - 1)
                         + b2z ((m - 1 =? 2) && leapyear)))
      else (m, preceding) in
    (y, m, n - preceding + 1).

(** The checks of the constructor: [_check_date_fields] and
    [_check_time_fields]. *)
Definition date_fields_ok (y m d : Z) : bool :=
  (MINYEAR <=? y) && (y <=? MAXYEAR) && (1 <=? m) && (m <=? 12)
  && (1 <=? d) && (d <=? _days_in_month y m).

Definition time_fields_ok (h mi s us : Z) : bool :=
  (0 <=? h) && (h <=? 23) && (0 <=? mi) && (mi <=? 59)
  && (0 <=? s) && (s <=? 59) && (0 <=? us) && (us <=? 999999).

Definition datetime_ok (d : datetime) : bool :=
  date_fields_ok (year d) (month d) (day d)
  && time_fields_ok (hour d) (minute d) (second d) (microsecond d).

(** [datetime(y, m, d, h, mi, s, us)]. *)
Definition new_datetime (y m d h mi s us : Z) : result datetime :=
  if date_fields_ok y m d && time_fields_ok h mi s us
  then Return {| year := y; month := m; day := d;
                 hour := h; minute := mi; second := s; microsecond := us |}
  else Raise ValueError.

Definition toordinal (d : datetime) : Z := _ymd2ord (year d) (month d) (day d).

(** [a <= b], [a >= b]: the field tuples compared in order. *)
Fixpoint cmp_fields (a b : list Z) : comparison :=
  match a, b with
  | x :: a', y :: b' =>
      match x ?= y with
      | Eq => cmp_fields a' b'
      | c => c
      end
  | [], [] => Eq
  | [], _ :: _ => Lt
  | _ :: _, [] => Gt
  end.

Definition fields (d : datetime) : list Z :=
  [year d; month d; day d; hour d; minute d; second d; microsecond d].

Definition datetime_le (a b : datetime) : bool :=
  match cmp_fields (fields a) (fields b) with
  | Gt => false
  | _ => true
  end.

Definition datetime_ge (a b : datetime) : bool := datetime_le b a.

(** [d + timedelta(days=n)]: the ordinal moves by [n], the time of day is
    rebuilt from its seconds; [OverflowError] outside the ordinals the
    type can hold. *)
Definition add_days (d : datetime) (n : Z) : result datetime :=
  let days := toordinal d + n in
  let seconds := hour d * 3600 + minute d * 60 + second d in
  let h := seconds / 3600 in
  let rem := seconds mod 3600 in
  let mi := rem / 60 in
  let s := rem mod 60 in
  if (0 <? days) && (days <=? _MAXORDINAL)
  then
    let '(y, m, dd) := _ord2ymd days in
    Return {| year := y; month := m; day := dd;
              hour := h; minute := mi; second := s;
              microsecond := microsecond d |}
  else Raise OverflowError.

(** Seconds between the start of ordinal day 0 and [d], the time line on
    which Python subtracts two naive datetimes. *)
Definition timestamp (d : datetime) : Z :=
  toordinal d * 86400 + hour d * 3600 + minute d * 60 + second d.

(** ** [datetime.strptime]

    [strptime] turns the format into a regular expression with one named
    group per directive, matches it at the start of the text, and fails
    when the match does not cover the whole text. The expressions are the
    interpreter's ([_strptime.TimeRE], C locale); a match is searched as
    the [re] module does, alternatives in order and with backtracking, so
    the matcher returns every match, first one first. *)

Inductive re : Type :=
| Chr (c : char)
| ChrI (lc : char)
| Rng (lo hi : char)
| Dig
| Seq (a b : re)
| Alt (a b : re)
| Spaces.

Inductive field : Type := fY | fm | fd | fH | fI | fM | fp.

Definition field_eqb (a b : field) : bool :=
  match a, b with
  | fY, fY | fm, fm | fd, fd | fH, fH | fI, fI | fM, fM | fp, fp => true
  | _, _ => false
  end.

Inductive item_re : Type :=
| Group (f : field) (r : re)
| Plain (r : re).

Section Strptime.
Context {U : UnicodeData}.

(** [\s+], longest run first. *)
Fixpoint match_spaces (s : str) : list (str * str) :=
  match s with
  | [] => []
  | c :: s' =>
      if isspace c
      then map (fun '(m, r) => (c :: m, r)) (match_spaces s') ++ [([c], s')]
      else []
  end.

Definition match_char (p : char -> bool) (s : str) : list (str * str) :=
  match s with
  | c :: s' => if p c then [([c], s')] else []
  | [] => []
  end.

Fixpoint rmatch (r : re) (s : str) : list (str * str) :=
  match r with
  | Chr c => match_char (N.eqb c) s
  | ChrI lc => match_char (fun c => (c =? lc) || (c + 32 =? lc))%N s
  | Rng lo hi => match_char (fun c => (lo <=? c) && (c <=? hi))%N s
  | Dig => match_char is_digit s
  | Seq a b =>
      flat_map (fun '(m1, s1) =>
                  map (fun '(m2, s2) => (m1 ++ m2, s2)) (rmatch b s1))
               (rmatch a s)
  | Alt a b => rmatch a s ++ rmatch b s
  | Spaces => match_spaces s
  end.

Definition found_dict : Type := list (field * str).

Fixpoint fmatch (fmt : list item_re) (s : str) : list (found_dict * str) :=
  match fmt with
  | [] => [([], s)]
  | Group f r :: fmt' =>
      flat_map (fun '(m, s1) =>
                  map (fun '(d, s2) => ((f, m) :: d, s2)) (fmatch fmt' s1))
               (rmatch r s)
  | Plain r :: fmt' =>
      flat_map (fun '(_, s1) => fmatch fmt' s1) (rmatch r s)
  end.

(** The expressions of the directives the source uses. *)
Definition re_I : re :=   (* 1[0-2]|0[1-9]|[1-9] *)
  Alt (Seq (Chr (ch "1")) (Rng (ch "0") (ch "2")))
    (Alt (Seq (Chr (ch "0")) (Rng (ch "1") (ch "9")))
       (Rng (ch "1") (ch "9"))).
Definition re_M : re :=   (* [0-5]\d|\d *)
  Alt (Seq (Rng (ch "0") (ch "5")) Dig) Dig.
Definition re_H : re :=   (* 2[0-3]|[0-1]\d|\d *)
  Alt (Seq (Chr (ch "2")) (Rng (ch "0") (ch "3")))
    (Alt (Seq (Rng (ch "0") (ch "1")) Dig) Dig).
Definition re_p : re :=   (* am|pm, letter case ignored *)
  Alt (Seq (ChrI (ch "a")) (ChrI (ch "m")))
    (Seq (ChrI (ch "p")) (ChrI (ch "m"))).
Definition re_Y : re :=   (* \d\d\d\d *)
  Seq Dig (Seq Dig (Seq Dig Dig)).
Definition re_m : re :=   (* 1[0-2]|0[1-9]|[1-9] *)
  re_I.
Definition re_d : re :=   (* 3[0-1]|[1-2]\d|0[1-9]|[1-9]| [1-9] *)
  Alt (Seq (Chr (ch "3")) (Rng (ch "0") (ch "1")))
    (Alt (Seq (Rng (ch "1") (ch "2")) Dig)
       (Alt (Seq (Chr (ch "0")) (Rng (ch "1") (ch "9")))
          (Alt (Rng (ch "1") (ch "9"))
             (Seq (Chr (ch " ")) (Rng (ch "1") (ch "9")))))).

Definition directive (c : char) : result item_re :=
  if (c =? ch "Y")%N then Return (Group fY re_Y)
  else if (c =? ch "m")%N then Return (Group fm re_m)
  else if (c =? ch "d")%N then Return (Group fd re_d)
  else if (c =? ch "H")%N then Return (Group fH re_H)
  else if (c =? ch "I")%N then Return (Group fI re_I)
  else if (c =? ch "M")%N then Return (Group fM re_M)
  else if (c =? ch "p")%N then Return (Group fp re_p)
  else Raise ValueError.

(** The format as a pattern: a run of whitespace is [\s+], [%x] is the
    group of directive [x], anything else is itself. [in_ws] says that the
    previous character was whitespace. Directives other than the seven
    above are not modelled; the source uses none. *)
Fixpoint pattern (in_ws : bool) (fmt : str) : result (list item_re) :=
  match fmt with
  | [] => Return []
  | c :: fmt' =>
      if isspace c then
        let* rest := pattern true fmt' in
        Return (if in_ws then rest else Plain Spaces :: rest)
      else if (c =? ch "%")%N then
        match fmt' with
        | d :: fmt'' =>
            let* it := directive d in
            let* rest := pattern false fmt'' in
            Return (it :: rest)
        | [] => Raise ValueError
        end
      else
        let* rest := pattern false fmt' in
        Return (Plain (Chr c) :: rest)
  end.

(** [int(s)] for a group's text: decimal digits, blanks around them
    ignored. *)
Definition py_int (s : str) : result Z :=
  match strip s with
  | [] => Raise ValueError
  | ds =>
      fold_left
        (fun acc c =>
           let* a := acc in
           match digit_value c with
           | Some v => Return (10 * a + v)
           | None => Raise ValueError
           end)
        ds (Return 0)
  end.

Definition lookup_field (f : field) (d : found_dict) : option str :=
  match List.find (fun '(g, _) => field_eqb f g) d with
  | Some (_, s) => Some s
  | None => None
  end.

Definition int_field (f : field) (d : found_dict) (default : Z) : result Z :=
  match lookup_field f d with
  | Some s => py_int s
  | None => Return default
  end.

(** The hour of the found groups: [%H] as it is; [%I] on the 12-hour
    clock, read with the [%p] group (no group or [am]: 12 is 0; [pm]:
    12 more unless 12). *)
Definition hour_of (d : found_dict) : result Z :=
  match lookup_field fI d with
  | Some s =>
      let* h := py_int s in
      let ampm := match lookup_field fp d with
                  | Some p => lower p
                  | None => []
                  end in
      if str_eqb ampm [] || str_eqb ampm (py "am")
      then Return (if h =? 12 then 0 else h)
      else if str_eqb ampm (py "pm")
      then Return (if h =? 12 then h else h + 12)
      else Return h
  | None => int_field fH d 0
  end.

Definition strptime (data_string format : str) : result datetime :=
  let* fmt := pattern false format in
  match fmatch fmt data_string with
  | [] => Raise ValueError
  | (found, rest) :: _ =>
      if truthy rest then Raise ValueError
      else
        let* y := int_field fY found 1900 in
        let* m := int_field fm found 1 in
        let* d := int_field fd found 1 in
        let* h := hour_of found in
        let* mi := int_field fM found 0 in
        new_datetime y m d h mi 0 0
  end.

(** ** The schedule-time parser: [parse_schedule_time]

    [now] is the reading of [datetime.now()]. *)

Definition parse_body (now : datetime) (time_str : str) : result datetime :=
  if contains (py " ") time_str then
    let* '(date_part, time_part) :=
      match split_space_once time_str with
      | Some p => Return p
      | None => Raise ValueError
      end in
    let* date_obj := strptime date_part (py "%Y-%m-%d") in
    let* time_obj :=
      if contains (py "am") time_part || contains (py "pm") time_part then
        let time_part :=
          replace (py "pm") (py " PM")
            (replace (py "am") (py " AM") time_part) in
        if contains (py ":") time_part
        then strptime (strip time_part) (py "%I:%M %p")
        else strptime (strip time_part) (py "%I %p")
      else strptime (strip time_part) (py "%H:%M") in
    new_datetime (year date_obj) (month date_obj) (day date_obj)
      (hour time_obj) (minute time_obj) 0 (microsecond date_obj)
  else
    let* time_obj :=
      if contains (py "am") time_str || contains (py "pm") time_str then
        let time_str :=
          replace (py "pm") (py " PM")
            (replace (py "am") (py " AM") time_str) in
        if contains (py ":") time_str
        then strptime (strip time_str) (py "%I:%M %p")
        else strptime (strip time_str) (py "%I %p")
      else if contains (py ":") time_str
      then strptime (strip time_str) (py "%H:%M")
      else strptime (strip time_str) (py "%H") in
    let* result :=
      new_datetime (year now) (month now) (day now)
        (hour time_obj) (minute time_obj) 0 0 in
    if datetime_le result now then add_days result 1 else Return result.

Definition parse_schedule_time (now : datetime) (time_str : str)
  : option datetime :=
  let time_str := lower (strip time_str) in
  match parse_body now time_str with
  | Return r => Some r
  | Raise _ => None
  end.

End Strptime.

(** ** The transfer: [YouTubeBot.upload_video] *)

(** [int(x)] of a float: truncation towards zero; [ValueError] on a NaN,
    [OverflowError] on an infinity. *)
Definition int_of_float (x : float) : result Z :=
  match Prim2SF x with
  | S754_nan => Raise ValueError
  | S754_infinity _ => Raise OverflowError
  | S754_zero _ => Return 0
  | S754_finite neg m e =>
      let v := Z.shiftl (Z.pos m) e in
      Return (if neg then - v else v)
  end.

(** The request body built from the metadata. *)
Record body : Type := {
  snippet_title : str;
  snippet_description : str;
  snippet_tags : list str;
  snippet_categoryId : str;
  status_privacyStatus : str;
  status_selfDeclaredMadeForKids : bool
}.

(** The final object of a transfer; [id] is [response['id']], [None] when
    the key is missing. *)
Record response : Type := { id : option str }.

(** One call of [request.next_chunk()]: the pair [(status, response)],
    [status] given by its [progress()]. The request is the function from
    the number of the call to what the call does. *)
Definition chunk : Type := (option float * option response)%type.
Definition request : Type := nat -> result chunk.

(** What [upload_video] finds outside the program. *)
Record world : Type := {
  stdout : console;
  os_path_exists : str -> bool;
  gemini_model : option model;
  MediaFileUpload : str -> result unit;
  videos_insert : body -> result request;
  (** [time.time()] when [last_progress_time] is initialised *)
  time_start : float;
  (** [time.time()] after call [k] of [next_chunk] *)
  time_at : nat -> float
}.

Definition MILESTONES : list Z := [25; 50; 75; 100].

Definition in_list (x : Z) (l : list Z) : bool := existsb (Z.eqb x) l.

(** One pass of the body of [while response is None] after [next_chunk]
    returned [status]: the percentages shown so far and
    [last_progress_time], updated. *)
Definition show_progress (W : world) (k : nat) (status : option float)
    (last_progress_time : float) (shown : list Z)
  : result (list Z * float) :=
  match status with
  | Some progress =>
      let* progress_pct := int_of_float (progress * 100)%float in
      let current_time := time_at W k in
      if (2 <=? current_time - last_progress_time)%float
         || in_list progress_pct MILESTONES
      then Return (shown ++ [progress_pct], current_time)
      else Return (shown, last_progress_time)
  | None => Return (shown, last_progress_time)
  end.

(** The loop [while response is None]; [fuel] bounds the number of calls
    of [next_chunk], and the result is [None] when the loop is still
    running after that many. The percentages shown are returned also when
    the loop ends by an exception. *)
Fixpoint upload_chunks (fuel : nat) (W : world) (req : request) (k : nat)
    (last_progress_time : float) (shown : list Z)
  : option (list Z * result response) :=
  match fuel with
  | O => None
  | S fuel' =>
      match req k with
      | Raise e => Some (shown, Raise e)
      | Return (status, response) =>
          match show_progress W k status last_progress_time shown with
          | Raise e => Some (shown, Raise e)
          | Return (shown', last') =>
              match response with
              | Some r => Some (shown', Return r)
              | None => upload_chunks fuel' W req (S k) last' shown'
              end
          end
      end
  end.

Definition truthy_opt (s : option str) : bool :=
  match s with
  | Some t => truthy t
  | None => false
  end.

Section Upload.
Context {U : UnicodeData}.

(** [a or b] on an optional string. *)
Definition or_else (a : option str) (b : str) : str :=
  match a with
  | Some t => if truthy t then t else b
  | None => b
  end.

(** The [try] block of [upload_video]. *)
Definition transfer (fuel : nat) (W : world) (video_path : str) (b : body)
  : option (list Z * result (option str)) :=
  match (let* _ := MediaFileUpload W video_path in videos_insert W b) with
  | Raise e => Some ([], Raise e)
  | Return req =>
      match upload_chunks fuel W req 0 (time_start W) [] with
      | None => None
      | Some (shown, Raise e) => Some (shown, Raise e)
      | Some (shown, Return r) =>
          match id r with
          | Some video_id => Some (shown, Return (Some video_id))
          | None => Some (shown, Raise KeyError)
          end
      end
  end.

(** The two [except] clauses. The first prints the status and the
    content of the [HttpError], a number and the [repr] of bytes; the
    second prints the exception, and raises when the console refuses its
    text. *)
Definition on_upload_error (W : world) (e : exn) : result (option str) :=
  match e with
  | HttpError _ _ => Return None
  | _ =>
      let* _ := print_exception (stdout W) e in
      Return None
  end.

(** [upload_video]: the percentages shown and the value returned, or
    [None] while the transfer is still running. *)
Definition upload_video (fuel : nat) (W : world) (video_path : str)
    (title description : option str) (category privacy : str)
    (tags : list str) (user_context : str)
  : option (list Z * result (option str)) :=
  if negb (os_path_exists W video_path) then Some ([], Return None)
  else
    match
      (if negb (truthy_opt title) || negb (truthy_opt description) then
         let* metadata :=
           generate_metadata (stdout W) (gemini_model W) video_path
             user_context in
         Return (or_else title (Metadata.title metadata),
                 or_else description (Metadata.description metadata))
       else Return (or_else title [], or_else description []))
    with
    | Raise e => Some ([], Raise e)
    | Return (title, description) =>
        let title := _sanitize_title title in
        let b := {| snippet_title := title;
                    snippet_description := description;
                    snippet_tags := tags;
                    snippet_categoryId := category;
                    status_privacyStatus := privacy;
                    status_selfDeclaredMadeForKids := false |} in
        match transfer fuel W video_path b with
        | None => None
        | Some (shown, r) => Some (shown, try_except r (on_upload_error W))
        end
    end.

End Upload.

(** ** The registry and the dispatcher

    A [ScheduledUpload] is an object; the registry
    [YouTubeBot.scheduled_uploads] is a list of references to such
    objects, and [list.remove] and the status updates go through the
    reference. *)

Inductive status : Type := pending | uploading | completed | failed.

Record ScheduledUpload : Type := {
  video_path : str;
  scheduled_time : datetime;
  privacy : str;
  tags : list str;
  user_context : str;
  upload_status : status
}.

Definition set_status (st : status) (u : ScheduledUpload) : ScheduledUpload :=
  {| video_path := video_path u;
     scheduled_time := scheduled_time u;
     privacy := privacy u;
     tags := tags u;
     user_context := user_context u;
     upload_status := st |}.

Definition ref : Type := nat.

(** Where the dispatcher thread stands in [_scheduler_loop]. [Died e u]:
    the exception [e] left the loop, which has no handler, while the
    thread was executing the entry [u]; the thread is over. *)
Inductive thread : Type :=
| NotStarted
| LoopHead
| ForLoop (current_time : datetime) (snapshot : list ref)
| InUpload (current_time : datetime) (upload : ref) (snapshot : list ref)
| BeforeRemove (current_time : datetime) (upload : ref) (snapshot : list ref)
| Exited
| Died (e : exn) (upload : ref).

Record bot : Type := {
  heap : gmap ref ScheduledUpload;
  scheduled_uploads : list ref;
  scheduler_running : bool;
  scheduler_thread : thread;
  (** the menu loop of [main] has not been left *)
  menu_open : bool
}.

(** [YouTubeBot(...)] before any submission. *)
Definition new_bot : bot :=
  {| heap := ∅; scheduled_uploads := []; scheduler_running := false;
     scheduler_thread := NotStarted; menu_open := true |}.

(** [l.remove(x)]: the first occurrence goes; [ValueError] when there is
    none. *)
Fixpoint list_remove (x : ref) (l : list ref) : result (list ref) :=
  match l with
  | [] => Raise ValueError
  | y :: l' =>
      if (x =? y)%nat then Return l'
      else
        let* r := list_remove x l' in
        Return (y :: r)
  end.

(** [if video_id:]. *)
Definition truthy_id (video_id : option str) : bool := truthy_opt video_id.

(** The steps of the two threads. [Submit] is option 2 of the menu: a new
    [ScheduledUpload], [schedule_upload], and [start_scheduler] unless the
    dispatcher runs. [Stop] is [stop_scheduler] after the menu loop. The
    others are the dispatcher's: [Wake] tests the loop condition and takes
    the snapshot, with [datetime.now()] as given; [Visit] is the head of
    the [for] loop up to [upload.status = "uploading"]; [Upload] is the
    call of [upload_video] in the world given and the assignment of the
    final status, or the end of the thread when the call raises; [Remove]
    is [self.scheduled_uploads.remove(upload)]. *)
Inductive event : Type :=
| Submit (path : str) (time : datetime) (privacy : str) (tags : list str)
         (context : str)
| Stop
| Wake (now : datetime)
| Visit
| Upload (W : world) (fuel : nat)
| Remove.

Section Dispatcher.
Context {U : UnicodeData}.

Definition with_thread (t : thread) (b : bot) : bot :=
  {| heap := heap b; scheduled_uploads := scheduled_uploads b;
     scheduler_running := scheduler_running b;
     scheduler_thread := t; menu_open := menu_open b |}.

Definition with_status (r : ref) (st : status) (t : thread) (b : bot) : bot :=
  {| heap := alter (set_status st) r (heap b);
     scheduled_uploads := scheduled_uploads b;
     scheduler_running := scheduler_running b;
     scheduler_thread := t; menu_open := menu_open b |}.

(** One step; [None] when the event cannot happen in the state. *)
Definition step (ev : event) (b : bot) : option bot :=
  match ev, scheduler_thread b with
  | Submit path time priv tgs ctx, th =>
      if menu_open b then
        let r := fresh (dom (heap b)) in
        let upload :=
          {| video_path := path; scheduled_time := time; privacy := priv;
             tags := tgs; user_context := ctx; upload_status := pending |} in
        Some {| heap := <[r := upload]> (heap b);
                scheduled_uploads := scheduled_uploads b ++ [r];
                scheduler_running := true;
                scheduler_thread :=
                  if scheduler_running b then th else LoopHead;
                menu_open := true |}
      else None
  | Stop, th =>
      if menu_open b then
        Some {| heap := heap b; scheduled_uploads := scheduled_uploads b;
                scheduler_running := false; scheduler_thread := th;
                menu_open := false |}
      else None
  | Wake now, LoopHead =>
      if scheduler_running b
      then Some (with_thread (ForLoop now (scheduled_uploads b)) b)
      else Some (with_thread Exited b)
  | Visit, ForLoop current_time [] => Some (with_thread LoopHead b)
  | Visit, ForLoop current_time (r :: rest) =>
      match heap b !! r with
      | Some upload =>
          match upload_status upload with
          | pending =>
              if datetime_ge current_time (scheduled_time upload)
              then Some (with_status r uploading
                           (InUpload current_time r rest) b)
              else Some (with_thread (ForLoop current_time rest) b)
          | _ => Some (with_thread (ForLoop current_time rest) b)
          end
      | None => None
      end
  | Upload W fuel, InUpload current_time r rest =>
      match heap b !! r with
      | Some upload =>
          match upload_video fuel W (video_path upload) None None (py "22")
                  (privacy upload) (tags upload) (user_context upload) with
          | Some (_, Return video_id) =>
              Some (with_status r
                      (if truthy_id video_id then completed else failed)
                      (BeforeRemove current_time r rest) b)
          | Some (_, Raise e) => Some (with_thread (Died e r) b)
          | None => None
          end
      | None => None
      end
  | Remove, BeforeRemove current_time r rest =>
      match list_remove r (scheduled_uploads b) with
      | Return l =>
          Some {| heap := heap b; scheduled_uploads := l;
                  scheduler_running := scheduler_running b;
                  scheduler_thread := ForLoop current_time rest;
                  menu_open := menu_open b |}
      | Raise e => Some (with_thread (Died e r) b)
      end
  | _, _ => None
  end.

(** A run of the program from a state. *)
Fixpoint run (evs : list event) (b : bot) : option bot :=
  match evs with
  | [] => Some b
  | ev :: evs' =>
      match step ev b with
      | Some b' => run evs' b'
      | None => None
      end
  end.

Definition reachable (b : bot) : Prop := exists evs, run evs new_bot = Some b.

Definition status_of (b : bot) (r : ref) : option status :=
  upload_status <$> heap b !! r.

End Dispatcher.

(** * Notions used in the statements

    What follows defines no behaviour of the program: it names the inputs,
    the invariants and the finite checks the theorems speak about. *)

(** ** Whitespace-normal text

    [tight true t]: [t] is not empty, starts and ends with a
    non-whitespace character, and its only whitespace is single spaces
    between such characters. [tight false t] is the same for what follows
    a non-whitespace character. *)
Fixpoint tight (after_sep : bool) (t : str) : Prop :=
  match t with
  | [] => after_sep = false
  | c :: t' =>
      if isspace c then after_sep = false /\ c = SPACE /\ tight true t'
      else tight false t'
  end.

(** ** Responses of the text-generation collaborator *)

(** The title and the description [generate_metadata] reads in the text
    of a response, before the title is sanitised and an empty description
    replaced. *)
Definition response_parts (text : str) : str * str :=
  if (contains (py "TITLE:") text && contains (py "DESCRIPTION:") text)%bool
  then
    let parts := split (py "DESCRIPTION:") text in
    (strip (replace (py "TITLE:") [] (nth 0 parts [])), strip (nth 1 parts []))
  else
    let lines := split [NEWLINE] (strip text) in
    (strip (nth 0 lines []), strip (join [NEWLINE] (drop 1 lines))).

Definition response_title (text : str) : str :=
  strip (replace (py "*") [] (replace (py "**") [] (fst (response_parts text)))).

Definition response_description (video_name text : str) : str :=
  if negb (truthy (snd (response_parts text)))
  then py "Video: " ++ video_name
  else snd (response_parts text).

(** A collaborator that answers with an empty title section. *)
Definition silent_model : model :=
  fun _ => Return (py "TITLE: DESCRIPTION: hello").

(** A collaborator that cannot be reached. *)
Definition unreachable_model : model :=
  fun _ => Raise (CollaboratorError (py "503 unreachable")).

(** A collaborator whose error has a lone surrogate in its text. *)
Definition garbled_model : model :=
  fun _ => Raise (CollaboratorError [56448%N]).

(** ** Time phrases *)

Definition digit_char (d : Z) : char := Z.to_N (48 + d).

Definition two_digits (n : Z) : str :=
  [digit_char (n / 10); digit_char (n mod 10)].

Definition decimal (n : Z) : str :=
  if n <? 10 then [digit_char n] else two_digits n.

Definition four_digits (n : Z) : str :=
  [digit_char (n / 1000); digit_char (n / 100 mod 10);
   digit_char (n / 10 mod 10); digit_char (n mod 10)].

Definition hour_text (padded : bool) (h : Z) : str :=
  if padded then two_digits h else decimal h.

(** The phrases for a time of day: [H[:MM]am|pm] on the 12-hour clock,
    [H:MM] on the 24-hour clock, and a bare hour; the hour with or without
    a leading zero. *)
Inductive clock_phrase : Type :=
| Clock12 (padded : bool) (h : Z) (m : option Z) (pm : bool)
| Clock24 (padded : bool) (h m : Z)
| BareHour (padded : bool) (h : Z).

Definition render (p : clock_phrase) : str :=
  match p with
  | Clock12 padded h m pm =>
      hour_text padded h
      ++ match m with Some mi => py ":" ++ two_digits mi | None => [] end
      ++ (if pm then py "pm" else py "am")
  | Clock24 padded h m => hour_text padded h ++ py ":" ++ two_digits m
  | BareHour padded h => hour_text padded h
  end.

Definition minute_ok (m : Z) : bool := (0 <=? m) && (m <=? 59).

Definition phrase_ok (p : clock_phrase) : bool :=
  match p with
  | Clock12 _ h m _ =>
      (1 <=? h) && (h <=? 12)
      && match m with Some mi => minute_ok mi | None => true end
  | Clock24 _ h m => (0 <=? h) && (h <=? 23) && minute_ok m
  | BareHour _ h => (0 <=? h) && (h <=? 23)
  end.

(** The hour on the 24-hour clock and the minute a phrase means. *)
Definition phrase_hour (p : clock_phrase) : Z :=
  match p with
  | Clock12 _ h _ pm =>
      if pm then (if h =? 12 then 12 else h + 12)
      else (if h =? 12 then 0 else h)
  | Clock24 _ h _ => h
  | BareHour _ h => h
  end.

Definition phrase_minute (p : clock_phrase) : Z :=
  match p with
  | Clock12 _ _ (Some m) _ => m
  | Clock12 _ _ None _ => 0
  | Clock24 _ _ m => m
  | BareHour _ _ => 0
  end.

(** The phrases of the two stated grammars: all but the bare hour. *)
Definition stated_grammar (p : clock_phrase) : bool :=
  match p with
  | BareHour _ _ => false
  | _ => true
  end.

(** [YYYY-MM-DD]. *)
Definition render_date (y m d : Z) : str :=
  four_digits y ++ py "-" ++ two_digits m ++ py "-" ++ two_digits d.

(** Today's date with the given hour and minute, second 0. *)
Definition same_day_at (now : datetime) (h m : Z) : datetime :=
  {| year := year now; month := month now; day := day now;
     hour := h; minute := m; second := 0; microsecond := 0 |}.

(** What [strptime] returns for a time of day. *)
Definition time_of_day (h m : Z) : datetime :=
  {| year := 1900; month := 1; day := 1; hour := h; minute := m;
     second := 0; microsecond := 0 |}.

Definition DATE_TAIL : list item_re :=
  [Plain (Chr (ch "-")); Group fm re_m; Plain (Chr (ch "-")); Group fd re_d].

Definition is_int (r : result Z) (n : Z) : bool :=
  match r with
  | Return v => v =? n
  | Raise _ => false
  end.

Definition is_time (r : result datetime) (h m : Z) : bool :=
  match r with
  | Return d =>
      (year d =? 1900) && (month d =? 1) && (day d =? 1) && (hour d =? h)
      && (minute d =? m) && (second d =? 0) && (microsecond d =? 0)
  | Raise _ => false
  end.

Definition is_raise {A : Type} (r : result A) : bool :=
  match r with
  | Raise _ => true
  | Return _ => false
  end.

(** [f] holds on the [n] integers from [lo]. *)
Fixpoint all_from (lo : Z) (n : nat) (f : Z -> bool) : bool :=
  match n with
  | O => true
  | S n' => f lo && all_from (lo + 1) n' f
  end.

Section Clock.
Context {U : UnicodeData}.

(** A character that the trimming, the lowering and the cut at the first
    space leave alone. *)
Definition plain (c : char) : Prop :=
  isspace c = false /\ lower_char c = [c] /\ (c =? SPACE)%N = false.

(** The time of day [parse_schedule_time] reads when no date is given. *)
Definition clock_alone (time_str : str) : result datetime :=
  if contains (py "am") time_str || contains (py "pm") time_str then
    let time_str :=
      replace (py "pm") (py " PM") (replace (py "am") (py " AM") time_str) in
    if contains (py ":") time_str
    then strptime (strip time_str) (py "%I:%M %p")
    else strptime (strip time_str) (py "%I %p")
  else if contains (py ":") time_str
  then strptime (strip time_str) (py "%H:%M")
  else strptime (strip time_str) (py "%H").

(** The time of day it reads behind a date. *)
Definition clock_dated (time_part : str) : result datetime :=
  if contains (py "am") time_part || contains (py "pm") time_part then
    let time_part :=
      replace (py "pm") (py " PM") (replace (py "am") (py " AM") time_part) in
    if contains (py ":") time_part
    then strptime (strip time_part) (py "%I:%M %p")
    else strptime (strip time_part) (py "%I %p")
  else strptime (strip time_part) (py "%H:%M").

(** Everything the proofs need of one phrase, as a test that can be run:
    the phrase is in lower case and trimmed, has no space, and is read as
    the time it means, alone and (unless it is a bare hour) behind a
    date. *)
Definition check_phrase (p : clock_phrase) : bool :=
  let s := render p in
  str_eqb (lower (strip s)) s
  && negb (contains (py " ") s)
  && is_time (clock_alone s) (phrase_hour p) (phrase_minute p)
  && (negb (stated_grammar p)
      || str_eqb (lower (rstrip (SPACE :: s))) (SPACE :: s)
         && is_time (clock_dated s) (phrase_hour p) (phrase_minute p)).

(** A phrase as it is written: on the 12-hour clock with or without a
    space before [am] or [pm]; the other phrases have one way. *)
Definition render_as (spaced : bool) (p : clock_phrase) : str :=
  match p with
  | Clock12 padded h m pm =>
      hour_text padded h
      ++ match m with Some mi => py ":" ++ two_digits mi | None => [] end
      ++ (if spaced then py " " else [])
      ++ (if pm then py "pm" else py "am")
  | _ => render p
  end.

(** The same test for a phrase with the space: alone it is in lower case
    and trimmed, and the parser raises on it; behind a date it is read as
    the time it means. *)
Definition check_spaced (now : datetime) (p : clock_phrase) : bool :=
  let s := render_as true p in
  str_eqb (lower (strip s)) s
  && is_raise (parse_body now s)
  && str_eqb (lower (rstrip (SPACE :: s))) (SPACE :: s)
  && is_time (clock_dated s) (phrase_hour p) (phrase_minute p).

(** The part of a date behind the year is matched and read as the month
    and the day. *)
Definition check_date_tail (m d : Z) : bool :=
  match fmatch DATE_TAIL (py "-" ++ two_digits m ++ py "-" ++ two_digits d) with
  | ([(fm, tm); (fd, td)], []) :: _ =>
      is_int (py_int tm) m && is_int (py_int td) d
  | _ => false
  end.

End Clock.

(** ** The calendar

    [ord_ok n]: day [n] of the first 400 years is turned by [_ord2ymd] into
    a date of the calendar that [_ymd2ord] turns back into [n]. *)
Definition ord_ok (n : Z) : bool :=
  let '(y, m, d) := _ord2ymd n in
  (1 <=? m) && (m <=? 12) && (1 <=? d) && (d <=? _days_in_month y m)
  && (_ymd2ord y m d =? n) && (1 <=? y) && (y <=? 400).

Definition check_cycle (n : N) : Z * bool :=
  N.iter n (fun '(k, ok) => (k + 1, ok && ord_ok k)) (1, true).

(** ** The progress tracker *)

#[local] Set Warnings "-inexact-float".

(** [int(progress * 100)]. *)
Definition percent (progress : float) : result Z :=
  int_of_float (progress * 100)%float.

(** The transfer of the scenario: five calls of [next_chunk] that report
    0.1, 0.26, 0.5, 0.9 and 1.0, the last one with the final object. *)
Definition reports (req : request) (r : response) : Prop :=
  req 0%nat = Return (Some 0.1%float, None)
  /\ req 1%nat = Return (Some 0.26%float, None)
  /\ req 2%nat = Return (Some 0.5%float, None)
  /\ req 3%nat = Return (Some 0.9%float, None)
  /\ req 4%nat = Return (Some 1%float, Some r).

(** Less than two seconds from [a] to [b], as the loop tests it. *)
Definition within_two_seconds (a b : float) : Prop :=
  (2 <=? b - a)%float = false.

(** All readings of the clock within two seconds of each other. *)
Definition rapid (W : world) : Prop :=
  (forall k, within_two_seconds (time_start W) (time_at W k))
  /\ forall j k, within_two_seconds (time_at W j) (time_at W k).

Definition stub_response : response := {| id := Some (py "abc123") |}.

Definition stub_request : request := fun k =>
  match k with
  | 0%nat => Return (Some 0.1%float, None)
  | 1%nat => Return (Some 0.26%float, None)
  | 2%nat => Return (Some 0.5%float, None)
  | 3%nat => Return (Some 0.9%float, None)
  | 4%nat => Return (Some 1%float, Some stub_response)
  | _ => Raise (CollaboratorError (py "no more chunks"))
  end.

(** A world in which the five chunks arrive a quarter of a second
    apart. *)
Definition fast_world : world :=
  {| stdout := utf8;
     os_path_exists := fun _ => true;
     gemini_model := None;
     MediaFileUpload := fun _ => Return tt;
     videos_insert := fun _ => Return stub_request;
     time_start := 1000%float;
     time_at := fun k =>
       match k with
       | 0%nat => 1000.25%float
       | 1%nat => 1000.5%float
       | 2%nat => 1000.75%float
       | 3%nat => 1001%float
       | _ => 1001.25%float
       end |}.

(** ** The dispatcher *)

Definition terminal (st : status) : Prop := st = completed \/ st = failed.

(** The entry the dispatcher is executing, or died executing. *)
Definition current (t : thread) : option ref :=
  match t with
  | InUpload _ u _ | BeforeRemove _ u _ | Died _ u => Some u
  | _ => None
  end.

Definition snapshot_of (t : thread) : list ref :=
  match t with
  | ForLoop _ l | InUpload _ _ l | BeforeRemove _ _ l => l
  | _ => []
  end.

Definition thread_ok (b : bot) : Prop :=
  match scheduler_thread b with
  | InUpload _ u _ =>
      u ∈ scheduled_uploads b /\ status_of b u = Some uploading
  | BeforeRemove _ u _ =>
      u ∈ scheduled_uploads b
      /\ exists st, status_of b u = Some st /\ terminal st
  | Died _ u =>
      u ∈ scheduled_uploads b /\ status_of b u = Some uploading
  | _ => True
  end.

(** What holds in every state the program reaches: the registry has no
    reference twice and none that dangles; an object that left the
    registry is terminal; an object in the registry is pending unless the
    dispatcher is executing it, or died executing it; a dispatcher thread
    that died did so inside [upload_video], with the entry still in the
    registry and [uploading]. *)
Record invariant (b : bot) : Prop := {
  inv_nodup : NoDup (scheduled_uploads b);
  inv_alloc : forall r, r ∈ scheduled_uploads b -> is_Some (heap b !! r);
  inv_left : forall r st,
    status_of b r = Some st -> r ∉ scheduled_uploads b -> terminal st;
  inv_pending : forall r st,
    r ∈ scheduled_uploads b -> status_of b r = Some st -> st <> pending ->
    current (scheduler_thread b) = Some r;
  inv_thread : thread_ok b;
  inv_snapshot : forall r,
    r ∈ snapshot_of (scheduler_thread b) -> is_Some (heap b !! r);
  inv_start :
    menu_open b = true -> scheduler_running b = false ->
    scheduler_thread b = NotStarted
}.

(** Call [k] of [next_chunk] raises [e]; no call before it returned the
    final object, and every progress they reported is a number [int()]
    accepts. *)
Definition raises_at (req : request) (k : nat) (e : exn) : Prop :=
  req k = Raise e
  /\ forall j, (j < k)%nat ->
       exists st, req j = Return (st, None)
                  /\ forall x, st = Some x -> exists p, percent x = Return p.

(** The transfer collaborator raises an error with the property [P],
    whatever the request: when the media object is made, when the request
    is made, or at one of the first [k + 1] calls of [next_chunk]. *)
Definition transfer_raises (W : world) (k : nat) (P : exn -> Prop) : Prop :=
  forall path b,
    (exists e, MediaFileUpload W path = Raise e /\ P e)
    \/ (exists e, MediaFileUpload W path = Return tt
                  /\ videos_insert W b = Raise e /\ P e)
    \/ (exists req j e,
          MediaFileUpload W path = Return tt
          /\ videos_insert W b = Return req
          /\ (j <= k)%nat /\ raises_at req j e /\ P e).

(** The console of the world has every code point of the text of [e]. *)
Definition printable (W : world) (e : exn) : Prop :=
  forallb (stdout W) (exn_text e) = true.


(** The clause that catches [e] is the general one, and the console lacks
    a code point of the text of [e]. *)
Definition report_fails (W : world) (e : exn) : Prop :=
  match e with
  | HttpError _ _ => False
  | _ => forallb (stdout W) (exn_text e) = false
  end.

(** When the generation collaborator of the world raises for this file,
    the console has the text of the error. *)
Definition metadata_error_prints (W : world) (path ctx : str) : Prop :=
  forall m e,
    gemini_model W = Some m ->
    m (prompt_of (path_stem path) ctx) = Raise e ->
    printable W e.

(** A world whose transfer raises at the first call of [next_chunk]. *)
Definition failing_world : world :=
  {| stdout := utf8;
     os_path_exists := fun _ => true;
     gemini_model := None;
     MediaFileUpload := fun _ => Return tt;
     videos_insert :=
       fun _ => Return (fun _ => Raise (HttpError 403 (py "quotaExceeded")));
     time_start := 1000%float;
     time_at := fun _ => 1000%float |}.

(** A world whose transfer raises, at the first call of [next_chunk], an
    error with a lone surrogate in its text. *)
Definition garbled_world : world :=
  {| stdout := utf8;
     os_path_exists := fun _ => true;
     gemini_model := None;
     MediaFileUpload := fun _ => Return tt;
     videos_insert :=
       fun _ => Return (fun _ => Raise (CollaboratorError [56448%N]));
     time_start := 1000%float;
     time_at := fun _ => 1000%float |}.

Definition an_afternoon : datetime :=
  {| year := 2025; month := 1; day := 31;
     hour := 14; minute := 0; second := 30; microsecond := 5 |}.

(** A submission that is due, and the dispatcher up to the call of
    [upload_video]. *)
Definition due_run : list event :=
  [Submit (py "clip.mp4") an_afternoon (py "private") [] [];
   Wake an_afternoon; Visit].

(** * Further parts of the program

    The pure parts of the menu of [main], the stopwatch [Timer], and the
    notions the theorems on the whole of the pipeline speak about. *)

(** ** The tags prompt of [main]

    [tags_input = input(...).strip()] and
    [[tag.strip() for tag in tags_input.split(",")] if tags_input else []]. *)
Definition tags_of_input (line : str) : list str :=
  let tags_input := strip line in
  if truthy tags_input
  then map strip (split (py ",") tags_input)
  else [].

(** ** The privacy prompt of [main]

    [privacy_choice = input(...).strip() or "1"] and
    [privacy_map.get(privacy_choice, "private")]. *)
Definition privacy_map : list (str * str) :=
  [(py "1", py "private"); (py "2", py "unlisted"); (py "3", py "public")].

Fixpoint dict_get (d : list (str * str)) (key default : str) : str :=
  match d with
  | [] => default
  | (k, v) :: d' => if str_eqb k key then v else dict_get d' key default
  end.

Definition privacy_of_input (line : str) : str :=
  let privacy_choice := if truthy (strip line) then strip line else py "1" in
  dict_get privacy_map privacy_choice (py "private").

(** ** [Timer]

    [start_time] and [end_time] are [None] or a reading of [time.time()];
    the methods take the reading of the clock they make. *)
Record Timer : Type := {
  start_time : option float;
  end_time : option float
}.

Definition Timer_init : Timer := {| start_time := None; end_time := None |}.

Definition Timer_start (clock : float) (t : Timer) : Timer :=
  {| start_time := Some clock; end_time := None |}.

Definition Timer_stop (clock : float) (t : Timer) : Timer :=
  {| start_time := start_time t; end_time := Some clock |}.

(** Truthiness of a float: [x != 0.0]. *)
Definition float_truthy (x : float) : bool := negb (x =? 0)%float.

Definition Timer_elapsed (clock : float) (t : Timer) : float :=
  match start_time t with
  | None => 0%float
  | Some s =>
      let e :=
        match end_time t with
        | Some e => if float_truthy e then e else clock
        | None => clock
        end in
      (e - s)%float
  end.

(** ** Notions for the progress tracker *)

Definition is_milestone (p : Z) : bool := in_list p MILESTONES.

(** The percentage call [j] of [next_chunk] reports, when it reports
    one. *)
Definition reported_at (req : request) (j : nat) : list Z :=
  match req j with
  | Return (Some x, _) =>
      match percent x with
      | Return p => [p]
      | Raise _ => []
      end
  | _ => []
  end.

(** The percentages reported by the [n] calls from call [k]. *)
Fixpoint reported (req : request) (k n : nat) : list Z :=
  match n with
  | O => []
  | S n' => reported_at req k ++ reported req (S k) n'
  end.

(** The calls from [k] to [k + n] go through: none before the last
    returns the final object, the last returns [r], and every progress
    they report is a number [int()] accepts. *)
Definition completes (req : request) (k n : nat) (r : response) : Prop :=
  (forall j, (j < n)%nat -> exists st, req (k + j)%nat = Return (st, None))
  /\ (exists st, req (k + n)%nat = Return (st, Some r))
  /\ forall j x o, (j <= n)%nat -> req (k + j)%nat = Return (Some x, o) ->
                   exists p, percent x = Return p.


(** A world whose transfer completes at its second call, with the final
    object [r]. *)
Definition answering_world (r : response) : world :=
  {| stdout := utf8;
     os_path_exists := fun _ => true;
     gemini_model := None;
     MediaFileUpload := fun _ => Return tt;
     videos_insert :=
       fun _ => Return (fun k =>
                  match k with
                  | O => Return (Some 0.5%float, None)
                  | _ => Return (None, Some r)
                  end);
     time_start := 1000%float;
     time_at := fun _ => 1000%float |}.

(** A world without the file. *)
Definition empty_disk : world :=
  {| stdout := utf8;
     os_path_exists := fun _ => false;
     gemini_model := None;
     MediaFileUpload := fun _ => Raise (CollaboratorError (py "no file"));
     videos_insert := fun _ => Raise (CollaboratorError (py "no file"));
     time_start := 1000%float;
     time_at := fun _ => 1000%float |}.

(** ** Notions for the dispatcher *)

(** The order of the statuses: pending, then uploading, then one of the
    two terminal ones. *)
Definition rank (st : status) : nat :=
  match st with
  | pending => 0
  | uploading => 1
  | completed | failed => 2
  end.

(** What an entry is made of, apart from its status. *)
Definition request_of (u : ScheduledUpload)
  : str * datetime * str * list str * str :=
  (video_path u, scheduled_time u, privacy u, tags u, user_context u).

(** Entry [r], if still in the registry, is pending and not yet due at
    [now]. *)
Definition waiting (b : bot) (now : datetime) (r : ref) : Prop :=
  r ∈ scheduled_uploads b ->
  exists u, heap b !! r = Some u
            /\ upload_status u = pending
            /\ datetime_ge now (scheduled_time u) = false.

(** The dispatcher is in, or has just finished, the scan that began at
    [now] with the snapshot [snap]: every entry of the snapshot is still
    to be visited, is being executed, or is waiting. Nothing is said of a
    scan in which the thread died. *)
Definition scanning (now : datetime) (snap : list ref) (b : bot) : Prop :=
  (forall r, r ∈ snap -> is_Some (heap b !! r))
  /\ match scheduler_thread b with
     | ForLoop c rest =>
         c = now /\ forall r, r ∈ snap -> r ∈ rest \/ waiting b now r
     | InUpload c u rest | BeforeRemove c u rest =>
         c = now
         /\ forall r, r ∈ snap -> r = u \/ r ∈ rest \/ waiting b now r
     | LoopHead => forall r, r ∈ snap -> waiting b now r
     | Died _ _ => True
     | _ => False
     end.

(** The events that do not begin a scan. *)
Definition within_scan (ev : event) : bool :=
  match ev with
  | Wake _ => false
  | _ => true
  end.

(** A collaborator that answers with emphasis marks around the title. *)
Definition emphatic_model : model :=
  fun _ => Return (py "TITLE: **Big** day DESCRIPTION: hello").

(** A submission, and the scan that serves it. *)
Definition a_submission : list event :=
  [Submit (py "clip.mp4") an_afternoon (py "private") [] []].

Definition a_scan : list event :=
  [Visit; Upload (answering_world stub_response) 2; Remove; Visit].

(** * Title sanitisation *)

#[local] Close Scope Z_scope.

Lemma tight_weaken t : tight true t -> tight false t.
Proof.
  destruct t as [|c t]; simpl; [discriminate|].
  destruct (isspace c); [intros [? _]; discriminate | auto].
Qed.

Lemma tight_nonempty t : tight true t -> t <> [].
Proof. destruct t; simpl; [discriminate | congruence]. Qed.

Lemma tight_lstrip t : tight true t -> lstrip t = t.
Proof.
  destruct t as [|c t]; simpl; [reflexivity|].
  destruct (isspace c); [intros [? _]; discriminate | reflexivity].
Qed.

Lemma tight_rstrip b t : tight b t -> rstrip t = t.
Proof.
  revert b. induction t as [|c t IH]; intros b; simpl; [reflexivity|].
  destruct (isspace c) eqn:Hc.
  - intros (_ & _ & Ht). rewrite (IH _ Ht).
    destruct t; [discriminate Ht | reflexivity].
  - intros Ht. rewrite (IH _ Ht). destruct t; reflexivity.
Qed.

Lemma join_cons_head sep c ws :
  ws <> [] -> join sep (cons_head c ws) = c :: join sep ws.
Proof. destruct ws as [|w [|w' ws]]; simpl; congruence. Qed.

Lemma split_ws_starts_word s : starts_word s = true -> split_ws s <> [].
Proof.
  destruct s as [|c s]; simpl; [discriminate|].
  destruct (isspace c); [discriminate|]. intros _.
  destruct (starts_word s); [destruct (split_ws s)|]; simpl; congruence.
Qed.

Lemma tight_join_split t :
  tight false t ->
  join [SPACE] (split_ws t) = lstrip t /\ (split_ws t = [] -> lstrip t = []).
Proof.
  induction t as [|c t IH]; cbn [tight split_ws lstrip join]; [auto|].
  destruct (isspace c) eqn:Hc.
  - intros (_ & _ & Ht). apply IH, tight_weaken, Ht.
  - intros Ht. destruct (IH Ht) as [IH1 IH2]. clear IH.
    destruct (starts_word t) eqn:Hw.
    + split.
      * rewrite join_cons_head by (apply split_ws_starts_word, Hw).
        rewrite IH1. f_equal.
        destruct t as [|d t]; cbn [starts_word lstrip] in *; [discriminate|].
        destruct (isspace d); [discriminate | reflexivity].
      * destruct (split_ws t); discriminate.
    + split; [|discriminate].
      destruct t as [|d t]; [reflexivity|].
      cbn [starts_word] in Hw. destruct (isspace d) eqn:Hd; [|discriminate].
      cbn [tight] in Ht. rewrite Hd in Ht. destruct Ht as (_ & -> & Ht).
      cbn [lstrip split_ws] in IH1, IH2. rewrite Hd in IH1, IH2.
      cbn [split_ws]. rewrite Hd.
      rewrite (tight_lstrip _ Ht) in IH1, IH2.
      destruct (split_ws t) as [|w ws] eqn:Hs.
      * exfalso. apply (tight_nonempty _ Ht). auto.
      * cbn [join app]. rewrite <- IH1. reflexivity.
Qed.

Lemma split_ws_words s : Forall (fun w => w <> []) (split_ws s).
Proof.
  induction s as [|c s IH]; cbn [split_ws]; [constructor|].
  destruct (isspace c); [exact IH|].
  destruct (starts_word s).
  - destruct (split_ws s); cbn [cons_head].
    + repeat constructor. discriminate.
    + inversion IH; subst. constructor; [discriminate | assumption].
  - constructor; [discriminate | exact IH].
Qed.

Lemma join_nonempty sep ws :
  Forall (fun w : str => w <> []) ws -> ws <> [] -> join sep ws <> [].
Proof.
  destruct ws as [|w ws]; [congruence|]. intros Hf _.
  inversion Hf; subst. cbn [join]. destruct ws; [assumption|].
  destruct w; [congruence | discriminate].
Qed.

Lemma isspace_SPACE : isspace SPACE = true.
Proof. reflexivity. Qed.

Lemma join_split_tight s :
  join [SPACE] (split_ws s) = [] \/ tight true (join [SPACE] (split_ws s)).
Proof.
  induction s as [|c s IH]; cbn [split_ws join]; [left; reflexivity|].
  destruct (isspace c) eqn:Hc; [exact IH|]. right.
  destruct (starts_word s) eqn:Hw.
  - rewrite join_cons_head by (apply split_ws_starts_word, Hw).
    cbn [tight]. rewrite Hc.
    destruct IH as [-> | IH]; [reflexivity | apply tight_weaken, IH].
  - pose proof (split_ws_words s) as Hf.
    destruct (split_ws s) as [|w ws] eqn:Hs; cbn [join].
    + cbn [tight]. rewrite Hc. reflexivity.
    + cbn [app tight]. rewrite Hc. cbn [tight]. rewrite isspace_SPACE.
      repeat split.
      destruct IH as [IH | IH]; [|exact IH].
      exfalso. revert IH. apply join_nonempty; [assumption | discriminate].
Qed.

Lemma tight_take_app b n t suf :
  tight b t -> tight true suf -> tight b (take n t ++ suf).
Proof.
  intros Ht Hs. revert b n Ht.
  induction t as [|c t IH]; intros b n Ht.
  - rewrite take_nil. cbn [app]. destruct b; [assumption | apply tight_weaken, Hs].
  - destruct n as [|n]; cbn [take app].
    + destruct b; [assumption | apply tight_weaken, Hs].
    + cbn [tight] in *. destruct (isspace c).
      * destruct Ht as (? & ? & Ht). repeat split; auto.
      * auto.
Qed.

Lemma sanitize_fixed t :
  tight true t -> length t <= MAX_TITLE_LENGTH -> _sanitize_title t = t.
Proof.
  intros Ht Hl. unfold _sanitize_title, strip.
  rewrite (tight_lstrip _ Ht), (tight_rstrip _ _ Ht).
  change (py " ") with [SPACE].
  destruct (tight_join_split t (tight_weaken _ Ht)) as [-> _].
  rewrite (tight_lstrip _ Ht).
  destruct (Nat.ltb_spec MAX_TITLE_LENGTH (length t)); [lia|].
  destruct t; [destruct (tight_nonempty _ Ht); reflexivity | reflexivity].
Qed.

(** C8: title sanitisation is idempotent: sanitising a sanitised title
    gives it back, for every input string. *)
Theorem sanitize_idempotent title :
  _sanitize_title (_sanitize_title title) = _sanitize_title title.
Proof.
  assert (H : tight true (_sanitize_title title)
              /\ length (_sanitize_title title) <= MAX_TITLE_LENGTH).
  { unfold _sanitize_title. change (py " ") with [SPACE].
    set (n := join [SPACE] (split_ws (strip title))).
    destruct (join_split_tight (strip title)) as [Hn | Hn]; fold n in Hn.
    - rewrite Hn. split; [vm_compute; repeat split | vm_compute; lia].
    - destruct (Nat.ltb_spec MAX_TITLE_LENGTH (length n)) as [Hl | Hl].
      + assert (Ht : tight true (take (MAX_TITLE_LENGTH - 3) n ++ py "...")).
        { apply tight_take_app; [assumption | reflexivity]. }
        destruct (take (MAX_TITLE_LENGTH - 3) n ++ py "...") eqn:E;
          [destruct (tight_nonempty _ Ht); reflexivity|].
        cbn [truthy negb]. split; [assumption|]. rewrite <- E.
        rewrite length_app, length_take.
        change (length (py "...")) with 3. unfold MAX_TITLE_LENGTH in *. lia.
      + destruct n; [destruct (tight_nonempty _ Hn); reflexivity|].
        cbn [truthy negb]. split; assumption. }
  destruct H. apply sanitize_fixed; assumption.
Qed.

(** C7, as amended: when the title is longer than 100 units after the
    whitespace steps (trimmed, runs of whitespace collapsed to one space),
    the sanitised title has length exactly 100 and ends with the
    ellipsis. *)
Theorem sanitize_long title :
  MAX_TITLE_LENGTH < length (normalized title) ->
  length (_sanitize_title title) = MAX_TITLE_LENGTH
  /\ py "..." `suffix_of` _sanitize_title title.
Proof.
  intros Hl. unfold _sanitize_title. fold (normalized title).
  destruct (Nat.ltb_spec MAX_TITLE_LENGTH (length (normalized title))); [|lia].
  destruct (take (MAX_TITLE_LENGTH - 3) (normalized title) ++ py "...") eqn:E.
  - apply (f_equal length) in E. rewrite length_app in E.
    change (length (py "...")) with 3 in E. cbn [length] in E. lia.
  - cbn [truthy negb]. rewrite <- E. split.
    + rewrite length_app, length_take.
      change (length (py "...")) with 3. unfold MAX_TITLE_LENGTH in *. lia.
    + eexists. reflexivity.
Qed.

Lemma sanitize_long_witness :
  MAX_TITLE_LENGTH < length (normalized (repeat (ch "a") 101))
  /\ length (_sanitize_title (repeat (ch "a") 101)) = MAX_TITLE_LENGTH
  /\ py "..." `suffix_of` _sanitize_title (repeat (ch "a") 101).
Proof.
  split; [vm_compute; lia|].
  apply (sanitize_long (repeat (ch "a") 101)). vm_compute. lia.
Defined.

(** C7, as stated, fails: a title of 101 units, the letter a followed by
    100 spaces, is sanitised to the single letter. *)
Lemma sanitize_long_counter :
  ~ (forall title, MAX_TITLE_LENGTH < length title ->
       length (_sanitize_title title) = MAX_TITLE_LENGTH
       /\ py "..." `suffix_of` _sanitize_title title).
Proof.
  intros H. destruct (H (py "a" ++ repeat SPACE 100)) as [Hl _].
  - vm_compute. lia.
  - vm_compute in Hl. discriminate.
Qed.

(** * Metadata generation *)

Section MetadataProofs.
Context {U : UnicodeData}.

Lemma split_from_nonempty sep s : forall skip cur, split_from sep skip cur s <> [].
Proof.
  induction s as [|c s IH]; intros skip cur; cbn [split_from]; [discriminate|].
  destruct skip; [|apply IH].
  destruct (startswith sep (c :: s)); [discriminate | apply IH].
Qed.

Lemma split_two sep s :
  sep <> [] -> contains sep s = true ->
  forall cur, 2 <= length (split_from sep 0 cur s).
Proof.
  intros Hsep. induction s as [|c s IH]; cbn [contains split_from].
  - destruct sep; [contradiction | discriminate].
  - intros H cur. destruct (startswith sep (c :: s)).
    + pose proof (split_from_nonempty sep s (length sep - 1) []) as Hne.
      destruct (split_from sep (length sep - 1) [] s); [contradiction|].
      cbn [length]. lia.
    + apply IH. exact H.
Qed.

Lemma item_nth {A} (l : list A) i d : i < length l -> item l i = Return (nth i l d).
Proof.
  intros H. unfold item.
  destruct (nth_error l i) eqn:E.
  - now rewrite (nth_error_nth _ _ d E).
  - apply nth_error_None in E. lia.
Qed.

Lemma generate_with_parts m video_name ctx text :
  m (prompt_of video_name ctx) = Return text ->
  generate_with m video_name ctx
  = Return {| Metadata.title := _sanitize_title (response_title text);
              Metadata.description := response_description video_name text |}.
Proof.
  intros Hm. unfold generate_with, response_title, response_description,
    response_parts. rewrite Hm. cbn [bind].
  destruct (contains (py "TITLE:") text && contains (py "DESCRIPTION:") text)
    eqn:Hc.
  - apply andb_prop in Hc. destruct Hc as [_ Hd].
    pose proof (split_two (py "DESCRIPTION:") text ltac:(discriminate) Hd [])
      as Hlen.
    fold (split (py "DESCRIPTION:") text) in Hlen. cbv zeta.
    rewrite (item_nth (A:=str) _ 0 []), (item_nth (A:=str) _ 1 []) by lia. reflexivity.
  - pose proof (split_from_nonempty [NEWLINE] (strip text) 0 []) as Hne.
    fold (split [NEWLINE] (strip text)) in Hne. cbv zeta.
    rewrite (item_nth (A:=str) _ 0 []); [reflexivity|].
    destruct (split [NEWLINE] (strip text)); [contradiction | cbn; lia].
Qed.

Lemma print_exception_cases stdout e :
  (forallb stdout (exn_text e) = true /\ print_exception stdout e = Return tt)
  \/ (forallb stdout (exn_text e) = false
      /\ print_exception stdout e = Raise UnicodeEncodeError).
Proof.
  unfold print_exception. destruct (forallb stdout (exn_text e)); auto.
Qed.

(** C3, as amended: for every console, media path and context hint, the
    metadata generation returns a pair and does not raise, provided that
    the console prints the error of the collaborator when it raises one;
    when the collaborator is unavailable, or raises an error the console
    prints, the pair is the fallback derived from the file name; when the
    collaborator answers, the pair is read from the answer (sanitised
    title, description or its one-line replacement) whatever the title
    is, so an empty title becomes the placeholder and not the fallback. *)
Theorem generate_metadata_total stdout gm path ctx :
  ((forall m e,
       gm = Some m -> m (prompt_of (path_stem path) ctx) = Raise e ->
       forallb stdout (exn_text e) = true) ->
   exists md, generate_metadata stdout gm path ctx = Return md)
  /\ (gm = None ->
      generate_metadata stdout gm path ctx
      = Return (_create_fallback_metadata path ctx))
  /\ (forall m e,
        gm = Some m -> m (prompt_of (path_stem path) ctx) = Raise e ->
        forallb stdout (exn_text e) = true ->
        generate_metadata stdout gm path ctx
        = Return (_create_fallback_metadata path ctx))
  /\ (forall m text,
        gm = Some m -> m (prompt_of (path_stem path) ctx) = Return text ->
        generate_metadata stdout gm path ctx
        = Return {| Metadata.title := _sanitize_title (response_title text);
                    Metadata.description :=
                      response_description (path_stem path) text |}).
Proof.
  assert (Hraise : forall m e,
            m (prompt_of (path_stem path) ctx) = Raise e ->
            forallb stdout (exn_text e) = true ->
            generate_metadata stdout (Some m) path ctx
            = Return (_create_fallback_metadata path ctx)).
  { intros m e He Hp. unfold generate_metadata, generate_with.
    rewrite He. cbn [bind try_except]. unfold print_exception.
    now rewrite Hp. }
  assert (Hanswer : forall m text,
            m (prompt_of (path_stem path) ctx) = Return text ->
            generate_metadata stdout (Some m) path ctx
            = Return {| Metadata.title := _sanitize_title (response_title text);
                        Metadata.description :=
                          response_description (path_stem path) text |}).
  { intros m text Hm. unfold generate_metadata.
    now rewrite (generate_with_parts _ _ _ _ Hm). }
  split; [|split; [|split]].
  - intros Hprints. destruct gm as [m|]; [|eexists; reflexivity].
    destruct (m (prompt_of (path_stem path) ctx)) as [text|e] eqn:Hm.
    + rewrite (Hanswer m text Hm). eauto.
    + rewrite (Hraise m e Hm (Hprints m e eq_refl Hm)). eauto.
  - intros ->. reflexivity.
  - intros m e -> He Hp. now apply (Hraise m e).
  - intros m text -> Hm. now apply Hanswer.
Qed.

End MetadataProofs.

Lemma generate_metadata_total_witness :
  generate_metadata (U := ascii_tables) utf8 (Some unreachable_model)
    (py "clip.mp4") []
  = Return (_create_fallback_metadata (U := ascii_tables) (py "clip.mp4") []).
Proof.
  apply (proj1 (proj2 (proj2 (generate_metadata_total (U := ascii_tables)
                                utf8 (Some unreachable_model)
                                (py "clip.mp4") [])))
           unreachable_model (CollaboratorError (py "503 unreachable")));
    reflexivity.
Defined.

(** C3, as stated, fails: a response whose title section is empty gives
    the placeholder title with the description of the response, not the
    fallback derived from the file name. *)
Lemma empty_title_not_fallback :
  response_title (py "TITLE: DESCRIPTION: hello") = []
  /\ generate_metadata (U := ascii_tables) utf8 (Some silent_model)
       (py "clip.mp4") []
     = Return {| Metadata.title := py "Untitled Video";
                 Metadata.description := py "hello" |}
  /\ _create_fallback_metadata (U := ascii_tables) (py "clip.mp4") []
     = {| Metadata.title := py "clip"; Metadata.description := py "Video: clip" |}
  /\ generate_metadata (U := ascii_tables) utf8 (Some silent_model)
       (py "clip.mp4") []
     <> Return (_create_fallback_metadata (U := ascii_tables) (py "clip.mp4") []).
Proof.
  split; [vm_compute; reflexivity|].
  split; [vm_compute; reflexivity|].
  split; [vm_compute; reflexivity|].
  vm_compute. discriminate.
Qed.

Section FallbackScenario.
Context {U : UnicodeData}.

(** C9: for the file name "Sunset Timelapse [raw].mp4", without a
    collaborator and with an empty context, the metadata is the fallback,
    its title is "Sunset Timelapse" and its description begins with
    "Video: Sunset Timelapse [raw]". *)
Theorem sunset_timelapse_fallback stdout :
  let md := _create_fallback_metadata (py "Sunset Timelapse [raw].mp4") [] in
  generate_metadata stdout None (py "Sunset Timelapse [raw].mp4") [] = Return md
  /\ Metadata.title md = py "Sunset Timelapse"
  /\ startswith (py "Video: Sunset Timelapse [raw]") (Metadata.description md)
     = true.
Proof. vm_compute. repeat split. Qed.
End FallbackScenario.

(** * The calendar *)

#[local] Open Scope Z_scope.

Lemma check_cycle_sound n :
  snd (check_cycle n) = true ->
  forall k, 1 <= k < fst (check_cycle n) -> ord_ok k = true.
Proof.
  unfold check_cycle.
  apply (N.iter_invariant n _ (fun '(k, ok) => (k + 1, ok && ord_ok k))
           (fun st => snd st = true ->
                      forall k, 1 <= k < fst st -> ord_ok k = true)).
  - intros [j ok] IH. cbn [fst snd] in *. intros Hok k Hk.
    apply andb_prop in Hok. destruct Hok as [Hok Hj].
    destruct (Z.eq_dec k j) as [-> | Hne]; [assumption|].
    apply IH; [assumption | lia].
  - cbn [fst snd]. intros _ k Hk. lia.
Qed.

Lemma first_cycle : check_cycle 146097 = (146098, true).
Proof. vm_cast_no_check (eq_refl (146098, true)). Qed.

Lemma ord_ok_cycle k : 1 <= k <= 146097 -> ord_ok k = true.
Proof.
  intros Hk. apply (check_cycle_sound 146097).
  - rewrite first_cycle. reflexivity.
  - rewrite first_cycle. cbn [fst]. lia.
Qed.

Lemma is_leap_period y k : _is_leap (y + 400 * k) = _is_leap y.
Proof.
  unfold _is_leap.
  replace ((y + 400 * k) mod 4) with (y mod 4)
    by (replace (y + 400 * k) with (y + (100 * k) * 4) by lia;
        now rewrite Z_mod_plus_full).
  replace ((y + 400 * k) mod 100) with (y mod 100)
    by (replace (y + 400 * k) with (y + (4 * k) * 100) by lia;
        now rewrite Z_mod_plus_full).
  replace ((y + 400 * k) mod 400) with (y mod 400)
    by (replace (y + 400 * k) with (y + k * 400) by lia;
        now rewrite Z_mod_plus_full).
  reflexivity.
Qed.

Lemma days_before_year_period y k :
  _days_before_year (y + 400 * k) = _days_before_year y + 146097 * k.
Proof. unfold _days_before_year. Z.div_mod_to_equations. lia. Qed.

Lemma ymd2ord_period y m d k :
  _ymd2ord (y + 400 * k) m d = _ymd2ord y m d + 146097 * k.
Proof.
  unfold _ymd2ord, _days_before_month.
  rewrite is_leap_period, days_before_year_period. lia.
Qed.

Lemma days_in_month_period y m k :
  _days_in_month (y + 400 * k) m = _days_in_month y m.
Proof. unfold _days_in_month. now rewrite is_leap_period. Qed.

Lemma ord2ymd_period n k :
  0 <= n - 1 < 146097 ->
  _ord2ymd (n + 146097 * k) =
  let '(y, m, d) := _ord2ymd n in (y + 400 * k, m, d).
Proof.
  intros Hn. unfold _ord2ymd.
  change _DI400Y with 146097.
  replace (n + 146097 * k - 1) with (n - 1 + k * 146097) by lia.
  rewrite Z_div_plus_full, Z_mod_plus_full by lia.
  rewrite (Z.div_small (n - 1)), (Z.mod_small (n - 1)) by lia.
  set (r := n - 1).
  set (n100 := r / _DI100Y). set (r100 := r mod _DI100Y).
  set (n4 := r100 / _DI4Y). set (r4 := r100 mod _DI4Y).
  set (n1 := r4 / 365). set (r1 := r4 mod 365).
  destruct ((n1 =? 4) || (n100 =? 4)).
  - f_equal. f_equal. lia.
  - match goal with |- context [if ?c then _ else _] => destruct c end;
      f_equal; f_equal; lia.
Qed.

Lemma days_before_month_nonneg y m : 1 <= m <= 12 -> 0 <= _days_before_month y m.
Proof.
  intros Hm. unfold _days_before_month, b2z.
  assert (H : m = 1 \/ m = 2 \/ m = 3 \/ m = 4 \/ m = 5 \/ m = 6 \/ m = 7
              \/ m = 8 \/ m = 9 \/ m = 10 \/ m = 11 \/ m = 12) by lia.
  destruct ((2 <? m) && _is_leap y);
    repeat (destruct H as [-> | H]; [vm_compute; discriminate|]);
    subst; vm_compute; discriminate.
Qed.

Lemma ord2ymd_ymd2ord n :
  1 <= n <= _MAXORDINAL ->
  let '(y, m, d) := _ord2ymd n in
  date_fields_ok y m d = true /\ _ymd2ord y m d = n.
Proof.
  unfold _MAXORDINAL. intros Hn.
  set (k := (n - 1) / 146097). set (n0 := (n - 1) mod 146097 + 1).
  assert (Hdm : n - 1 = 146097 * k + (n0 - 1))
    by (unfold k, n0; pose proof (Z.div_mod (n - 1) 146097); lia).
  assert (Hn0 : 0 <= n0 - 1 < 146097)
    by (unfold n0; pose proof (Z.mod_pos_bound (n - 1) 146097); lia).
  assert (Hk : 0 <= k <= 24) by lia.
  replace n with (n0 + 146097 * k) by lia.
  rewrite ord2ymd_period by assumption.
  pose proof (ord_ok_cycle n0) as Hok. unfold ord_ok in Hok.
  destruct (_ord2ymd n0) as [[y m] d].
  specialize (Hok ltac:(lia)).
  repeat (apply andb_prop in Hok; destruct Hok as [Hok ?]).
  unfold date_fields_ok. rewrite days_in_month_period, ymd2ord_period.
  assert (Hy : y + 400 * k <= 9999).
  { pose proof (days_before_month_nonneg y m ltac:(lia)) as Hm.
    unfold _ymd2ord in *. unfold _days_before_year in *.
    Z.div_mod_to_equations. lia. }
  split; [|lia].
  unfold MINYEAR, MAXYEAR.
  repeat (apply andb_true_intro; split); lia.
Qed.

(** * The schedule-time parser *)

Section ParserProofs.
Context {U : UnicodeData}.

Lemma checked_12 padded pm :
  all_from 1 12 (fun h =>
    check_phrase (Clock12 padded h None pm)
    && all_from 0 60 (fun m => check_phrase (Clock12 padded h (Some m) pm)))
  = true.
Proof. destruct padded, pm; vm_compute; reflexivity. Qed.

Lemma checked_24 padded :
  all_from 0 24 (fun h =>
    check_phrase (BareHour padded h)
    && all_from 0 60 (fun m => check_phrase (Clock24 padded h m)))
  = true.
Proof. destruct padded; vm_compute; reflexivity. Qed.

Lemma checked_spaced now padded pm :
  all_from 1 12 (fun h =>
    check_spaced now (Clock12 padded h None pm)
    && all_from 0 60 (fun m => check_spaced now (Clock12 padded h (Some m) pm)))
  = true.
Proof. destruct padded, pm; vm_compute; reflexivity. Qed.

Lemma all_from_spec f n lo :
  all_from lo n f = true ->
  forall z, lo <= z < lo + Z.of_nat n -> f z = true.
Proof.
  revert lo. induction n as [|n IH]; intros lo H z Hz; [lia|].
  cbn [all_from] in H. apply andb_prop in H. destruct H as [H0 H1].
  destruct (Z.eq_dec z lo) as [-> | Hne]; [assumption|].
  apply (IH (lo + 1)); [assumption | lia].
Qed.

Lemma phrase_checked p : phrase_ok p = true -> check_phrase p = true.
Proof.
  destruct p as [padded h m pm | padded h m | padded h]; cbn [phrase_ok];
    unfold minute_ok; intros Hok;
    repeat (apply andb_prop in Hok; destruct Hok as [Hok ?]).
  - pose proof (all_from_spec _ _ _ (checked_12 padded pm) h ltac:(lia)) as Hb.
    cbn beta in Hb. apply andb_prop in Hb. destruct Hb as [Hnone Hsome].
    destruct m as [m|]; [|assumption].
    match goal with E : (_ && _) = true |- _ =>
      apply andb_prop in E; destruct E end.
    apply (all_from_spec _ _ _ Hsome m). lia.
  - pose proof (all_from_spec _ _ _ (checked_24 padded) h ltac:(lia)) as Hb.
    cbn beta in Hb. apply andb_prop in Hb. destruct Hb as [_ Hsome].
    apply (all_from_spec _ _ _ Hsome m). lia.
  - pose proof (all_from_spec _ _ _ (checked_24 padded) h ltac:(lia)) as Hb.
    cbn beta in Hb. apply andb_prop in Hb. destruct Hb as [Hbare _].
    assumption.
Qed.

Lemma startswith_same a b :
  length a = length b -> startswith a b = true -> a = b.
Proof.
  revert b. induction a as [|x a IH]; intros [|y b]; cbn; try discriminate;
    [reflexivity|].
  intros Hl H. apply andb_prop in H. destruct H as [Hxy H].
  apply N.eqb_eq in Hxy. subst. f_equal. apply IH; [lia | assumption].
Qed.

Lemma str_eqb_eq a b : str_eqb a b = true -> a = b.
Proof.
  unfold str_eqb. intros H. apply andb_prop in H. destruct H as [Hl H].
  apply Nat.eqb_eq in Hl. now apply startswith_same.
Qed.

Lemma is_time_spec r h m :
  is_time r h m = true ->
  r = Return (time_of_day h m).
Proof.
  destruct r as [[y mo d hh mi s us]|]; cbn; [|discriminate].
  intros H. repeat (apply andb_prop in H; destruct H as [H ?]).
  repeat match goal with E : (_ =? _) = true |- _ => apply Z.eqb_eq in E end.
  subst. reflexivity.
Qed.

Lemma phrase_hour_range p :
  phrase_ok p = true -> 0 <= phrase_hour p <= 23 /\ 0 <= phrase_minute p <= 59.
Proof.
  destruct p as [padded h m pm | padded h m | padded h];
    cbn [phrase_ok phrase_hour phrase_minute]; unfold minute_ok; intros H;
    repeat (apply andb_prop in H; destruct H as [H ?]).
  - split.
    + destruct pm; destruct (Z.eqb_spec h 12); lia.
    + destruct m; [|lia].
      match goal with E : (_ && _) = true |- _ =>
        apply andb_prop in E; destruct E end. lia.
  - lia.
  - lia.
Qed.

(** The facts of the enumeration, for one phrase. *)
Lemma phrase_facts p :
  phrase_ok p = true ->
  lower (strip (render p)) = render p
  /\ contains (py " ") (render p) = false
  /\ clock_alone (render p)
     = Return (time_of_day (phrase_hour p) (phrase_minute p))
  /\ (stated_grammar p = true ->
      lower (rstrip (SPACE :: render p)) = SPACE :: render p
      /\ clock_dated (render p)
         = Return (time_of_day (phrase_hour p) (phrase_minute p))).
Proof.
  intros Hok. pose proof (phrase_checked p Hok) as H. unfold check_phrase in H.
  apply andb_prop in H. destruct H as [H Hd].
  apply andb_prop in H. destruct H as [H Ht].
  apply andb_prop in H. destruct H as [Hs Hc].
  repeat split.
  - now apply str_eqb_eq.
  - now apply negb_true_iff.
  - now apply is_time_spec.
  - rewrite H in Hd. cbn [negb orb] in Hd. apply andb_prop in Hd.
    destruct Hd as [Hd _]. now apply str_eqb_eq.
  - rewrite H in Hd. cbn [negb orb] in Hd. apply andb_prop in Hd.
    destruct Hd as [_ Hd]. now apply is_time_spec.
Qed.

(** The facts of the enumeration, for one phrase with the space. *)
Lemma spaced_facts now padded h m pm :
  phrase_ok (Clock12 padded h m pm) = true ->
  let p := Clock12 padded h m pm in
  lower (strip (render_as true p)) = render_as true p
  /\ (exists e, parse_body now (render_as true p) = Raise e)
  /\ lower (rstrip (SPACE :: render_as true p)) = SPACE :: render_as true p
  /\ clock_dated (render_as true p)
     = Return (time_of_day (phrase_hour p) (phrase_minute p)).
Proof.
  intros Hok p.
  assert (H : check_spaced now p = true).
  { unfold p. cbn [phrase_ok] in Hok. unfold minute_ok in Hok.
    repeat (apply andb_prop in Hok; destruct Hok as [Hok ?]).
    pose proof (all_from_spec _ _ _ (checked_spaced now padded pm) h
                  ltac:(lia)) as Hb.
    cbn beta in Hb. apply andb_prop in Hb. destruct Hb as [Hnone Hsome].
    destruct m as [m|]; [|assumption].
    match goal with E : (_ && _) = true |- _ =>
      apply andb_prop in E; destruct E end.
    apply (all_from_spec _ _ _ Hsome m). lia. }
  unfold check_spaced in H. cbv zeta in H.
  apply andb_prop in H. destruct H as [H Ht].
  apply andb_prop in H. destruct H as [H Hd].
  apply andb_prop in H. destruct H as [Hs Hr].
  split; [now apply str_eqb_eq|]. split.
  - destruct (parse_body now (render_as true p)) as [r|e];
      [discriminate | eauto].
  - split; [now apply str_eqb_eq | now apply is_time_spec].
Qed.

(** A phrase of the stated grammar behind a date, written either way. *)
Lemma dated_facts spaced p :
  phrase_ok p = true -> stated_grammar p = true ->
  lower (rstrip (SPACE :: render_as spaced p)) = SPACE :: render_as spaced p
  /\ clock_dated (render_as spaced p)
     = Return (time_of_day (phrase_hour p) (phrase_minute p)).
Proof.
  intros Hok Hshape.
  assert (Hglued : render_as false p = render p)
    by (destruct p; reflexivity).
  destruct spaced.
  - destruct p as [padded h m pm | padded h m | padded h];
      [|change (render_as true (Clock24 padded h m))
          with (render (Clock24 padded h m));
        now apply phrase_facts | discriminate].
    destruct (spaced_facts
                {| year := 1; month := 1; day := 1; hour := 0; minute := 0;
                   second := 0; microsecond := 0 |} padded h m pm Hok)
      as (_ & _ & Hlow & Hclock).
    split; assumption.
  - rewrite Hglued. now apply phrase_facts.
Qed.

Lemma new_datetime_valid y m d h mi s us :
  date_fields_ok y m d = true -> time_fields_ok h mi s us = true ->
  new_datetime y m d h mi s us
  = Return {| year := y; month := m; day := d; hour := h; minute := mi;
              second := s; microsecond := us |}.
Proof. intros H1 H2. unfold new_datetime. now rewrite H1, H2. Qed.

Lemma time_fields_hm h m :
  0 <= h <= 23 -> 0 <= m <= 59 -> time_fields_ok h m 0 0 = true.
Proof.
  intros Hh Hm. unfold time_fields_ok.
  repeat (apply andb_true_intro; split); lia.
Qed.

(** What the parser does with a time of day alone. *)
Lemma parse_time_alone now p :
  datetime_ok now = true -> phrase_ok p = true ->
  let same_day := same_day_at now (phrase_hour p) (phrase_minute p) in
  parse_schedule_time now (render p) =
    if datetime_le same_day now
    then match add_days same_day 1 with
         | Return r => Some r
         | Raise _ => None
         end
    else Some same_day.
Proof.
  intros Hnow Hok same_day.
  destruct (phrase_facts p Hok) as (Hlow & Hsp & Hclock & _).
  destruct (phrase_hour_range p Hok) as [Hh Hm].
  unfold parse_schedule_time. rewrite Hlow. unfold parse_body. rewrite Hsp.
  fold (clock_alone (render p)). rewrite Hclock.
  cbn [bind time_of_day hour minute].
  apply andb_prop in Hnow. destruct Hnow as [Hdate _].
  rewrite new_datetime_valid by (auto using time_fields_hm).
  cbn [bind]. fold (same_day_at now (phrase_hour p) (phrase_minute p)).
  fold same_day. destruct (datetime_le same_day now); reflexivity.
Qed.

(** Adding one day to a valid datetime before the last day of year 9999. *)
Lemma add_one_day d :
  datetime_ok d = true -> toordinal d < _MAXORDINAL ->
  exists r,
    add_days d 1 = Return r
    /\ datetime_ok r = true
    /\ timestamp r = timestamp d + 86400
    /\ hour r = hour d /\ minute r = minute d /\ second r = second d
    /\ microsecond r = microsecond d.
Proof.
  intros Hok Hlt. unfold datetime_ok in Hok.
  apply andb_prop in Hok. destruct Hok as [Hdate Htime].
  assert (Hd := Hdate). unfold date_fields_ok in Hd.
  repeat (apply andb_prop in Hd; destruct Hd as [Hd ?]).
  assert (Ht := Htime). unfold time_fields_ok in Ht.
  repeat (apply andb_prop in Ht; destruct Ht as [Ht ?]).
  unfold MINYEAR in *.
  assert (Hord : 1 <= toordinal d).
  { unfold toordinal, _ymd2ord.
    pose proof (days_before_month_nonneg (year d) (month d) ltac:(lia)).
    assert (0 <= _days_before_year (year d))
      by (unfold _days_before_year; Z.div_mod_to_equations; lia).
    lia. }
  unfold add_days.
  destruct (Z.ltb_spec 0 (toordinal d + 1)); [|lia].
  destruct (Z.leb_spec (toordinal d + 1) _MAXORDINAL); [|lia].
  cbn [andb].
  pose proof (ord2ymd_ymd2ord (toordinal d + 1) ltac:(lia)) as Hrt.
  destruct (_ord2ymd (toordinal d + 1)) as [[y m] dd].
  destruct Hrt as [Hvalid Hrt].
  set (secs := hour d * 3600 + minute d * 60 + second d).
  assert (Hh : secs / 3600 = hour d)
    by (unfold secs; Z.div_mod_to_equations; lia).
  assert (Hm : secs mod 3600 / 60 = minute d)
    by (unfold secs; Z.div_mod_to_equations; lia).
  assert (Hs : secs mod 3600 mod 60 = second d)
    by (unfold secs; Z.div_mod_to_equations; lia).
  eexists. split; [reflexivity|].
  unfold datetime_ok, timestamp, toordinal. cbn [year month day hour minute second microsecond].
  rewrite Hh, Hm, Hs, Hvalid, Htime, Hrt. unfold toordinal. repeat split. lia.
Qed.

Lemma date_tails_checked :
  all_from 1 12 (fun m => all_from 1 31 (fun d => check_date_tail m d)) = true.
Proof. vm_compute. reflexivity. Qed.

Lemma is_int_spec r n : is_int r n = true -> r = Return n.
Proof.
  destruct r; cbn; [|discriminate]. intros H. apply Z.eqb_eq in H. now subst.
Qed.

Lemma date_tail m d :
  1 <= m <= 12 -> 1 <= d <= 31 ->
  exists tm td rest,
    fmatch DATE_TAIL (py "-" ++ two_digits m ++ py "-" ++ two_digits d)
    = ([(fm, tm); (fd, td)], []) :: rest
    /\ py_int tm = Return m /\ py_int td = Return d.
Proof.
  intros Hm Hd.
  pose proof (all_from_spec _ _ _ date_tails_checked m ltac:(lia)) as H.
  cbn beta in H.
  pose proof (all_from_spec _ _ _ H d ltac:(lia)) as H'. cbn beta in H'.
  unfold check_date_tail in H'.
  destruct (fmatch DATE_TAIL _) as [|[found tl] rest]; [discriminate|].
  destruct found as [|[[] tm] [|[[] td] [|]]]; try discriminate.
  destruct tl; [|discriminate].
  apply andb_prop in H'. destruct H' as [H1 H2].
  exists tm, td, rest. repeat split; auto using is_int_spec.
Qed.

Lemma digit_cases a :
  0 <= a <= 9 ->
  a = 0 \/ a = 1 \/ a = 2 \/ a = 3 \/ a = 4 \/ a = 5 \/ a = 6 \/ a = 7
  \/ a = 8 \/ a = 9.
Proof. lia. Qed.

Lemma digit_plain a : 0 <= a <= 9 -> plain (digit_char a).
Proof.
  intros H. apply digit_cases in H.
  repeat (destruct H as [-> | H]; [repeat split|]); subst; repeat split.
Qed.

Lemma digit_value_char a : 0 <= a <= 9 -> digit_value (digit_char a) = Some a.
Proof.
  intros H. apply digit_cases in H.
  repeat (destruct H as [-> | H]; [reflexivity|]); subst; reflexivity.
Qed.

Lemma rmatch_Y a b c d rest :
  0 <= a <= 9 -> 0 <= b <= 9 -> 0 <= c <= 9 -> 0 <= d <= 9 ->
  rmatch re_Y (digit_char a :: digit_char b :: digit_char c :: digit_char d
               :: rest)
  = [([digit_char a; digit_char b; digit_char c; digit_char d], rest)].
Proof.
  intros Ha Hb Hc Hd. unfold re_Y. cbn [rmatch match_char]. unfold is_digit.
  rewrite (digit_value_char _ Ha). cbn [flat_map map app rmatch match_char].
  rewrite (digit_value_char _ Hb). cbn [flat_map map app rmatch match_char].
  rewrite (digit_value_char _ Hc). cbn [flat_map map app rmatch match_char].
  rewrite (digit_value_char _ Hd). reflexivity.
Qed.

Lemma four_digits_range y :
  0 <= y <= 9999 ->
  0 <= y / 1000 <= 9 /\ 0 <= y / 100 mod 10 <= 9
  /\ 0 <= y / 10 mod 10 <= 9 /\ 0 <= y mod 10 <= 9.
Proof. intros H. Z.div_mod_to_equations. lia. Qed.

Lemma two_digits_range n :
  0 <= n <= 99 -> 0 <= n / 10 <= 9 /\ 0 <= n mod 10 <= 9.
Proof. intros H. Z.div_mod_to_equations. lia. Qed.

Lemma py_int_four y : 0 <= y <= 9999 -> py_int (four_digits y) = Return y.
Proof.
  intros Hy. destruct (four_digits_range y Hy) as (Ha & Hb & Hc & Hd).
  unfold py_int, four_digits.
  assert (Ht : tight true [digit_char (y / 1000); digit_char (y / 100 mod 10);
                           digit_char (y / 10 mod 10); digit_char (y mod 10)]).
  { cbn [tight].
    rewrite (proj1 (digit_plain _ Ha)), (proj1 (digit_plain _ Hb)),
      (proj1 (digit_plain _ Hc)), (proj1 (digit_plain _ Hd)). reflexivity. }
  unfold strip. rewrite (tight_lstrip _ Ht), (tight_rstrip _ _ Ht).
  cbn [fold_left bind].
  rewrite (digit_value_char _ Ha). cbn [bind].
  rewrite (digit_value_char _ Hb). cbn [bind].
  rewrite (digit_value_char _ Hc). cbn [bind].
  rewrite (digit_value_char _ Hd). f_equal.
  Z.div_mod_to_equations. lia.
Qed.

Lemma strptime_date y m d :
  date_fields_ok y m d = true ->
  strptime (render_date y m d) (py "%Y-%m-%d")
  = Return {| year := y; month := m; day := d; hour := 0; minute := 0;
              second := 0; microsecond := 0 |}.
Proof.
  intros Hok. assert (Hr := Hok). unfold date_fields_ok in Hr.
  repeat (apply andb_prop in Hr; destruct Hr as [Hr ?]).
  unfold MINYEAR, MAXYEAR in *.
  assert (Hd31 : d <= 31).
  { assert (_days_in_month y m <= 31); [|lia].
    unfold _days_in_month.
    assert (Hm : m = 1 \/ m = 2 \/ m = 3 \/ m = 4 \/ m = 5 \/ m = 6 \/ m = 7
                 \/ m = 8 \/ m = 9 \/ m = 10 \/ m = 11 \/ m = 12) by lia.
    destruct ((m =? 2) && _is_leap y); [lia|].
    repeat (destruct Hm as [-> | Hm]; [vm_compute; discriminate|]).
    subst. vm_compute. discriminate. }
  destruct (four_digits_range y ltac:(lia)) as (Ha & Hb & Hc & Hd).
  destruct (date_tail m d ltac:(lia) ltac:(lia))
    as (tm & td & rest & Htail & Htm & Htd).
  unfold strptime.
  change (pattern false (py "%Y-%m-%d"))
    with (Return (Group fY re_Y :: DATE_TAIL)).
  cbn [bind]. unfold render_date, four_digits.
  change (fmatch (Group fY re_Y :: DATE_TAIL) ?s)
    with (flat_map (fun '(m, s1) =>
                      map (fun '(d, s2) => ((fY, m) :: d, s2))
                          (fmatch DATE_TAIL s1))
                   (rmatch re_Y s)).
  cbn [app]. rewrite (rmatch_Y _ _ _ _ _ Ha Hb Hc Hd). cbn [flat_map].
  rewrite Htail. cbn [map app truthy].
  unfold int_field, hour_of, lookup_field.
  cbn [List.find field_eqb].
  pose proof (py_int_four y ltac:(lia)) as Hy. unfold four_digits in Hy.
  rewrite Hy, Htm, Htd. cbn [bind].
  apply new_datetime_valid; [assumption | reflexivity].
Qed.

Lemma rstrip_app a b : rstrip b <> [] -> rstrip (a ++ b) = a ++ rstrip b.
Proof.
  intros Hb. induction a as [|c a IH]; [reflexivity|].
  cbn [app rstrip]. rewrite IH.
  destruct (a ++ rstrip b) eqn:E; [|reflexivity].
  apply app_eq_nil in E. destruct E. contradiction.
Qed.

Lemma contains_app sub a b :
  startswith sub b = true -> contains sub (a ++ b) = true.
Proof.
  intros H. induction a as [|c a IH]; cbn [app].
  - destruct b; cbn [contains]; rewrite H; reflexivity.
  - cbn [contains]. rewrite IH. apply orb_true_r.
Qed.

Lemma split_space_once_app a b :
  Forall plain a -> split_space_once (a ++ SPACE :: b) = Some (a, b).
Proof.
  induction 1 as [|c a (_ & _ & Hc) _ IH]; cbn [app split_space_once].
  - now rewrite N.eqb_refl.
  - now rewrite Hc, IH.
Qed.

Lemma lower_plain a : Forall plain a -> lower a = a.
Proof.
  unfold lower. induction 1 as [|c a (_ & Hc & _) _ IH]; [reflexivity|].
  cbn [flat_map]. now rewrite Hc, IH.
Qed.

Lemma lstrip_plain a b : Forall plain a -> a <> [] -> lstrip (a ++ b) = a ++ b.
Proof.
  intros [|c a' (Hc & _) _] Hne; [congruence|]. cbn [app lstrip].
  now rewrite Hc.
Qed.

Lemma render_date_plain y m d :
  0 <= y <= 9999 -> 0 <= m <= 99 -> 0 <= d <= 99 ->
  Forall plain (render_date y m d).
Proof.
  intros Hy Hm Hd.
  destruct (four_digits_range y Hy) as (? & ? & ? & ?).
  destruct (two_digits_range m Hm). destruct (two_digits_range d Hd).
  unfold render_date, four_digits, two_digits. cbn [app py].
  repeat (constructor; [first [now apply digit_plain | repeat split]|]).
  constructor.
Qed.

(** C6: for every phrase made of a date [YYYY-MM-DD] of the calendar, a
    space, and a time of day of the stated grammar ([H[:MM]] followed by
    [am] or [pm], with or without a space between them, or [H:MM] on the
    24-hour clock), the parser returns that date at that hour and minute,
    second 0, whatever the current moment: no day is added, also when the
    result lies in the past. *)
Theorem dated_phrase_exact now y m d p spaced :
  date_fields_ok y m d = true ->
  phrase_ok p = true -> stated_grammar p = true ->
  parse_schedule_time now (render_date y m d ++ SPACE :: render_as spaced p)
  = Some {| year := y; month := m; day := d;
            hour := phrase_hour p; minute := phrase_minute p;
            second := 0; microsecond := 0 |}.
Proof.
  intros Hdate Hok Hshape.
  destruct (dated_facts spaced p Hok Hshape) as [Hlow Hclock].
  set (time_part := render_as spaced p) in *.
  destruct (phrase_hour_range p Hok) as [Hh Hm].
  assert (Hr := Hdate). unfold date_fields_ok in Hr.
  repeat (apply andb_prop in Hr; destruct Hr as [Hr ?]).
  unfold MINYEAR, MAXYEAR in *.
  assert (Hd31 : _days_in_month y m <= 31).
  { unfold _days_in_month.
    assert (Hmc : m = 1 \/ m = 2 \/ m = 3 \/ m = 4 \/ m = 5 \/ m = 6 \/ m = 7
                 \/ m = 8 \/ m = 9 \/ m = 10 \/ m = 11 \/ m = 12) by lia.
    destruct ((m =? 2) && _is_leap y); [lia|].
    repeat (destruct Hmc as [-> | Hmc]; [vm_compute; discriminate|]).
    subst. vm_compute. discriminate. }
  pose proof (render_date_plain y m d ltac:(lia) ltac:(lia) ltac:(lia))
    as Hplain.
  assert (Hne : render_date y m d <> []) by (unfold render_date, four_digits; discriminate).
  assert (Hrs : rstrip (SPACE :: time_part) <> []).
  { intros E. rewrite E in Hlow. discriminate Hlow. }
  assert (Hin : lower (strip (render_date y m d ++ SPACE :: time_part))
                = render_date y m d ++ SPACE :: time_part).
  { unfold strip. rewrite lstrip_plain, rstrip_app by assumption.
    unfold lower. rewrite flat_map_app. fold (lower (render_date y m d)).
    fold (lower (rstrip (SPACE :: time_part))).
    now rewrite lower_plain, Hlow. }
  unfold parse_schedule_time. rewrite Hin. unfold parse_body.
  rewrite contains_app by reflexivity.
  rewrite split_space_once_app by assumption. cbn [bind].
  rewrite strptime_date by assumption. cbn [bind].
  fold (clock_dated time_part). rewrite Hclock.
  cbn [bind time_of_day year month day hour minute microsecond].
  now rewrite new_datetime_valid by (auto using time_fields_hm).
Qed.

End ParserProofs.

Section ParserClaims.
Context {U : UnicodeData}.

(** Today's date at the time a phrase means is a valid datetime. *)
Lemma same_day_valid now p :
  datetime_ok now = true -> phrase_ok p = true ->
  datetime_ok (same_day_at now (phrase_hour p) (phrase_minute p)) = true.
Proof.
  intros Hnow Hok. destruct (phrase_hour_range p Hok) as [Hh Hm].
  unfold datetime_ok in *. apply andb_prop in Hnow.
  destruct Hnow as [Hdate _]. apply andb_true_intro. split.
  - exact Hdate.
  - now apply time_fields_hm.
Qed.

(** From what the parser does with a time of day alone ([Hp]) to the two
    cases of the comparison with the current moment. *)
Ltac settle_rollover Hp Hsd Hlt :=
  split; intros Hle; rewrite Hle in Hp; [|exact Hp];
  let r := fresh "r" in
  let Hadd := fresh "Hadd" in
  destruct (add_one_day _ Hsd Hlt) as (r & Hadd & ? & ? & ? & ? & ? & ?);
  rewrite Hadd in Hp; exists r; repeat split; assumption.

(** C5, as amended: for every time phrase of the time-only grammar
    written without a space ([H[:MM]am], [H[:MM]pm], or [H:MM] on the
    24-hour clock), read at a moment [now] before the last day of year
    9999: when today's date at the given hour and minute, second 0, is not
    after [now], the parser returns the timestamp exactly 24 hours (86400
    seconds) later, with the same hour and minute; when it is after
    [now], the parser returns it as it is. Written with a space before
    [am] or [pm], a time of day alone is refused: a space makes the
    parser read a date before it. *)
Theorem time_only_rollover now p :
  datetime_ok now = true -> toordinal now < _MAXORDINAL ->
  phrase_ok p = true -> stated_grammar p = true ->
  let same_day := same_day_at now (phrase_hour p) (phrase_minute p) in
  (datetime_le same_day now = true ->
   exists r,
     parse_schedule_time now (render p) = Some r
     /\ timestamp r = timestamp same_day + 86400
     /\ hour r = phrase_hour p /\ minute r = phrase_minute p
     /\ second r = 0 /\ microsecond r = 0 /\ datetime_ok r = true)
  /\ (datetime_le same_day now = false ->
      parse_schedule_time now (render p) = Some same_day)
  /\ (forall padded h m pm,
        p = Clock12 padded h m pm ->
        parse_schedule_time now (render_as true p) = None).
Proof.
  intros Hnow Hlt Hok _ same_day.
  pose proof (parse_time_alone now p Hnow Hok) as Hp.
  cbv zeta in Hp. fold same_day in Hp.
  pose proof (same_day_valid now p Hnow Hok) as Hsd. fold same_day in Hsd.
  assert (Hlt' : toordinal same_day < _MAXORDINAL) by exact Hlt.
  assert (Hglued :
    (datetime_le same_day now = true ->
     exists r,
       parse_schedule_time now (render p) = Some r
       /\ timestamp r = timestamp same_day + 86400
       /\ hour r = phrase_hour p /\ minute r = phrase_minute p
       /\ second r = 0 /\ microsecond r = 0 /\ datetime_ok r = true)
    /\ (datetime_le same_day now = false ->
        parse_schedule_time now (render p) = Some same_day))
    by settle_rollover Hp Hsd Hlt'.
  destruct Hglued as [Hle Hgt]. split; [exact Hle|]. split; [exact Hgt|].
  intros padded h m pm ->.
  destruct (spaced_facts now padded h m pm Hok) as (Hin & [e He] & _).
  unfold parse_schedule_time. now rewrite Hin, He.
Qed.

(** C10: the time-only path also reads a bare hour of the 24-hour clock,
    which neither stated grammar has: the result is today's date at that
    hour, minute 0 and second 0, or the same one day later when that is
    not after the current moment. *)
Theorem bare_hour_accepted now padded h :
  datetime_ok now = true -> toordinal now < _MAXORDINAL ->
  0 <= h <= 23 ->
  stated_grammar (BareHour padded h) = false
  /\ (datetime_le (same_day_at now h 0) now = true ->
      exists r,
        parse_schedule_time now (hour_text padded h) = Some r
        /\ timestamp r = timestamp (same_day_at now h 0) + 86400
        /\ hour r = h /\ minute r = 0 /\ second r = 0 /\ microsecond r = 0
        /\ datetime_ok r = true)
  /\ (datetime_le (same_day_at now h 0) now = false ->
      parse_schedule_time now (hour_text padded h)
      = Some (same_day_at now h 0)).
Proof.
  intros Hnow Hlt Hh. split; [reflexivity|].
  assert (Hok : phrase_ok (BareHour padded h) = true)
    by (cbn [phrase_ok]; apply andb_true_intro; split; lia).
  pose proof (parse_time_alone now (BareHour padded h) Hnow Hok) as Hp.
  cbv zeta in Hp. cbn [render phrase_hour phrase_minute] in Hp.
  pose proof (same_day_valid now (BareHour padded h) Hnow Hok) as Hsd.
  cbn [phrase_hour phrase_minute] in Hsd.
  assert (Hlt' : toordinal (same_day_at now h 0) < _MAXORDINAL) by exact Hlt.
  settle_rollover Hp Hsd Hlt'.
Qed.

End ParserClaims.

Lemma time_only_rollover_witness :
  render (Clock12 false 9 None false) = py "9am"
  /\ exists r,
       parse_schedule_time (U := ascii_tables) an_afternoon (py "9am") = Some r
       /\ timestamp r = timestamp (same_day_at an_afternoon 9 0) + 86400
       /\ hour r = 9 /\ minute r = 0 /\ second r = 0 /\ microsecond r = 0
       /\ datetime_ok r = true.
Proof.
  split; [reflexivity|].
  apply (proj1 (time_only_rollover (U := ascii_tables) an_afternoon
                  (Clock12 false 9 None false)
                  eq_refl eq_refl eq_refl eq_refl)).
  reflexivity.
Defined.

(** C5, as stated, fails: [9 am] is a phrase of the time-only grammar
    as the specification writes it, and at 14:00:30 today's 09:00 is not
    after the current moment; the parser returns nothing for it, not the
    timestamp 24 hours later. *)
Lemma spaced_time_alone_refused :
  render_as true (Clock12 false 9 None false) = py "9 am"
  /\ phrase_ok (Clock12 false 9 None false) = true
  /\ datetime_le (same_day_at an_afternoon 9 0) an_afternoon = true
  /\ parse_schedule_time (U := ascii_tables) an_afternoon (py "9 am") = None.
Proof. repeat split; vm_compute; reflexivity. Qed.

Lemma bare_hour_accepted_witness :
  hour_text false 14 = py "14"
  /\ exists r,
       parse_schedule_time (U := ascii_tables) an_afternoon (py "14") = Some r
       /\ timestamp r = timestamp (same_day_at an_afternoon 14 0) + 86400
       /\ hour r = 14 /\ minute r = 0 /\ second r = 0 /\ microsecond r = 0
       /\ datetime_ok r = true.
Proof.
  split; [reflexivity|].
  apply (proj1 (proj2 (bare_hour_accepted (U := ascii_tables) an_afternoon
                         false 14 eq_refl eq_refl ltac:(lia)))).
  reflexivity.
Defined.

(** On the last day the type can hold there is no day to add: the
    addition overflows and the parser gives the phrase up. *)
Example last_day_has_no_tomorrow :
  parse_schedule_time (U := ascii_tables)
    {| year := 9999; month := 12; day := 31;
       hour := 14; minute := 0; second := 30; microsecond := 5 |}
    (py "9am")
  = None.
Proof. vm_compute. reflexivity. Qed.

Lemma dated_phrase_exact_witness :
  render_date 2020 2 29
  ++ SPACE :: render_as true (Clock12 false 9 (Some 5) true)
  = py "2020-02-29 9:05 pm"
  /\ parse_schedule_time (U := ascii_tables) an_afternoon
       (py "2020-02-29 9:05 pm")
     = Some {| year := 2020; month := 2; day := 29; hour := 21; minute := 5;
               second := 0; microsecond := 0 |}.
Proof.
  split; [reflexivity|].
  apply (dated_phrase_exact (U := ascii_tables) an_afternoon 2020 2 29
           (Clock12 false 9 (Some 5) true) true); reflexivity.
Defined.

(** * The progress tracker *)

Lemma percent_10 : percent 0.1 = Return 10.
Proof. vm_compute. reflexivity. Qed.
Lemma percent_26 : percent 0.26 = Return 26.
Proof. vm_compute. reflexivity. Qed.
Lemma percent_50 : percent 0.5 = Return 50.
Proof. vm_compute. reflexivity. Qed.
Lemma percent_90 : percent 0.9 = Return 90.
Proof. vm_compute. reflexivity. Qed.
Lemma percent_100 : percent 1 = Return 100.
Proof. vm_compute. reflexivity. Qed.

Lemma show_progress_cases W k x pct last shown :
  percent x = Return pct ->
  show_progress W k (Some x) last shown
  = if ((2 <=? time_at W k - last)%float || in_list pct MILESTONES)%bool
    then Return (shown ++ [pct], time_at W k)
    else Return (shown, last).
Proof.
  unfold percent. intros H. unfold show_progress. rewrite H. reflexivity.
Qed.

(** C4, as amended: for a transfer that reports 0.1, 0.26, 0.5, 0.9 and
    1.0, the percentages are 10, 26, 50, 90 and 100; whatever the clock
    reads, the events at 50 and 100 are shown and there is none at 25; and
    when all readings are within two seconds of each other, those two are
    the only events shown. *)
Theorem milestones_shown W req r fuel :
  reports req r -> (5 <= fuel)%nat ->
  exists shown,
    upload_chunks fuel W req 0 (time_start W) [] = Some (shown, Return r)
    /\ In 50 shown /\ In 100 shown /\ ~ In 25 shown
    /\ (rapid W -> shown = [50; 100]).
Proof.
  intros (H0 & H1 & H2 & H3 & H4) Hfuel.
  do 5 (destruct fuel as [|fuel]; [lia|]).
  cbn [upload_chunks].
  rewrite H0, (show_progress_cases _ _ _ _ _ _ percent_10).
  change (in_list 10 MILESTONES) with false. rewrite orb_false_r.
  destruct (2 <=? time_at W 0 - time_start W)%float eqn:E0;
    rewrite H1, (show_progress_cases _ _ _ _ _ _ percent_26);
    change (in_list 26 MILESTONES) with false; rewrite orb_false_r;
    match goal with |- context [(2 <=? time_at W 1 - ?l)%float] =>
      destruct (2 <=? time_at W 1 - l)%float eqn:E1 end;
    rewrite H2, (show_progress_cases _ _ _ _ _ _ percent_50);
    change (in_list 50 MILESTONES) with true; rewrite orb_true_r;
    rewrite H3, (show_progress_cases _ _ _ _ _ _ percent_90);
    change (in_list 90 MILESTONES) with false; rewrite orb_false_r;
    destruct (2 <=? time_at W 3 - time_at W 2)%float eqn:E3;
    rewrite H4, (show_progress_cases _ _ _ _ _ _ percent_100);
    change (in_list 100 MILESTONES) with true; rewrite orb_true_r;
    cbn [app]; eexists; (split; [reflexivity|]);
    (split; [cbn; tauto|]); (split; [cbn; tauto|]);
    (split; [cbn; intros H; repeat (destruct H as [H | H]; [discriminate H|]);
             exact H|]);
    intros [Hs Ha]; unfold within_two_seconds in *;
    try (rewrite Hs in E0; discriminate E0);
    try (rewrite Hs in E1; discriminate E1);
    try (rewrite Ha in E1; discriminate E1);
    try (rewrite Ha in E3; discriminate E3);
    reflexivity.
Qed.

Lemma fast_world_rapid : rapid fast_world.
Proof.
  split.
  - intros k. do 5 (destruct k as [|k]; [reflexivity|]). reflexivity.
  - intros j k.
    do 5 (destruct j as [|j];
          [do 5 (destruct k as [|k]; [reflexivity|]); reflexivity|]).
    do 5 (destruct k as [|k]; [reflexivity|]). reflexivity.
Qed.

Lemma milestones_shown_witness :
  exists shown,
    upload_chunks 5 fast_world stub_request 0 (time_start fast_world) []
    = Some (shown, Return stub_response)
    /\ In 50 shown /\ In 100 shown /\ ~ In 25 shown
    /\ (rapid fast_world -> shown = [50; 100]).
Proof.
  apply (milestones_shown fast_world stub_request stub_response 5).
  - repeat split.
  - lia.
Defined.

(** C4, as stated, fails: with the five reports a quarter of a second
    apart, the events shown are those at 50 and 100; none is at 25, and
    the report 0.26, which is 26 percent, is not shown. *)
Lemma rapid_stub_shows_no_25 :
  reports stub_request stub_response
  /\ rapid fast_world
  /\ upload_chunks 5 fast_world stub_request 0 (time_start fast_world) []
     = Some ([50; 100], Return stub_response)
  /\ ~ In 25 [50; 100].
Proof.
  split; [repeat split|]. split; [exact fast_world_rapid|].
  split; [vm_compute; reflexivity|].
  cbn. intros [H | [H | H]]; [discriminate H | discriminate H | exact H].
Qed.

(** * The dispatcher *)

#[local] Close Scope Z_scope.

Section DispatcherProofs.
Context {U : UnicodeData}.

Lemma generate_metadata_returns stdout gm path ctx :
  (forall m e,
      gm = Some m -> m (prompt_of (path_stem path) ctx) = Raise e ->
      forallb stdout (exn_text e) = true) ->
  exists md, generate_metadata stdout gm path ctx = Return md.
Proof.
  intros Hprints. unfold generate_metadata. destruct gm as [m|]; [|eauto].
  unfold generate_with at 1.
  destruct (m (prompt_of (path_stem path) ctx)) as [text|e] eqn:Hm.
  - fold (generate_with m (path_stem path) ctx).
    assert (H := generate_with_parts m (path_stem path) ctx text Hm).
    unfold generate_with in H. rewrite Hm in H. rewrite H.
    cbn [try_except]. eauto.
  - cbn [bind try_except]. unfold print_exception.
    rewrite (Hprints m e eq_refl Hm). cbn [bind]. eauto.
Qed.


Lemma on_upload_error_fails W e :
  report_fails W e -> on_upload_error W e = Raise UnicodeEncodeError.
Proof.
  unfold report_fails, on_upload_error, print_exception.
  destruct e; try contradiction; now intros ->.
Qed.

Lemma list_remove_in x l :
  x ∈ l ->
  exists l', (list_remove x l = Return l')
             /\ (forall y, y ∈ l' -> y ∈ l)
             /\ (NoDup l -> (x ∉ l') /\ NoDup l')
             /\ (forall y, y ∈ l -> y <> x -> y ∈ l').
Proof.
  induction l as [|y l IH]; intros Hin; [inversion Hin|].
  cbn [list_remove]. destruct (Nat.eqb_spec x y) as [-> | Hne].
  - exists l. split; [reflexivity|]. split; [|split].
    + intros z Hz. now apply elem_of_cons; right.
    + intros Hnd. apply NoDup_cons in Hnd. exact Hnd.
    + intros z Hz Hzy. apply elem_of_cons in Hz. now destruct Hz.
  - apply elem_of_cons in Hin. destruct Hin as [Heq | Hl]; [contradiction|].
    destruct (IH Hl) as (l' & -> & Hsub & Hnd & Hkeep). cbn [bind].
    exists (y :: l'). split; [reflexivity|]. split; [|split].
    + intros z Hz. apply elem_of_cons in Hz. apply elem_of_cons.
      destruct Hz; [now left | right; now apply Hsub].
    + intros Hd. apply NoDup_cons in Hd. destruct Hd as [Hy Hd].
      destruct (Hnd Hd) as [Hx Hd']. split.
      * intros Hx'. apply elem_of_cons in Hx'. destruct Hx'; [contradiction|].
        contradiction.
      * apply NoDup_cons. split; [|assumption].
        intros Hy'. apply Hy, Hsub, Hy'.
    + intros z Hz Hzx. apply elem_of_cons in Hz. apply elem_of_cons.
      destruct Hz; [now left | right; now apply Hkeep].
Qed.

Lemma status_of_with_thread t b r : status_of (with_thread t b) r = status_of b r.
Proof. reflexivity. Qed.

Lemma status_of_with_status r st t b r' :
  status_of (with_status r st t b) r'
  = if decide (r = r') then (fun _ => st) <$> status_of b r' else status_of b r'.
Proof.
  unfold status_of, with_status. cbn [heap].
  rewrite lookup_alter. destruct (decide (r = r')) as [-> | Hne]; [|reflexivity].
  destruct (heap b !! r'); reflexivity.
Qed.


Lemma invariant_new : invariant new_bot.
Proof.
  split.
  - apply NoDup_nil_2.
  - intros r H. inversion H.
  - intros r st H. unfold status_of in H. cbn in H.
    rewrite lookup_empty in H. discriminate.
  - intros r st H. inversion H.
  - exact Logic.I.
  - intros r H. inversion H.
  - reflexivity.
Qed.

Lemma started b :
  invariant b -> scheduler_thread b <> NotStarted ->
  menu_open b = true -> scheduler_running b = false -> False.
Proof. intros I Hne Hm Hr. apply Hne. now apply (inv_start b I). Qed.

Lemma invariant_submit b path time priv tgs ctx b' :
  invariant b -> step (Submit path time priv tgs ctx) b = Some b' ->
  invariant b'.
Proof.
  intros I. cbn [step]. destruct (menu_open b) eqn:Hmenu; [|discriminate].
  intros [= <-].
  set (r := fresh (dom (heap b))).
  assert (Hr : heap b !! r = None)
    by (apply not_elem_of_dom; unfold r; apply is_fresh).
  assert (Hnew : r ∉ scheduled_uploads b).
  { intros Hin. apply (inv_alloc b I) in Hin. rewrite Hr in Hin.
    now destruct Hin. }
  assert (Hst : forall r0, r0 <> r ->
            status_of {| heap := <[r:={| video_path := path;
                                         scheduled_time := time;
                                         privacy := priv; tags := tgs;
                                         user_context := ctx;
                                         upload_status := pending |}]> (heap b);
                         scheduled_uploads := scheduled_uploads b ++ [r];
                         scheduler_running := true;
                         scheduler_thread :=
                           if scheduler_running b then scheduler_thread b
                           else LoopHead;
                         menu_open := true |} r0 = status_of b r0).
  { intros r0 Hne. unfold status_of. cbn [heap].
    now rewrite lookup_insert_ne by congruence. }
  assert (Hth : scheduler_running b = false -> scheduler_thread b = NotStarted)
    by (now apply (inv_start b I)).
  split; cbn [heap scheduled_uploads scheduler_thread scheduler_running menu_open].
  - apply NoDup_app. split; [apply (inv_nodup b I)|]. split.
    + intros x Hx Hx'. apply list_elem_of_singleton in Hx'. now subst.
    + apply NoDup_singleton.
  - intros r0 Hin. apply elem_of_app in Hin. destruct Hin as [Hin | Hin].
    + rewrite lookup_insert_ne by (intros ->; contradiction).
      now apply (inv_alloc b I).
    + apply list_elem_of_singleton in Hin. subst.
      rewrite lookup_insert_eq. eauto.
  - intros r0 st Hs Hnot.
    assert (Hne : r0 <> r).
    { intros ->. apply Hnot, elem_of_app. right. now apply list_elem_of_singleton. }
    rewrite Hst in Hs by assumption. apply (inv_left b I r0 st Hs).
    intros Hin. apply Hnot, elem_of_app. now left.
  - intros r0 st Hin Hs Hp.
    destruct (decide (r0 = r)) as [-> | Hne].
    + unfold status_of in Hs. cbn [heap] in Hs.
      rewrite lookup_insert_eq in Hs. cbn in Hs. congruence.
    + rewrite Hst in Hs by assumption.
      apply elem_of_app in Hin. destruct Hin as [Hin | Hin];
        [|apply list_elem_of_singleton in Hin; contradiction].
      pose proof (inv_pending b I r0 st Hin Hs Hp) as Hc.
      destruct (scheduler_running b); [assumption|].
      rewrite Hth in Hc by reflexivity. discriminate.
  - pose proof (inv_thread b I) as Ht. unfold thread_ok in *.
    cbn [scheduled_uploads scheduler_thread].
    destruct (scheduler_running b); [|exact Logic.I].
    destruct (scheduler_thread b) as [| |?|? u ?|? u ?| |? u]; try assumption.
    + destruct Ht as [Hin Hs]. split; [apply elem_of_app; now left|].
      rewrite Hst; [assumption | intros ->; contradiction].
    + destruct Ht as [Hin Hs]. split; [apply elem_of_app; now left|].
      rewrite Hst; [assumption | intros ->; contradiction].
    + destruct Ht as [Hin Hs]. split; [apply elem_of_app; now left|].
      rewrite Hst; [assumption | intros ->; contradiction].
  - intros r0 Hin.
    assert (Hold : is_Some (heap b !! r0)).
    { apply (inv_snapshot b I).
      destruct (scheduler_running b); [assumption | inversion Hin]. }
    destruct (decide (r0 = r)) as [-> | Hne];
      [rewrite Hr in Hold; now destruct Hold|].
    now rewrite lookup_insert_ne by congruence.
  - discriminate.
Qed.

Lemma invariant_stop b b' : invariant b -> step Stop b = Some b' -> invariant b'.
Proof.
  intros I. cbn [step]. destruct (menu_open b); [|discriminate].
  intros [= <-]. destruct I. split; try assumption. discriminate.
Qed.

Lemma invariant_with_thread b t :
  invariant b ->
  current (scheduler_thread b) = None -> current t = None ->
  (forall r, r ∈ snapshot_of t -> is_Some (heap b !! r)) ->
  t <> NotStarted -> (forall e u, t <> Died e u) ->
  scheduler_thread b <> NotStarted ->
  invariant (with_thread t b).
Proof.
  intros I Hc Ht Hs Hn Hd Hstart. split; cbn; try apply I.
  - intros r st Hin Hst Hp.
    pose proof (inv_pending b I r st Hin Hst Hp) as H. congruence.
  - unfold thread_ok. cbn.
    destruct t; try exact Logic.I; discriminate.
  - assumption.
  - intros Hm Hr. exfalso. eauto using started.
Qed.

Lemma invariant_wake b now b' :
  invariant b -> step (Wake now) b = Some b' -> invariant b'.
Proof.
  intros I. cbn [step]. destruct (scheduler_thread b) eqn:Hth; try discriminate.
  destruct (scheduler_running b); intros [= <-];
    apply invariant_with_thread; try assumption; try congruence;
    try (rewrite Hth; reflexivity); try reflexivity; cbn [snapshot_of].
  - apply (inv_alloc b I).
  - intros r H. inversion H.
Qed.

Lemma invariant_with_status b t r st rest th :
  invariant b ->
  r ∈ scheduled_uploads b -> is_Some (heap b !! r) ->
  st <> pending ->
  current (scheduler_thread b) = None \/ current (scheduler_thread b) = Some r ->
  (th = InUpload t r rest /\ st = uploading
   \/ th = BeforeRemove t r rest /\ terminal st) ->
  (forall r0, r0 ∈ rest -> is_Some (heap b !! r0)) ->
  scheduler_thread b <> NotStarted ->
  invariant (with_status r st th b).
Proof.
  intros I Hin [up Hup] Hst Hcur Hth Hrest Hstart.
  assert (Hself : status_of (with_status r st th b) r = Some st).
  { rewrite status_of_with_status. rewrite decide_True by reflexivity.
    unfold status_of. now rewrite Hup. }
  assert (Hother : forall r0, r0 <> r ->
            status_of (with_status r st th b) r0 = status_of b r0).
  { intros r0 Hne. rewrite status_of_with_status.
    now rewrite decide_False by congruence. }
  assert (Hc : current th = Some r) by (destruct Hth as [[-> _] | [-> _]]; reflexivity).
  split; cbn [with_status heap scheduled_uploads scheduler_thread
              scheduler_running menu_open].
  - apply (inv_nodup b I).
  - intros r0 H0. apply lookup_alter_is_Some. now apply (inv_alloc b I).
  - intros r0 st0 Hs Hnot.
    assert (Hne : r0 <> r) by (intros ->; contradiction).
    rewrite Hother in Hs by assumption. now apply (inv_left b I r0).
  - intros r0 st0 H0 Hs Hp. destruct (decide (r0 = r)) as [-> | Hne];
      [assumption|].
    rewrite Hother in Hs by assumption.
    pose proof (inv_pending b I r0 st0 H0 Hs Hp) as H.
    destruct Hcur as [Hcur | Hcur]; congruence.
  - unfold thread_ok.
    cbn [with_status heap scheduled_uploads scheduler_thread].
    destruct Hth as [[-> ->] | [-> Hterm]].
    + split; assumption.
    + split; [assumption | eauto].
  - intros r0 H0. apply lookup_alter_is_Some.
    destruct Hth as [[-> _] | [-> _]]; cbn [snapshot_of] in H0; auto.
  - intros Hm Hr. exfalso. eauto using started.
Qed.

Lemma invariant_visit b b' :
  invariant b -> step Visit b = Some b' -> invariant b'.
Proof.
  intros I. cbn [step].
  destruct (scheduler_thread b) as [| |t snap| | | |] eqn:Hth; try discriminate.
  assert (Hsnap : forall r, r ∈ snap -> is_Some (heap b !! r)).
  { intros r Hr. apply (inv_snapshot b I). rewrite Hth. exact Hr. }
  assert (Hskip : forall rest, (forall r, r ∈ rest -> r ∈ snap) ->
            invariant (with_thread (ForLoop t rest) b)).
  { intros rest Hsub. apply invariant_with_thread; try assumption;
      try congruence; try (rewrite Hth; reflexivity); try reflexivity.
    cbn [snapshot_of]. auto. }
  destruct snap as [|r rest].
  - intros [= <-]. apply invariant_with_thread; try assumption;
      try congruence; try (rewrite Hth; reflexivity); try reflexivity.
  - destruct (heap b !! r) as [up|] eqn:Hup; [|discriminate].
    assert (Hrest : forall r0, r0 ∈ rest -> r0 ∈ r :: rest)
      by (intros; apply elem_of_cons; now right).
    destruct (upload_status up) eqn:Hs; try (intros [= <-]; now apply Hskip).
    destruct (datetime_ge t (scheduled_time up));
      intros [= <-]; [|now apply Hskip].
    assert (Hin : r ∈ scheduled_uploads b).
    { destruct (decide (r ∈ scheduled_uploads b)) as [|Hnot]; [assumption|].
      assert (Hst : status_of b r = Some pending)
        by (unfold status_of; now rewrite Hup, <- Hs).
      destruct (inv_left b I r pending Hst Hnot); discriminate. }
    apply (invariant_with_status b t r uploading rest).
    + assumption.
    + assumption.
    + eauto.
    + discriminate.
    + left. now rewrite Hth.
    + left. now split.
    + auto.
    + congruence.
Qed.

Lemma invariant_upload b W fuel b' :
  invariant b -> step (Upload W fuel) b = Some b' -> invariant b'.
Proof.
  intros I. cbn [step].
  destruct (scheduler_thread b) as [| | |t r rest| | |] eqn:Hth;
    try discriminate.
  destruct (heap b !! r) as [up|] eqn:Hup; [|discriminate].
  destruct (upload_video _ _ _ _ _ _ _ _ _) as [[shown [video_id|e]]|] eqn:Hv;
    [| |discriminate]; intros [= <-].
  2: { split; cbn [with_thread heap scheduled_uploads scheduler_thread
                   scheduler_running menu_open]; try apply I.
       - intros r0 st Hin Hst Hp.
         pose proof (inv_pending b I r0 st Hin Hst Hp) as Hc.
         now rewrite Hth in Hc.
       - pose proof (inv_thread b I) as Ht. unfold thread_ok in *.
         rewrite Hth in Ht. exact Ht.
       - intros r0 H0. inversion H0.
       - intros Hm Hr. exfalso. apply (started b I); congruence. }
  pose proof (inv_thread b I) as Ht. unfold thread_ok in Ht.
  rewrite Hth in Ht. destruct Ht as [Hin Hst].
  apply (invariant_with_status b t r _ rest).
  - assumption.
  - assumption.
  - eauto.
  - destruct (truthy_id video_id); discriminate.
  - right. now rewrite Hth.
  - right. split; [reflexivity|].
    destruct (truthy_id video_id); [now left | now right].
  - intros r0 H0. apply (inv_snapshot b I). now rewrite Hth.
  - congruence.
Qed.

Lemma invariant_remove b b' :
  invariant b -> step Remove b = Some b' -> invariant b'.
Proof.
  intros I. cbn [step].
  destruct (scheduler_thread b) as [| | | |t r rest| |] eqn:Hth;
    try discriminate.
  pose proof (inv_thread b I) as Ht. unfold thread_ok in Ht.
  rewrite Hth in Ht. destruct Ht as [Hin (st & Hst & Hterm)].
  destruct (list_remove_in r _ Hin) as (l' & -> & Hsub & Hnd & Hkeep).
  destruct (Hnd (inv_nodup b I)) as [Hgone Hnd'].
  intros [= <-]. split; cbn [heap scheduled_uploads scheduler_thread
                             scheduler_running menu_open].
  - assumption.
  - intros r0 H0. apply (inv_alloc b I). auto.
  - intros r0 st0 Hs Hnot. change (status_of b r0 = Some st0) in Hs.
    destruct (decide (r0 = r)) as [-> | Hne]; [congruence|].
    apply (inv_left b I r0 st0 Hs). intros H0. apply Hnot. auto.
  - intros r0 st0 H0 Hs Hp. change (status_of b r0 = Some st0) in Hs.
    pose proof (inv_pending b I r0 st0 (Hsub _ H0) Hs Hp) as Hc.
    rewrite Hth in Hc. cbn in Hc. injection Hc as ->. contradiction.
  - exact Logic.I.
  - intros r0 H0. apply (inv_snapshot b I). now rewrite Hth.
  - intros Hm Hr. exfalso. apply (started b I); congruence.
Qed.

Lemma invariant_step ev b b' :
  invariant b -> step ev b = Some b' -> invariant b'.
Proof.
  destruct ev; eauto using invariant_submit, invariant_stop, invariant_wake,
    invariant_visit, invariant_upload, invariant_remove.
Qed.

Lemma invariant_run evs b b' :
  invariant b -> run evs b = Some b' -> invariant b'.
Proof.
  revert b. induction evs as [|ev evs IH]; intros b I; cbn [run].
  - now intros [= <-].
  - destruct (step ev b) as [b1|] eqn:Hstep; [|discriminate].
    apply IH. eauto using invariant_step.
Qed.

Lemma reachable_invariant b : reachable b -> invariant b.
Proof. intros [evs H]. eauto using invariant_run, invariant_new. Qed.


Lemma show_progress_returns W k st last shown :
  (forall x, st = Some x -> exists p, percent x = Return p) ->
  exists shown' last',
    show_progress W k st last shown = Return (shown', last').
Proof.
  intros Hok. destruct st as [x|]; cbn [show_progress]; [|eauto].
  destruct (Hok x eq_refl) as [p Hp]. unfold percent in Hp. rewrite Hp.
  cbn [bind].
  destruct ((2 <=? time_at W k - last)%float || in_list p MILESTONES); eauto.
Qed.

Lemma upload_chunks_raises W req j e :
  raises_at req j e ->
  forall fuel i last shown,
    i <= j -> j < i + fuel ->
    exists shown',
      upload_chunks fuel W req i last shown = Some (shown', Raise e).
Proof.
  intros [He Hbefore]. induction fuel as [|fuel IH];
    intros i last shown Hi Hj; [lia|].
  cbn [upload_chunks]. destruct (decide (i = j)) as [-> | Hne].
  - rewrite He. eauto.
  - destruct (Hbefore i ltac:(lia)) as (st & -> & Hok).
    destruct (show_progress_returns W i st last shown Hok)
      as (shown' & last' & ->).
    apply IH; lia.
Qed.

Lemma transfer_fails W k fuel path b P :
  transfer_raises W k P -> k < fuel ->
  exists shown e, transfer fuel W path b = Some (shown, Raise e) /\ P e.
Proof.
  intros Hraise Hfuel. unfold transfer.
  destruct (Hraise path b)
    as [(e & He & HP) | [(e & Hm & He & HP)
                        | (req & j & e & Hm & Hreq & Hj & Hat & HP)]].
  - rewrite He. cbn [bind]. eauto.
  - rewrite Hm, He. cbn [bind]. eauto.
  - rewrite Hm. cbn [bind]. rewrite Hreq.
    destruct (upload_chunks_raises W req j e Hat fuel 0 (time_start W) [])
      as (shown & ->); [lia | lia | eauto].
Qed.

(** With the file in place and a metadata generation that returns,
    [upload_video] is its [try] block, for some request body, followed by
    the [except] clauses. *)
Lemma upload_video_transfer fuel W path ti de cat priv tgs ctx :
  os_path_exists W path = true ->
  metadata_error_prints W path ctx ->
  exists b,
    upload_video fuel W path ti de cat priv tgs ctx
    = match transfer fuel W path b with
      | None => None
      | Some (shown, r) => Some (shown, try_except r (on_upload_error W))
      end.
Proof.
  intros Hex Hmd. unfold upload_video. rewrite Hex. cbn [negb].
  destruct (negb (truthy_opt ti) || negb (truthy_opt de)).
  - destruct (generate_metadata_returns (stdout W) (gemini_model W) path ctx
                Hmd) as [md ->].
    cbn [bind]. eauto.
  - eauto.
Qed.


Lemma upload_video_dies W k fuel path ti de cat priv tgs ctx :
  os_path_exists W path = true ->
  metadata_error_prints W path ctx ->
  transfer_raises W k (report_fails W) -> k < fuel ->
  exists shown,
    upload_video fuel W path ti de cat priv tgs ctx
    = Some (shown, Raise UnicodeEncodeError).
Proof.
  intros Hex Hmd Hraise Hfuel.
  destruct (upload_video_transfer fuel W path ti de cat priv tgs ctx Hex Hmd)
    as [b ->].
  destruct (transfer_fails W k fuel path b _ Hraise Hfuel)
    as (shown & e & -> & HP).
  exists shown. cbn [try_except]. now rewrite on_upload_error_fails.
Qed.

(** A dispatcher thread that died stays so, with its entry as it was. *)
Lemma died_stays ev b b' e u :
  invariant b -> scheduler_thread b = Died e u -> step ev b = Some b' ->
  scheduler_thread b' = Died e u
  /\ status_of b' u = status_of b u
  /\ (u ∈ scheduled_uploads b -> u ∈ scheduled_uploads b').
Proof.
  intros I Hth. destruct ev; cbn [step]; rewrite Hth; try discriminate.
  - destruct (menu_open b) eqn:Hmenu; [|discriminate]. intros [= <-].
    cbn [scheduler_thread scheduled_uploads].
    destruct (scheduler_running b) eqn:Hrun.
    + pose proof (inv_thread b I) as Ht. unfold thread_ok in Ht.
      rewrite Hth in Ht. destruct Ht as [Hin Hst].
      split; [reflexivity|]. split.
      * unfold status_of. cbn [heap]. rewrite lookup_insert_ne; [reflexivity|].
        intros Heq. pose proof (is_fresh (dom (heap b))) as Hf.
        rewrite Heq in Hf. apply Hf. apply elem_of_dom.
        now apply (inv_alloc b I).
      * intros H. apply elem_of_app. now left.
    + pose proof (inv_start b I Hmenu Hrun) as Hn. congruence.
  - destruct (menu_open b); [|discriminate]. intros [= <-].
    cbn [scheduler_thread scheduled_uploads]. auto.
Qed.

Lemma died_forever evs :
  forall b b' e u,
    invariant b -> scheduler_thread b = Died e u ->
    status_of b u = Some uploading -> u ∈ scheduled_uploads b ->
    run evs b = Some b' ->
    scheduler_thread b' = Died e u
    /\ status_of b' u = Some uploading
    /\ u ∈ scheduled_uploads b'.
Proof.
  induction evs as [|ev evs IH]; intros b b' e u I Hth Hst Hin; cbn [run].
  - intros [= <-]. auto.
  - destruct (step ev b) as [b1|] eqn:Hstep; [|discriminate].
    destruct (died_stays ev b b1 e u I Hth Hstep) as (Hth1 & Hst1 & Hin1).
    apply IH; [eauto using invariant_step | assumption | congruence | auto].
Qed.

(** C1 fails on the code: when the error the transfer collaborator raises
    is caught by the general [except] clause and its text has a code
    point the console lacks, the [print] of the clause raises
    [UnicodeEncodeError]; the exception leaves [upload_video] and the
    dispatcher loop, the thread is over, and the entry stays in the
    registry with the status [uploading] through everything the program
    does afterwards: it is never marked [failed] and never removed. *)
Theorem unprintable_error_kills_dispatcher b t u rest up W k fuel :
  reachable b ->
  scheduler_thread b = InUpload t u rest ->
  heap b !! u = Some up ->
  os_path_exists W (video_path up) = true ->
  metadata_error_prints W (video_path up) (user_context up) ->
  transfer_raises W k (report_fails W) -> k < fuel ->
  exists b1,
    step (Upload W fuel) b = Some b1
    /\ forall evs b2,
         run evs b1 = Some b2 ->
         scheduler_thread b2 = Died UnicodeEncodeError u
         /\ status_of b2 u = Some uploading
         /\ u ∈ scheduled_uploads b2.
Proof.
  intros Hreach Hth Hup Hex Hmd Hraise Hfuel.
  pose proof (reachable_invariant b Hreach) as I.
  pose proof (inv_thread b I) as Ht. unfold thread_ok in Ht.
  rewrite Hth in Ht. destruct Ht as [Hin Hst].
  destruct (upload_video_dies W k fuel (video_path up) None None (py "22")
              (privacy up) (tags up) (user_context up) Hex Hmd Hraise Hfuel)
    as [shown Hv].
  assert (Hstep : step (Upload W fuel) b
                  = Some (with_thread (Died UnicodeEncodeError u) b)).
  { cbn [step]. rewrite Hth, Hup, Hv. reflexivity. }
  eexists. split; [exact Hstep|].
  intros evs b2.
  apply died_forever; [eauto using invariant_step | reflexivity | | ];
    assumption.
Qed.


(** C2: in every state the program reaches, an execution by the
    dispatcher whose call of [upload_video] returns ends with a terminal
    status recorded for the entry, [completed] for a video id that is
    not empty and [failed] otherwise; the step after the record removes
    the entry from the registry; and the registry holds an entry with
    status [completed] or [failed] only between those two steps, so never
    between scans. *)
Theorem terminal_entries_leave_registry b :
  reachable b ->
  (forall W fuel t u rest up shown video_id,
      scheduler_thread b = InUpload t u rest ->
      heap b !! u = Some up ->
      upload_video fuel W (video_path up) None None (py "22")
        (privacy up) (tags up) (user_context up)
      = Some (shown, Return video_id) ->
      exists b' st,
        step (Upload W fuel) b = Some b'
        /\ scheduler_thread b' = BeforeRemove t u rest
        /\ status_of b' u = Some st
        /\ st = (if truthy_id video_id then completed else failed)
        /\ terminal st)
  /\ (forall t u rest,
        scheduler_thread b = BeforeRemove t u rest ->
        exists b',
          step Remove b = Some b'
          /\ (u ∉ scheduled_uploads b')
          /\ scheduler_thread b' = ForLoop t rest)
  /\ (forall r st,
        r ∈ scheduled_uploads b -> status_of b r = Some st -> terminal st ->
        exists t rest, scheduler_thread b = BeforeRemove t r rest).
Proof.
  intros Hreach. pose proof (reachable_invariant b Hreach) as I.
  split; [|split].
  - intros W fuel t u rest up shown video_id Hth Hup Hv.
    pose proof (inv_thread b I) as Ht. unfold thread_ok in Ht.
    rewrite Hth in Ht. destruct Ht as [_ Hst].
    eexists. exists (if truthy_id video_id then completed else failed).
    split; [cbn [step]; rewrite Hth, Hup, Hv; reflexivity|].
    split; [reflexivity|]. split.
    + rewrite status_of_with_status, decide_True by reflexivity.
      now rewrite Hst.
    + split; [reflexivity|].
      destruct (truthy_id video_id); [now left | now right].
  - intros t u rest Hth.
    pose proof (inv_thread b I) as Ht. unfold thread_ok in Ht.
    rewrite Hth in Ht. destruct Ht as [Hin _].
    destruct (list_remove_in u _ Hin) as (l' & Hrm & _ & Hnd & _).
    destruct (Hnd (inv_nodup b I)) as [Hgone _].
    eexists. cbn [step]. rewrite Hth, Hrm. split; [reflexivity|].
    cbn [scheduled_uploads scheduler_thread]. split; [assumption | reflexivity].
  - intros r st Hin Hst Hterm.
    assert (Hp : st <> pending) by (destruct Hterm; congruence).
    pose proof (inv_pending b I r st Hin Hst Hp) as Hc.
    pose proof (inv_thread b I) as Ht. unfold thread_ok in Ht.
    destruct (scheduler_thread b) as [| | |t u rest|t u rest| |e u];
      try discriminate; injection Hc as ->.
    + destruct Ht as [_ Hu]. rewrite Hu in Hst. injection Hst as <-.
      destruct Hterm; discriminate.
    + eauto.
    + destruct Ht as [_ Hu]. rewrite Hu in Hst. injection Hst as <-.
      destruct Hterm; discriminate.
Qed.

End DispatcherProofs.

(** [list.remove] takes the first occurrence only. *)
Example list_remove_first : list_remove 0 [0; 1; 0] = Return [1; 0].
Proof. reflexivity. Qed.


Lemma garbled_world_raises :
  transfer_raises garbled_world 0 (report_fails garbled_world).
Proof.
  intros path b. right. right.
  exists (fun _ => Raise (CollaboratorError [56448%N])), 0,
         (CollaboratorError [56448%N]).
  split; [reflexivity|]. split; [reflexivity|]. split; [lia|].
  split; [|reflexivity]. split; [reflexivity|]. intros j Hj. lia.
Defined.

Lemma no_model_prints W path ctx :
  gemini_model W = None -> metadata_error_prints W path ctx.
Proof. intros H m e Hm. congruence. Defined.

Lemma unprintable_error_kills_dispatcher_witness :
  exists b b1,
    run (U := ascii_tables) due_run new_bot = Some b
    /\ scheduler_thread b = InUpload an_afternoon 0 []
    /\ step (U := ascii_tables) (Upload garbled_world 1) b = Some b1
    /\ forall evs b2,
         run (U := ascii_tables) evs b1 = Some b2 ->
         scheduler_thread b2 = Died UnicodeEncodeError 0
         /\ status_of b2 0 = Some uploading
         /\ 0 ∈ scheduled_uploads b2.
Proof.
  set (b := default new_bot (run (U := ascii_tables) due_run new_bot)).
  assert (Hrun : run (U := ascii_tables) due_run new_bot = Some b)
    by (vm_compute; reflexivity).
  assert (Hth : scheduler_thread b = InUpload an_afternoon 0 [])
    by (vm_compute; reflexivity).
  destruct (unprintable_error_kills_dispatcher (U := ascii_tables) b
              an_afternoon 0 []
              {| video_path := py "clip.mp4"; scheduled_time := an_afternoon;
                 privacy := py "private"; tags := []; user_context := [];
                 upload_status := uploading |}
              garbled_world 0 1 (ex_intro _ due_run Hrun) Hth
              ltac:(vm_compute; reflexivity) eq_refl
              (no_model_prints garbled_world _ _ eq_refl)
              garbled_world_raises ltac:(lia))
    as (b1 & H1 & H2).
  exists b, b1. repeat split; try assumption; now apply (H2 evs b2).
Defined.


Lemma terminal_entries_leave_registry_witness :
  exists b,
    run (U := ascii_tables) (due_run ++ [Upload failing_world 1]) new_bot
    = Some b
    /\ exists b',
         step (U := ascii_tables) Remove b = Some b'
         /\ (0 ∉ scheduled_uploads b')
         /\ scheduler_thread b' = ForLoop an_afternoon [].
Proof.
  set (b := default new_bot
              (run (U := ascii_tables) (due_run ++ [Upload failing_world 1])
                 new_bot)).
  assert (Hrun : run (U := ascii_tables) (due_run ++ [Upload failing_world 1])
                   new_bot = Some b)
    by (vm_compute; reflexivity).
  exists b. split; [exact Hrun|].
  apply (proj1 (proj2 (terminal_entries_leave_registry (U := ascii_tables) b
                         (ex_intro _ _ Hrun)))).
  vm_compute. reflexivity.
Defined.

(** * Further properties *)

(** ** The shape of a sanitised title *)

(** The sanitised title is whitespace-normal and at most
    [MAX_TITLE_LENGTH] code points long. *)
Lemma sanitize_shape title :
  tight true (_sanitize_title title)
  /\ length (_sanitize_title title) <= MAX_TITLE_LENGTH.
Proof.
  unfold _sanitize_title. change (py " ") with [SPACE].
  set (n := join [SPACE] (split_ws (strip title))).
  destruct (join_split_tight (strip title)) as [Hn | Hn]; fold n in Hn.
  - rewrite Hn. split; [vm_compute; repeat split | vm_compute; lia].
  - destruct (Nat.ltb_spec MAX_TITLE_LENGTH (length n)) as [Hl | Hl].
    + assert (Ht : tight true (take (MAX_TITLE_LENGTH - 3) n ++ py "...")).
      { apply tight_take_app; [assumption | reflexivity]. }
      destruct (take (MAX_TITLE_LENGTH - 3) n ++ py "...") eqn:E;
        [destruct (tight_nonempty _ Ht); reflexivity|].
      cbn [truthy negb]. split; [assumption|]. rewrite <- E.
      rewrite length_app, length_take.
      change (length (py "...")) with 3. unfold MAX_TITLE_LENGTH in *. lia.
    + destruct n; [destruct (tight_nonempty _ Hn); reflexivity|].
      cbn [truthy negb]. split; assumption.
Qed.

Lemma tight_strip t : tight true t -> strip t = t.
Proof.
  intros Ht. unfold strip. now rewrite (tight_lstrip _ Ht), (tight_rstrip _ _ Ht).
Qed.

Lemma tight_length t : tight true t -> 1 <= length t.
Proof.
  intros Ht. pose proof (tight_nonempty _ Ht).
  destruct t; [contradiction | cbn; lia].
Qed.

Lemma sanitize_facts title :
  1 <= length (_sanitize_title title) <= MAX_TITLE_LENGTH
  /\ strip (_sanitize_title title) = _sanitize_title title.
Proof.
  destruct (sanitize_shape title) as [Ht Hl].
  split; [split; [now apply tight_length | assumption] | now apply tight_strip].
Qed.

(** X1: whatever the text, the sanitised title has between 1 and
    [MAX_TITLE_LENGTH] code points, its only whitespace is single spaces
    between words, and trimming it changes nothing. *)
Theorem sanitize_bounds title :
  1 <= length (_sanitize_title title) <= MAX_TITLE_LENGTH
  /\ tight true (_sanitize_title title)
  /\ strip (_sanitize_title title) = _sanitize_title title.
Proof.
  destruct (sanitize_shape title) as [Ht Hl].
  split; [split; [now apply tight_length | assumption]|].
  split; [assumption | now apply tight_strip].
Qed.

(** ** What the metadata is made of *)

Lemma lstrip_elem x s : x ∈ lstrip s -> x ∈ s.
Proof.
  induction s as [|c s IH]; cbn [lstrip]; [auto|].
  destruct (isspace c); [|auto]. intros H. apply elem_of_cons. right. auto.
Qed.

Lemma rstrip_elem x s : x ∈ rstrip s -> x ∈ s.
Proof.
  induction s as [|c s IH]; cbn [rstrip]; [auto|].
  destruct (rstrip s) as [|d r].
  - destruct (isspace c); intros H; [inversion H|].
    apply list_elem_of_singleton in H. subst. apply elem_of_cons. now left.
  - intros H. apply elem_of_cons in H. apply elem_of_cons.
    destruct H as [-> | H]; [now left | right; auto].
Qed.

Lemma strip_elem x s : x ∈ strip s -> x ∈ s.
Proof. unfold strip. intros H. now apply lstrip_elem, rstrip_elem. Qed.

Lemma cons_head_elem x c (ws : list str) w :
  w ∈ cons_head c ws -> x ∈ w ->
  x = c \/ exists w', w' ∈ ws /\ x ∈ w'.
Proof.
  destruct ws as [|w0 ws]; cbn [cons_head]; intros Hw Hx.
  - apply list_elem_of_singleton in Hw. subst.
    apply list_elem_of_singleton in Hx. now left.
  - apply elem_of_cons in Hw. destruct Hw as [-> | Hw].
    + apply elem_of_cons in Hx. destruct Hx as [-> | Hx]; [now left|].
      right. exists w0. split; [apply elem_of_cons; now left | assumption].
    + right. exists w. split; [apply elem_of_cons; now right | assumption].
Qed.

Lemma split_ws_elem x s w : w ∈ split_ws s -> x ∈ w -> x ∈ s.
Proof.
  revert w. induction s as [|c s IH]; cbn [split_ws]; intros w Hw Hx;
    [inversion Hw|].
  apply elem_of_cons. destruct (isspace c); [right; eauto|].
  destruct (starts_word s).
  - destruct (cons_head_elem x c _ w Hw Hx) as [-> | (w' & Hw' & Hx')];
      [now left | right; eauto].
  - apply elem_of_cons in Hw. destruct Hw as [-> | Hw]; [|right; eauto].
    apply list_elem_of_singleton in Hx. now left.
Qed.

Lemma join_elem x sep (ws : list str) :
  x ∈ join sep ws -> x ∈ sep \/ exists w, w ∈ ws /\ x ∈ w.
Proof.
  induction ws as [|w ws IH]; cbn [join]; intros H; [inversion H|].
  destruct ws as [|w' ws].
  - right. exists w. split; [apply elem_of_cons; now left | assumption].
  - apply elem_of_app in H. destruct H as [H | H].
    + right. exists w. split; [apply elem_of_cons; now left | assumption].
    + apply elem_of_app in H. destruct H as [H | H]; [now left|].
      destruct (IH H) as [? | (w0 & Hw0 & Hx)]; [now left|].
      right. exists w0. split; [apply elem_of_cons; now right | assumption].
Qed.

(** The characters of a sanitised title: those of the title, the space,
    and those of the ellipsis and of the placeholder. *)
Lemma sanitize_elem x title :
  x ∈ _sanitize_title title ->
  x ∈ title \/ x ∈ py " ." ++ py "Untitled Video".
Proof.
  unfold _sanitize_title.
  set (n := join (py " ") (split_ws (strip title))).
  assert (Hn : forall y, y ∈ n -> y ∈ title \/ y = SPACE).
  { intros y Hy. destruct (join_elem _ _ _ Hy) as [Hs | (w & Hw & Hyw)].
    - right. now apply list_elem_of_singleton in Hs.
    - left. eapply strip_elem, split_ws_elem; eauto. }
  set (t := if MAX_TITLE_LENGTH <? length n
            then take (MAX_TITLE_LENGTH - 3) n ++ py "..." else n).
  assert (Ht : forall y, y ∈ t -> y ∈ title \/ y = SPACE \/ y = ch ".").
  { intros y Hy. unfold t in Hy. destruct (MAX_TITLE_LENGTH <? length n).
    - apply elem_of_app in Hy. destruct Hy as [Hy | Hy].
      + apply (subseteq_take (MAX_TITLE_LENGTH - 3) n) in Hy.
        destruct (Hn y Hy); auto.
      + right. right. cbn in Hy.
        repeat (apply elem_of_cons in Hy; destruct Hy as [-> | Hy];
                [reflexivity|]). inversion Hy.
    - destruct (Hn y Hy); auto. }
  destruct (negb (truthy t)).
  - intros H. right. apply elem_of_app. now right.
  - intros H. destruct (Ht x H) as [? | [-> | ->]]; [now left | right..];
      apply elem_of_app; left; cbn.
    + apply elem_of_cons. now left.
    + apply elem_of_cons. right. apply elem_of_cons. now left.
Qed.

Lemma replace_single_elem c new x s :
  forall skip, x ∈ replace_from [c] new skip s -> (x ∈ s /\ x <> c) \/ x ∈ new.
Proof.
  induction s as [|d s IH]; intros skip; cbn [replace_from];
    [intros H; inversion H|].
  assert (Hrec : forall k, x ∈ replace_from [c] new k s ->
                           (x ∈ d :: s /\ x <> c) \/ x ∈ new).
  { intros k H. destruct (IH k H) as [[? ?] | ?]; [left | now right].
    split; [apply elem_of_cons; now right | assumption]. }
  destruct skip; [|apply Hrec].
  cbn [startswith]. destruct (N.eqb_spec c d) as [-> | Hne]; cbn [andb].
  - destruct s; intros H; apply elem_of_app in H;
      (destruct H as [H | H]; [now right | eauto]).
  - assert (Hcase : x ∈ d :: replace_from [c] new 0 s ->
                    (x ∈ d :: s /\ x <> c) \/ x ∈ new).
    { intros H. apply elem_of_cons in H. destruct H as [-> | H]; [|eauto].
      left. split; [apply elem_of_cons; now left | congruence]. }
    destruct s; exact Hcase.
Qed.

Section MetadataShape.
Context {U : UnicodeData}.

(** X2: whichever way [generate_metadata] takes (no collaborator, a
    collaborator that raises, or an answer of any shape), the title it
    returns has between 1 and [MAX_TITLE_LENGTH] code points and no
    whitespace at its ends, and the description is not empty. *)
Theorem generated_metadata_bounds stdout gm path ctx md :
  generate_metadata stdout gm path ctx = Return md ->
  1 <= length (Metadata.title md) <= MAX_TITLE_LENGTH
  /\ strip (Metadata.title md) = Metadata.title md
  /\ Metadata.description md <> [].
Proof.
  assert (Hfb : forall md0, md0 = _create_fallback_metadata path ctx ->
            1 <= length (Metadata.title md0) <= MAX_TITLE_LENGTH
            /\ strip (Metadata.title md0) = Metadata.title md0
            /\ Metadata.description md0 <> []).
  { intros md0 ->. unfold _create_fallback_metadata.
    cbn [Metadata.title Metadata.description].
    match goal with |- context [_sanitize_title ?t] =>
      destruct (sanitize_facts t) as (Hb & Hs) end.
    split; [assumption|]. split; [assumption|].
    destruct (truthy ctx); discriminate. }
  unfold generate_metadata. destruct gm as [m|];
    [|intros [= <-]; now apply Hfb].
  destruct (m (prompt_of (path_stem path) ctx)) as [text|e] eqn:Hm.
  - rewrite (generate_with_parts _ _ _ _ Hm). cbn [try_except].
    intros [= <-]. cbn [Metadata.title Metadata.description].
    destruct (sanitize_facts (response_title text)) as (Hb & Hs).
    split; [assumption|]. split; [assumption|].
    unfold response_description.
    destruct (snd (response_parts text)); cbn [truthy negb]; discriminate.
  - unfold generate_with. rewrite Hm. cbn [bind try_except].
    destruct (print_exception stdout e); cbn [bind]; [|discriminate].
    intros [= <-]. now apply Hfb.
Qed.

(** X3: when the collaborator answers, no asterisk of the answer
    reaches the title: the emphasis marks are removed before the title is
    sanitised, and sanitising adds none. *)
Theorem generated_title_without_asterisk stdout m path ctx text md :
  m (prompt_of (path_stem path) ctx) = Return text ->
  generate_metadata stdout (Some m) path ctx = Return md ->
  ch "*" ∉ Metadata.title md.
Proof.
  intros Hm. unfold generate_metadata.
  rewrite (generate_with_parts _ _ _ _ Hm). cbn [try_except].
  intros [= <-]. cbn [Metadata.title]. intros Hin.
  destruct (sanitize_elem _ _ Hin) as [H | H].
  - unfold response_title in H. apply strip_elem in H.
    destruct (replace_single_elem _ _ _ _ _ H) as [[_ Hne] | Hnil];
      [now apply Hne | inversion Hnil].
  - revert H. vm_compute. intros H.
    repeat (apply elem_of_cons in H; destruct H as [H | H];
            [discriminate H|]).
    inversion H.
Qed.

(** X23: when the generation collaborator raises an error whose text has
    a code point the console lacks, [generate_metadata] raises
    [UnicodeEncodeError]: the [print] of the handler fails before the
    fallback is made. *)
Theorem unprintable_metadata_error_raises stdout m path ctx e :
  m (prompt_of (path_stem path) ctx) = Raise e ->
  forallb stdout (exn_text e) = false ->
  generate_metadata stdout (Some m) path ctx = Raise UnicodeEncodeError.
Proof.
  intros Hm Hp. unfold generate_metadata, generate_with. rewrite Hm.
  cbn [bind try_except]. unfold print_exception. now rewrite Hp.
Qed.

(** X4: the title of the fallback metadata has no underscore,
    whatever the path and the context hint. *)
Theorem fallback_title_without_underscore path ctx :
  ch "_" ∉ Metadata.title (_create_fallback_metadata path ctx).
Proof.
  unfold _create_fallback_metadata. cbn [Metadata.title]. intros Hin.
  destruct (sanitize_elem _ _ Hin) as [H | H].
  - destruct (join_elem _ _ _ H) as [Hs | (w & Hw & Hx)].
    + revert Hs. vm_compute. intros Hs.
      apply list_elem_of_singleton in Hs. discriminate Hs.
    + pose proof (split_ws_elem _ _ _ Hw Hx) as Hr.
      destruct (replace_single_elem _ _ _ _ _ Hr) as [[_ Hne] | Hsp];
        [now apply Hne|].
      revert Hsp. vm_compute. intros Hsp.
      apply list_elem_of_singleton in Hsp. discriminate Hsp.
  - revert H. vm_compute. intros H.
    repeat (apply elem_of_cons in H; destruct H as [H | H];
            [discriminate H|]).
    inversion H.
Qed.

End MetadataShape.

Lemma generated_metadata_bounds_witness :
  generate_metadata (U := ascii_tables) utf8 (Some silent_model)
       (py "clip.mp4") []
  = Return {| Metadata.title := py "Untitled Video";
              Metadata.description := py "hello" |}
  /\ 1 <= length (py "Untitled Video") <= MAX_TITLE_LENGTH
  /\ strip (py "Untitled Video") = py "Untitled Video"
  /\ py "hello" <> [].
Proof.
  split; [vm_compute; reflexivity|].
  apply (generated_metadata_bounds (U := ascii_tables) utf8
           (Some silent_model)
           (py "clip.mp4") []
           {| Metadata.title := py "Untitled Video";
              Metadata.description := py "hello" |}).
  vm_compute. reflexivity.
Defined.

Lemma unprintable_metadata_error_raises_witness :
  generate_metadata (U := ascii_tables) utf8 (Some garbled_model)
    (py "clip.mp4") []
  = Raise UnicodeEncodeError.
Proof.
  apply (unprintable_metadata_error_raises (U := ascii_tables) utf8
           garbled_model (py "clip.mp4") [] (CollaboratorError [56448%N]));
    reflexivity.
Defined.

Lemma generated_title_without_asterisk_witness :
  generate_metadata (U := ascii_tables) utf8 (Some emphatic_model)
    (py "clip.mp4") []
  = Return {| Metadata.title := py "Big day";
              Metadata.description := py "hello" |}
  /\ ch "*" ∉ py "Big day".
Proof.
  split; [vm_compute; reflexivity|].
  apply (generated_title_without_asterisk (U := ascii_tables) utf8
           emphatic_model
           (py "clip.mp4") [] (py "TITLE: **Big** day DESCRIPTION: hello")
           {| Metadata.title := py "Big day";
              Metadata.description := py "hello" |});
    vm_compute; reflexivity.
Defined.

(** ** The prompts of [main] and the stopwatch *)

Lemma startswith_split p s : startswith p s = true -> s = p ++ drop (length p) s.
Proof.
  revert s. induction p as [|a p IH]; intros [|b s]; cbn; try discriminate;
    try reflexivity.
  intros H. apply andb_prop in H. destruct H as [Hab H].
  apply N.eqb_eq in Hab. subst. f_equal. now apply IH.
Qed.

Lemma join_cons sep w ws :
  ws <> [] -> join sep (w :: ws) = w ++ sep ++ join sep ws.
Proof. destruct ws; [congruence | reflexivity]. Qed.

Lemma join_split_from sep s :
  sep <> [] ->
  forall skip cur, (skip <= length s)%nat ->
    join sep (split_from sep skip cur s) = rev cur ++ drop skip s.
Proof.
  intros Hsep. induction s as [|c s IH]; intros skip cur Hk.
  - cbn in Hk. assert (skip = 0%nat) by lia. subst. cbn. now rewrite app_nil_r.
  - cbn [split_from]. destruct skip as [|k].
    + destruct (startswith sep (c :: s)) eqn:E.
      * rewrite join_cons by apply split_from_nonempty.
        pose proof (startswith_split _ _ E) as Hs.
        destruct sep as [|a sep']; [congruence|].
        cbn [length app drop] in Hs. injection Hs as -> Hs.
        assert (length sep' <= length s)%nat.
        { apply (f_equal length) in Hs. rewrite length_app in Hs. lia. }
        rewrite IH by (cbn [length]; lia). cbn [length rev app drop].
        replace (S (length sep') - 1)%nat with (length sep') by lia.
        rewrite Hs at 2. reflexivity.
      * rewrite IH by lia. cbn [rev drop]. now rewrite <- app_assoc.
    + cbn [length] in Hk. rewrite IH by lia. reflexivity.
Qed.

Lemma split_char_length c s cur :
  length (split_from [c] 0 cur s) = S (count_occ N.eq_dec s c).
Proof.
  revert cur. induction s as [|x s IH]; intros cur; [reflexivity|].
  cbn [split_from startswith length count_occ Nat.sub].
  rewrite andb_true_r.
  destruct (N.eqb_spec c x) as [-> | Hx].
  - destruct (N.eq_dec x x); [|congruence]. cbn [length]. now rewrite IH.
  - destruct (N.eq_dec x c); [congruence|]. apply IH.
Qed.

Lemma not_elem_rev (c : char) cur : c ∉ cur -> c ∉ rev cur.
Proof.
  intros Hc H. apply Hc. apply list_elem_of_In. apply in_rev.
  now apply list_elem_of_In.
Qed.

Lemma split_char_free c s cur :
  c ∉ cur -> Forall (fun p => c ∉ p) (split_from [c] 0 cur s).
Proof.
  revert cur. induction s as [|x s IH]; intros cur Hc;
    cbn [split_from startswith length Nat.sub].
  - constructor; [|constructor]. now apply not_elem_rev.
  - rewrite andb_true_r. destruct (N.eqb_spec c x) as [-> | Hx].
    + constructor; [now apply not_elem_rev|].
      apply IH. apply not_elem_of_nil.
    + apply IH. intros H. apply elem_of_cons in H. destruct H; [congruence | auto].
Qed.

Lemma rstrip_idem t : rstrip (rstrip t) = rstrip t.
Proof.
  induction t as [|c t IH]; [reflexivity|]. cbn [rstrip].
  destruct (rstrip t) as [|d r] eqn:E.
  - destruct (isspace c) eqn:Ec; [reflexivity|]. cbn [rstrip]. now rewrite Ec.
  - cbn [rstrip]. cbn [rstrip] in IH. rewrite IH. reflexivity.
Qed.

Lemma strip_idem s : strip (strip s) = strip s.
Proof.
  unfold strip.
  assert (H : lstrip s = [] \/ exists c r, lstrip s = c :: r /\ isspace c = false).
  { induction s as [|c s IH]; [now left|]. cbn [lstrip].
    destruct (isspace c) eqn:E; [assumption|]. right. eauto. }
  destruct H as [-> | (c & r & -> & Hc)]; [reflexivity|].
  assert (H : exists r', rstrip (c :: r) = c :: r').
  { cbn [rstrip]. destruct (rstrip r); rewrite ?Hc; eauto. }
  destruct H as (r' & Hr). rewrite Hr. cbn [lstrip]. rewrite Hc.
  rewrite <- Hr. apply rstrip_idem.
Qed.

(** X5: [sep.join(s.split(sep))] is [s], for every text and every
    non-empty separator. *)
Theorem join_split sep s : sep <> [] -> join sep (split sep s) = s.
Proof.
  intros Hsep. unfold split. rewrite join_split_from by (assumption || cbn; lia).
  reflexivity.
Qed.

Lemma join_split_witness :
  join (py ",") (split (py ",") (py "a,,b, c")) = py "a,,b, c".
Proof. apply (join_split (py ",") (py "a,,b, c")). discriminate. Defined.

(** X6: the tags [main] reads from a line: none exactly when the line
    is blank; otherwise one more than the commas of the trimmed line, so
    that an empty tag is kept; every tag is trimmed and has no comma. *)
Theorem tags_of_input_shape line :
  (tags_of_input line = [] <-> strip line = [])
  /\ (strip line <> [] ->
      length (tags_of_input line)
      = S (count_occ N.eq_dec (strip line) (ch ",")))
  /\ Forall (fun t => strip t = t /\ ch "," ∉ t) (tags_of_input line).
Proof.
  unfold tags_of_input. destruct (strip line) as [|c s] eqn:E; cbn [truthy].
  - split; [tauto|]. split; [congruence | constructor].
  - split; [|split].
    + split; [|discriminate]. intros H. apply map_eq_nil in H.
      now apply split_from_nonempty in H.
    + intros _. rewrite length_map. apply split_char_length.
    + unfold split. change (py ",") with [ch ","].
      pose proof (split_char_free (ch ",") (c :: s) [] (not_elem_of_nil _))
        as Hf.
      induction Hf as [|p ps Hp _ IH]; cbn [map]; constructor; [|exact IH].
      split; [apply strip_idem|]. intros H. apply Hp. now apply strip_elem.
Qed.

(** X7: the privacy [main] reads from a line is always one of
    [private], [unlisted] and [public], and it is [private] unless the
    trimmed line is [2] or [3]. *)
Theorem privacy_of_input_values line :
  (privacy_of_input line = py "private"
   \/ privacy_of_input line = py "unlisted"
   \/ privacy_of_input line = py "public")
  /\ (strip line <> py "2" -> strip line <> py "3" ->
      privacy_of_input line = py "private").
Proof.
  unfold privacy_of_input, privacy_map.
  set (k := if truthy (strip line) then strip line else py "1").
  assert (Hk : k <> py "2" -> k <> py "3" -> dict_get
            [(py "1", py "private"); (py "2", py "unlisted");
             (py "3", py "public")] k (py "private") = py "private").
  { intros H2 H3. cbn [dict_get].
    destruct (str_eqb (py "1") k); [reflexivity|].
    destruct (str_eqb (py "2") k) eqn:E2; [apply str_eqb_eq in E2; congruence|].
    destruct (str_eqb (py "3") k) eqn:E3; [apply str_eqb_eq in E3; congruence|].
    reflexivity. }
  split.
  - cbn [dict_get]. destruct (str_eqb (py "1") k); [tauto|].
    destruct (str_eqb (py "2") k); [tauto|].
    destruct (str_eqb (py "3") k); tauto.
  - intros H2 H3. apply Hk; subst k; destruct (strip line); cbn [truthy];
      (assumption || discriminate).
Qed.

Lemma privacy_of_input_values_witness :
  privacy_of_input (py " 7 ") = py "private".
Proof.
  apply (privacy_of_input_values (py " 7 ")); vm_compute; discriminate.
Defined.

(** X8: once a [Timer] is stopped, at a reading of the clock other than
    zero, [elapsed] no longer depends on the clock; starting it again
    forgets the stop, and [elapsed] is then the clock less the new
    start. *)
Theorem stopped_timer_is_frozen s e c c' t :
  float_truthy e = true ->
  Timer_elapsed c (Timer_stop e (Timer_start s t))
  = Timer_elapsed c' (Timer_stop e (Timer_start s t))
  /\ Timer_elapsed c (Timer_start c' (Timer_stop e (Timer_start s t)))
     = (c - c')%float.
Proof.
  intros He. unfold Timer_elapsed, Timer_stop, Timer_start.
  cbn [start_time end_time]. rewrite He. split; reflexivity.
Qed.

Lemma stopped_timer_is_frozen_witness :
  Timer_elapsed 1020 (Timer_stop 1010 (Timer_start 1000 Timer_init))
  = Timer_elapsed 1030 (Timer_stop 1010 (Timer_start 1000 Timer_init))
  /\ Timer_elapsed 1020
       (Timer_start 1030 (Timer_stop 1010 (Timer_start 1000 Timer_init)))
     = (1020 - 1030)%float.
Proof.
  apply (stopped_timer_is_frozen 1000 1010 1020 1030 Timer_init).
  vm_compute. reflexivity.
Defined.

(** ** What the progress loop shows *)

Lemma show_progress_step W k st last shown shown' last' :
  show_progress W k st last shown = Return (shown', last') ->
  forall req o, req k = Return (st, o) ->
  exists added,
    shown' = shown ++ added
    /\ added `sublist_of` reported_at req k
    /\ filter (fun p => is_milestone p = true) added
       = filter (fun p => is_milestone p = true) (reported_at req k).
Proof.
  intros H req o Hreq. unfold reported_at. rewrite Hreq.
  unfold show_progress in H. destruct st as [x|].
  - fold (percent x) in H. destruct (percent x) as [p|e]; [|discriminate H].
    cbn [bind] in H. fold (is_milestone p) in H.
    destruct (is_milestone p) eqn:Hp.
    + rewrite orb_true_r in H. injection H as <- <-.
      exists [p]. repeat split; reflexivity.
    + rewrite orb_false_r in H.
      destruct (2 <=? time_at W k - last)%float; injection H as <- <-.
      * exists [p]. repeat split; reflexivity.
      * exists []. split; [now rewrite app_nil_r|]. split.
        -- apply sublist_nil_l.
        -- rewrite !filter_cons, Hp. reflexivity.
  - injection H as <- <-. exists []. split; [now rewrite app_nil_r|].
    split; reflexivity.
Qed.

Lemma show_progress_raise W k st last shown e :
  show_progress W k st last shown = Raise e ->
  forall req o, req k = Return (st, o) -> reported_at req k = [].
Proof.
  intros H req o Hreq. unfold reported_at. rewrite Hreq.
  unfold show_progress in H. destruct st as [x|]; [|discriminate H].
  fold (percent x) in H. destruct (percent x) as [p|e']; [|reflexivity].
  cbn [bind] in H.
  destruct ((2 <=? time_at W k - last)%float || in_list p MILESTONES);
    discriminate H.
Qed.

(** What the loop shows is taken, in order, from what the calls report. *)
Lemma upload_chunks_sublist W req :
  forall fuel k last shown0 shown res,
    upload_chunks fuel W req k last shown0 = Some (shown, res) ->
    exists added,
      shown = shown0 ++ added /\ added `sublist_of` reported req k fuel.
Proof.
  induction fuel as [|fuel IH]; intros k last shown0 shown res;
    cbn [upload_chunks]; [discriminate|].
  cbn [reported].
  destruct (req k) as [[st o]|e] eqn:Hreq.
  - destruct (show_progress W k st last shown0) as [[shown' last']|e] eqn:Hs.
    + destruct (show_progress_step _ _ _ _ _ _ _ Hs req o Hreq)
        as (a & -> & Hsub & Hfil).
      destruct o as [r|].
      * intros [= <- <-]. exists a. split; [reflexivity|].
        now apply sublist_inserts_r.
      * intros H. destruct (IH _ _ _ _ _ H) as (b & -> & Hsub').
        exists (a ++ b). split; [now rewrite app_assoc|].
        now apply sublist_app.
    + intros [= <- <-]. exists []. split; [now rewrite app_nil_r|].
      apply sublist_nil_l.
  - intros [= <- <-]. exists []. split; [now rewrite app_nil_r|].
    apply sublist_nil_l.
Qed.

Lemma completes_next req k n r :
  completes req k (S n) r -> completes req (S k) n r.
Proof.
  intros (Hbefore & [st Hlast] & Hpct). split; [|split].
  - intros j Hj. replace (S k + j) with (k + S j) by lia. apply Hbefore. lia.
  - exists st. now replace (S k + n) with (k + S n) by lia.
  - intros j x o Hj. replace (S k + j) with (k + S j) by lia.
    apply Hpct. lia.
Qed.

(** A transfer that completes: the loop ends with the final object, and
    what it has shown holds every milestone reported. *)
Lemma upload_chunks_completes W req :
  forall n k r fuel last shown0,
    completes req k n r -> n < fuel ->
    exists added,
      upload_chunks fuel W req k last shown0 = Some (shown0 ++ added, Return r)
      /\ added `sublist_of` reported req k (S n)
      /\ filter (fun p => is_milestone p = true) added
         = filter (fun p => is_milestone p = true) (reported req k (S n)).
Proof.
  induction n as [|n IH]; intros k r fuel last shown0 Hc Hfuel;
    (destruct fuel as [|fuel]; [lia|]); cbn [upload_chunks].
  - cbn [reported]. destruct Hc as (_ & [st Hlast] & Hpct).
    rewrite Nat.add_0_r in Hlast. rewrite Hlast.
    assert (Hok : exists sl, show_progress W k st last shown0 = Return sl).
    { unfold show_progress. destruct st as [x|]; [|eauto].
      destruct (Hpct 0 x (Some r) ltac:(lia)) as [p Hp];
        [now rewrite Nat.add_0_r|].
      unfold percent in Hp. rewrite Hp. cbn [bind].
      destruct (_ || _); eauto. }
    destruct Hok as [[shown' last'] Hs]. rewrite Hs.
    destruct (show_progress_step _ _ _ _ _ _ _ Hs req _ Hlast)
      as (a & -> & Hsub & Hfil).
    exists a. rewrite app_nil_r. repeat split; assumption.
  - change (reported req k (S (S n)))
      with (reported_at req k ++ reported req (S k) (S n)).
    pose proof (completes_next _ _ _ _ Hc) as Hc'.
    destruct Hc as (Hbefore & _ & Hpct).
    destruct (Hbefore 0 ltac:(lia)) as [st Hreq].
    rewrite Nat.add_0_r in Hreq. rewrite Hreq.
    assert (Hok : exists sl, show_progress W k st last shown0 = Return sl).
    { unfold show_progress. destruct st as [x|]; [|eauto].
      destruct (Hpct 0 x None ltac:(lia)) as [p Hp];
        [now rewrite Nat.add_0_r|].
      unfold percent in Hp. rewrite Hp. cbn [bind].
      destruct (_ || _); eauto. }
    destruct Hok as [[shown' last'] Hs]. rewrite Hs.
    destruct (show_progress_step _ _ _ _ _ _ _ Hs req _ Hreq)
      as (a & -> & Hsub & Hfil).
    destruct (IH (S k) r fuel last' (shown0 ++ a) Hc' ltac:(lia))
      as (b & -> & Hsub' & Hfil').
    exists (a ++ b). split; [now rewrite app_assoc|]. split.
    + now apply sublist_app.
    + now rewrite !filter_app, Hfil, Hfil'.
Qed.

(** X9: whatever the transfer does, the percentages the progress loop
    shows are among those the calls of [next_chunk] reported, in the order
    of the reports: nothing is shown twice or made up. *)
Theorem shown_events_are_reported fuel W req shown res :
  upload_chunks fuel W req 0 (time_start W) [] = Some (shown, res) ->
  shown `sublist_of` reported req 0 fuel.
Proof.
  intros H. destruct (upload_chunks_sublist _ _ _ _ _ _ _ _ H)
    as (a & -> & Hsub). exact Hsub.
Qed.

(** X10: when the transfer completes, the loop returns the final
    object, and the milestones among the shown percentages are exactly the
    milestones among the reported ones: the two-second throttle never
    drops a report of 25, 50, 75 or 100. *)
Theorem milestones_never_throttled fuel W req n r :
  completes req 0 n r -> n < fuel ->
  exists shown,
    upload_chunks fuel W req 0 (time_start W) [] = Some (shown, Return r)
    /\ filter (fun p => is_milestone p = true) shown
       = filter (fun p => is_milestone p = true) (reported req 0 (S n)).
Proof.
  intros Hc Hfuel.
  destruct (upload_chunks_completes W req n 0 r fuel (time_start W) [] Hc Hfuel)
    as (a & H & _ & Hfil).
  exists a. split; assumption.
Qed.

Lemma stub_request_completes : completes stub_request 0 4 stub_response.
Proof.
  split; [|split].
  - intros j Hj.
    do 4 (destruct j as [|j]; [eexists; reflexivity|]). lia.
  - eexists. reflexivity.
  - intros j x o Hj.
    do 5 (destruct j as [|j];
          [cbn; intros [= <- <-]; eexists; vm_compute; reflexivity|]).
    lia.
Defined.

Lemma shown_events_are_reported_witness :
  upload_chunks 5 fast_world stub_request 0 (time_start fast_world) []
  = Some ([50; 100]%Z, Return stub_response)
  /\ [50; 100]%Z `sublist_of` reported stub_request 0 5.
Proof.
  split; [vm_compute; reflexivity|].
  apply (shown_events_are_reported 5 fast_world stub_request [50; 100]%Z
           (Return stub_response)).
  vm_compute. reflexivity.
Defined.

Lemma milestones_never_throttled_witness :
  exists shown,
    upload_chunks 5 fast_world stub_request 0 (time_start fast_world) []
    = Some (shown, Return stub_response)
    /\ filter (fun p => is_milestone p = true) shown
       = filter (fun p => is_milestone p = true) (reported stub_request 0 5).
Proof.
  apply (milestones_never_throttled 5 fast_world stub_request 4 stub_response);
    [exact stub_request_completes | lia].
Defined.

(** ** The outcomes of an execution *)

Section Outcomes.
Context {U : UnicodeData}.




(** The two dispatcher steps behind a call of [upload_video] that
    returns. *)
Lemma execution_recorded b t u rest up W fuel shown video_id :
  reachable b ->
  scheduler_thread b = InUpload t u rest ->
  heap b !! u = Some up ->
  upload_video fuel W (video_path up) None None (py "22")
    (privacy up) (tags up) (user_context up) = Some (shown, Return video_id) ->
  exists b1 b2,
    step (Upload W fuel) b = Some b1
    /\ step Remove b1 = Some b2
    /\ status_of b2 u
       = Some (if truthy_id video_id then completed else failed)
    /\ (u ∉ scheduled_uploads b2)
    /\ scheduler_thread b2 = ForLoop t rest.
Proof.
  intros Hreach Hth Hup Hv.
  pose proof (reachable_invariant b Hreach) as I.
  pose proof (inv_thread b I) as Ht. unfold thread_ok in Ht.
  rewrite Hth in Ht. destruct Ht as [Hin Hst].
  set (st := if truthy_id video_id then completed else failed).
  assert (Hstep : step (Upload W fuel) b
                  = Some (with_status u st (BeforeRemove t u rest) b)).
  { cbn [step]. rewrite Hth, Hup, Hv. reflexivity. }
  destruct (list_remove_in u _ Hin) as (l' & Hrm & _ & Hnd & _).
  destruct (Hnd (inv_nodup b I)) as [Hgone _].
  assert (Hrec : status_of (with_status u st (BeforeRemove t u rest) b) u
                 = Some st).
  { rewrite status_of_with_status, decide_True by reflexivity.
    now rewrite Hst. }
  eexists. eexists. split; [exact Hstep|].
  cbn [step with_status scheduler_thread scheduled_uploads].
  rewrite Hrm. split; [reflexivity|].
  cbn [scheduled_uploads scheduler_thread].
  split; [exact Hrec | split; [assumption | reflexivity]].
Qed.



(** X13: when the file of an entry no longer exists at the moment the
    entry fires, no transfer is attempted, the dispatcher records [failed]
    and removes the entry. *)
Theorem missing_file_fails b t u rest up W fuel :
  reachable b ->
  scheduler_thread b = InUpload t u rest ->
  heap b !! u = Some up ->
  os_path_exists W (video_path up) = false ->
  exists b1 b2,
    step (Upload W fuel) b = Some b1
    /\ step Remove b1 = Some b2
    /\ status_of b2 u = Some failed
    /\ (u ∉ scheduled_uploads b2)
    /\ scheduler_thread b2 = ForLoop t rest.
Proof.
  intros Hreach Hth Hup Hex.
  assert (Hv : upload_video fuel W (video_path up) None None (py "22")
                 (privacy up) (tags up) (user_context up)
               = Some ([], Return None)).
  { unfold upload_video. now rewrite Hex. }
  exact (execution_recorded b t u rest up W fuel [] None Hreach Hth Hup Hv).
Qed.

End Outcomes.




Lemma missing_file_fails_witness :
  exists b b1 b2,
    run (U := ascii_tables) due_run new_bot = Some b
    /\ step (U := ascii_tables) (Upload empty_disk 0) b = Some b1
    /\ step (U := ascii_tables) Remove b1 = Some b2
    /\ status_of b2 0 = Some failed
    /\ (0 ∉ scheduled_uploads b2)
    /\ scheduler_thread b2 = ForLoop an_afternoon [].
Proof.
  set (b := default new_bot (run (U := ascii_tables) due_run new_bot)).
  assert (Hrun : run (U := ascii_tables) due_run new_bot = Some b)
    by (vm_compute; reflexivity).
  destruct (missing_file_fails (U := ascii_tables) b an_afternoon 0 []
              {| video_path := py "clip.mp4"; scheduled_time := an_afternoon;
                 privacy := py "private"; tags := []; user_context := [];
                 upload_status := uploading |}
              empty_disk 0
              (ex_intro _ due_run Hrun) ltac:(vm_compute; reflexivity)
              ltac:(vm_compute; reflexivity) eq_refl)
    as (b1 & b2 & H1 & H2 & H3 & H4 & H5).
  exists b, b1, b2. repeat split; assumption.
Defined.

(** ** The life of an entry *)

Section EntryLife.
Context {U : UnicodeData}.

(** X14: in every reachable state at most one entry is [uploading], and
    it is the one the dispatcher is inside [upload_video] for, or the one
    it was executing when an exception left [upload_video] and ended the
    thread. *)
Theorem one_upload_at_a_time b r :
  reachable b -> status_of b r = Some uploading ->
  ((exists t rest, scheduler_thread b = InUpload t r rest)
   \/ (exists e, scheduler_thread b = Died e r))
  /\ forall r', status_of b r' = Some uploading -> r' = r.
Proof.
  intros Hreach Hr. pose proof (reachable_invariant b Hreach) as I.
  assert (Hcur : forall r0, status_of b r0 = Some uploading ->
                            current (scheduler_thread b) = Some r0).
  { intros r0 H0.
    destruct (decide (r0 ∈ scheduled_uploads b)) as [Hin | Hnot].
    - apply (inv_pending b I r0 uploading Hin H0). discriminate.
    - destruct (inv_left b I r0 uploading H0 Hnot); discriminate. }
  pose proof (Hcur r Hr) as Hc. split.
  - pose proof (inv_thread b I) as Ht. unfold thread_ok in Ht.
    destruct (scheduler_thread b) as [| | |t u rest|t u rest| |e u];
      try discriminate; injection Hc as ->; [eauto| |eauto].
    destruct Ht as [_ (st & Hst & Hterm)]. rewrite Hr in Hst.
    injection Hst as <-. destruct Hterm; discriminate.
  - intros r' Hr'. pose proof (Hcur r' Hr') as Hc'. congruence.
Qed.

Lemma request_of_set_status st u : request_of (set_status st u) = request_of u.
Proof. reflexivity. Qed.

Lemma step_keeps_entries ev b b' r u :
  step ev b = Some b' -> heap b !! r = Some u ->
  exists u', heap b' !! r = Some u' /\ request_of u' = request_of u.
Proof.
  intros Hstep Hu.
  assert (Hsame : heap b' = heap b -> exists u', heap b' !! r = Some u'
                                       /\ request_of u' = request_of u).
  { intros ->. eauto. }
  assert (Halter : forall r0 st, heap b' = alter (set_status st) r0 (heap b) ->
            exists u', heap b' !! r = Some u' /\ request_of u' = request_of u).
  { intros r0 st ->. rewrite lookup_alter.
    destruct (decide (r0 = r)) as [-> | Hne]; rewrite ?Hu; cbn; eauto. }
  revert Hstep. destruct ev; cbn [step].
  - destruct (menu_open b); [|discriminate]. intros [= <-]. cbn [heap].
    assert (Hne : fresh (dom (heap b)) <> r).
    { intros Heq. pose proof (is_fresh (dom (heap b))) as Hf.
      rewrite Heq in Hf. apply Hf, elem_of_dom. eauto. }
    rewrite lookup_insert_ne by assumption. eauto.
  - destruct (menu_open b); [|discriminate]. intros [= <-]. now apply Hsame.
  - destruct (scheduler_thread b); try discriminate.
    destruct (scheduler_running b); intros [= <-]; now apply Hsame.
  - destruct (scheduler_thread b) as [| |t [|r0 rest]| | | |];
      try discriminate; [intros [= <-]; now apply Hsame|].
    destruct (heap b !! r0) as [up|]; [|discriminate].
    destruct (upload_status up); try (intros [= <-]; now apply Hsame).
    destruct (datetime_ge t (scheduled_time up)); intros [= <-];
      [now apply (Halter r0 uploading) | now apply Hsame].
  - destruct (scheduler_thread b) as [| | |t r0 rest| | |]; try discriminate.
    destruct (heap b !! r0) as [up|]; [|discriminate].
    destruct (upload_video _ _ _ _ _ _ _ _ _) as [[shown [vid|e]]|];
      try discriminate; intros [= <-];
      [now eapply Halter | now apply Hsame].
  - destruct (scheduler_thread b) as [| | | |t r0 rest| |]; try discriminate.
    destruct (list_remove r0 (scheduled_uploads b)); intros [= <-];
      now apply Hsame.
Qed.

(** X15: no step of the program deletes an entry object or changes what
    it was submitted with (path, time, privacy, tags, context): only its
    status changes. *)
Theorem entries_are_kept evs b b' r u :
  run evs b = Some b' -> heap b !! r = Some u ->
  exists u', heap b' !! r = Some u' /\ request_of u' = request_of u.
Proof.
  revert b u. induction evs as [|ev evs IH]; intros b u; cbn [run].
  - intros [= <-] Hu. eauto.
  - destruct (step ev b) as [b1|] eqn:Hstep; [|discriminate].
    intros Hrun Hu.
    destruct (step_keeps_entries _ _ _ _ _ Hstep Hu) as (u1 & Hu1 & Hreq).
    destruct (IH _ _ Hrun Hu1) as (u' & Hu' & Hreq').
    exists u'. split; [assumption | congruence].
Qed.

Lemma step_status_forward ev b b' r st :
  invariant b -> step ev b = Some b' -> status_of b r = Some st ->
  exists st', status_of b' r = Some st'
              /\ rank st <= rank st' /\ (terminal st -> st' = st).
Proof.
  intros I Hstep Hst.
  assert (Hsame : heap b' = heap b ->
            exists st', status_of b' r = Some st'
                        /\ rank st <= rank st' /\ (terminal st -> st' = st)).
  { intros Heq. unfold status_of in *. rewrite Heq. eauto. }
  assert (Halter : forall r0 st0 new,
            heap b' = alter (set_status new) r0 (heap b) ->
            status_of b r0 = Some st0 -> rank st0 < rank new ->
            ~ terminal st0 ->
            exists st', status_of b' r = Some st'
                        /\ rank st <= rank st' /\ (terminal st -> st' = st)).
  { intros r0 st0 new Heq H0 Hlt Hnt. unfold status_of in *. rewrite Heq.
    rewrite lookup_alter. destruct (decide (r0 = r)) as [-> | Hne]; [|eauto].
    destruct (heap b !! r) as [u|]; [|discriminate]. cbn in *.
    injection Hst as <-. injection H0 as <-.
    eexists. split; [reflexivity|]. split; [lia | contradiction]. }
  revert Hstep. destruct ev; cbn [step].
  - destruct (menu_open b); [|discriminate]. intros [= <-].
    unfold status_of in *. cbn [heap].
    assert (Hne : fresh (dom (heap b)) <> r).
    { intros Heq. pose proof (is_fresh (dom (heap b))) as Hf.
      rewrite Heq in Hf. apply Hf, elem_of_dom.
      destruct (heap b !! r); [eauto | discriminate]. }
    rewrite lookup_insert_ne by assumption. eauto.
  - destruct (menu_open b); [|discriminate]. intros [= <-]. now apply Hsame.
  - destruct (scheduler_thread b); try discriminate.
    destruct (scheduler_running b); intros [= <-]; now apply Hsame.
  - destruct (scheduler_thread b) as [| |t [|r0 rest]| | | |];
      try discriminate; [intros [= <-]; now apply Hsame|].
    destruct (heap b !! r0) as [up|] eqn:Hup; [|discriminate].
    destruct (upload_status up) eqn:Hs; try (intros [= <-]; now apply Hsame).
    destruct (datetime_ge t (scheduled_time up)); intros [= <-];
      [|now apply Hsame].
    apply (Halter r0 pending uploading); [reflexivity | | cbn; lia |].
    + unfold status_of. now rewrite Hup, <- Hs.
    + intros [H | H]; discriminate H.
  - pose proof (inv_thread b I) as Ht. unfold thread_ok in Ht.
    destruct (scheduler_thread b) as [| | |t r0 rest| | |]; try discriminate.
    destruct Ht as [_ Hup0].
    destruct (heap b !! r0) as [up|]; [|discriminate].
    destruct (upload_video _ _ _ _ _ _ _ _ _) as [[shown [vid|e]]|];
      try discriminate; intros [= <-]; [|now apply Hsame].
    eapply (Halter r0 uploading); [reflexivity | exact Hup0 | |].
    + destruct (truthy_id vid); cbn; lia.
    + intros [H | H]; discriminate H.
  - destruct (scheduler_thread b) as [| | | |t r0 rest| |]; try discriminate.
    destruct (list_remove r0 (scheduled_uploads b)); intros [= <-];
      now apply Hsame.
Qed.

(** X16: along every run from a reachable state the status of an entry
    only moves forward (pending, uploading, then completed or failed), and
    a terminal status never changes again. *)
Theorem status_moves_forward evs b b' r st :
  reachable b -> run evs b = Some b' -> status_of b r = Some st ->
  exists st', status_of b' r = Some st'
              /\ rank st <= rank st' /\ (terminal st -> st' = st).
Proof.
  intros Hreach. pose proof (reachable_invariant b Hreach) as I. clear Hreach.
  revert b st I. induction evs as [|ev evs IH]; intros b st I; cbn [run].
  - intros [= <-] Hst. eauto.
  - destruct (step ev b) as [b1|] eqn:Hstep; [|discriminate].
    intros Hrun Hst.
    destruct (step_status_forward _ _ _ _ _ I Hstep Hst)
      as (st1 & Hst1 & Hle & Hterm).
    destruct (IH b1 st1 (invariant_step _ _ _ I Hstep) Hrun Hst1)
      as (st' & Hst' & Hle' & Hterm').
    exists st'. split; [assumption|]. split; [lia|].
    intros Ht. rewrite (Hterm Ht) in *. now apply Hterm'.
Qed.

End EntryLife.

Lemma one_upload_at_a_time_witness :
  exists b,
    run (U := ascii_tables) (due_run ++ [Upload garbled_world 1]) new_bot
    = Some b
    /\ status_of b 0 = Some uploading
    /\ ((exists t rest, scheduler_thread b = InUpload t 0 rest)
        \/ (exists e, scheduler_thread b = Died e 0))
    /\ forall r', status_of b r' = Some uploading -> r' = 0.
Proof.
  set (b := default new_bot
              (run (U := ascii_tables) (due_run ++ [Upload garbled_world 1])
                 new_bot)).
  assert (Hrun : run (U := ascii_tables) (due_run ++ [Upload garbled_world 1])
                   new_bot = Some b)
    by (vm_compute; reflexivity).
  assert (Hst : status_of b 0 = Some uploading) by (vm_compute; reflexivity).
  exists b. split; [exact Hrun|]. split; [exact Hst|].
  apply (one_upload_at_a_time (U := ascii_tables) b 0
           (ex_intro _ _ Hrun) Hst).
Defined.

Lemma entries_are_kept_witness :
  exists b b',
    run (U := ascii_tables) a_submission new_bot = Some b
    /\ run (U := ascii_tables) (Wake an_afternoon :: a_scan) b = Some b'
    /\ exists u',
         heap b' !! 0 = Some u'
         /\ request_of u'
            = (py "clip.mp4", an_afternoon, py "private", [], []).
Proof.
  set (b := default new_bot (run (U := ascii_tables) a_submission new_bot)).
  set (b' := default new_bot
               (run (U := ascii_tables) (Wake an_afternoon :: a_scan) b)).
  assert (Hb : run (U := ascii_tables) a_submission new_bot = Some b)
    by (vm_compute; reflexivity).
  assert (Hb' : run (U := ascii_tables) (Wake an_afternoon :: a_scan) b
                = Some b')
    by (vm_compute; reflexivity).
  exists b, b'. split; [exact Hb|]. split; [exact Hb'|].
  apply (entries_are_kept (U := ascii_tables) (Wake an_afternoon :: a_scan)
           b b' 0
           {| video_path := py "clip.mp4"; scheduled_time := an_afternoon;
              privacy := py "private"; tags := []; user_context := [];
              upload_status := pending |} Hb').
  vm_compute. reflexivity.
Defined.

Lemma status_moves_forward_witness :
  exists b b',
    run (U := ascii_tables) a_submission new_bot = Some b
    /\ run (U := ascii_tables) (Wake an_afternoon :: a_scan) b = Some b'
    /\ exists st',
         status_of b' 0 = Some st'
         /\ rank pending <= rank st' /\ (terminal pending -> st' = pending).
Proof.
  set (b := default new_bot (run (U := ascii_tables) a_submission new_bot)).
  set (b' := default new_bot
               (run (U := ascii_tables) (Wake an_afternoon :: a_scan) b)).
  assert (Hb : run (U := ascii_tables) a_submission new_bot = Some b)
    by (vm_compute; reflexivity).
  assert (Hb' : run (U := ascii_tables) (Wake an_afternoon :: a_scan) b
                = Some b')
    by (vm_compute; reflexivity).
  exists b, b'. split; [exact Hb|]. split; [exact Hb'|].
  apply (status_moves_forward (U := ascii_tables)
           (Wake an_afternoon :: a_scan) b b' 0 pending
           (ex_intro _ a_submission Hb) Hb').
  vm_compute. reflexivity.
Defined.

(** ** A scan of the dispatcher *)

Section Scan.
Context {U : UnicodeData}.

Lemma run_keeps_time evs b b' r u :
  run evs b = Some b' -> heap b !! r = Some u ->
  exists u', heap b' !! r = Some u' /\ scheduled_time u' = scheduled_time u.
Proof.
  revert b u. induction evs as [|ev evs IH]; intros b u; cbn [run].
  - intros [= <-] Hu. eauto.
  - destruct (step ev b) as [b1|] eqn:Hstep; [|discriminate].
    intros Hrun Hu.
    destruct (step_keeps_entries _ _ _ _ _ Hstep Hu) as (u1 & Hu1 & Hreq).
    destruct (IH _ _ Hrun Hu1) as (u' & Hu' & Htime).
    exists u'. split; [assumption|].
    unfold request_of in Hreq. congruence.
Qed.

Lemma waiting_kept b b' now r :
  (r ∈ scheduled_uploads b' -> r ∈ scheduled_uploads b) ->
  heap b' !! r = heap b !! r ->
  waiting b now r -> waiting b' now r.
Proof.
  intros Hreg Hheap Hw Hin. rewrite Hheap. apply Hw, Hreg, Hin.
Qed.

Lemma scanning_step now snap ev b b' :
  invariant b -> scanning now snap b -> within_scan ev = true ->
  step ev b = Some b' -> scanning now snap b'.
Proof.
  intros I [Halloc Hscan] Hev.
  destruct ev as [path time priv tgs ctx| |nw| |W fuel|];
    try discriminate Hev; cbn [step].
  - (* Submit *)
    destruct (menu_open b) eqn:Hmenu; [|discriminate]. intros [= <-].
    assert (Hrun : scheduler_running b = true).
    { destruct (scheduler_running b) eqn:E; [reflexivity|].
      rewrite (inv_start b I Hmenu E) in Hscan. contradiction. }
    rewrite Hrun.
    assert (Hfresh : forall r, r ∈ snap -> r <> fresh (dom (heap b))).
    { intros r Hr ->. pose proof (is_fresh (dom (heap b))) as Hf.
      apply Hf, elem_of_dom, Halloc, Hr. }
    assert (Hw : forall r, r ∈ snap -> waiting b now r ->
              waiting
                {| heap := <[fresh (dom (heap b)) :=
                              {| video_path := path; scheduled_time := time;
                                 privacy := priv; tags := tgs;
                                 user_context := ctx;
                                 upload_status := pending |}]> (heap b);
                   scheduled_uploads :=
                     scheduled_uploads b ++ [fresh (dom (heap b))];
                   scheduler_running := true;
                   scheduler_thread := scheduler_thread b;
                   menu_open := true |} now r).
    { intros r Hr. apply waiting_kept; cbn [heap scheduled_uploads].
      - intros Hin. apply elem_of_app in Hin. destruct Hin as [Hin | Hin];
          [assumption|]. apply list_elem_of_singleton in Hin.
        now destruct (Hfresh r Hr).
      - apply lookup_insert_ne. intros Heq. now apply (Hfresh r Hr). }
    split; cbn [heap scheduler_thread].
    + intros r Hr. rewrite lookup_insert_ne
        by (intros Heq; now apply (Hfresh r Hr)). auto.
    + destruct (scheduler_thread b) as [| |c rest|c u rest|c u rest| |e u];
        try contradiction; [| | | |exact Logic.I].
      * intros r Hr. auto.
      * destruct Hscan as [-> Hscan]. split; [reflexivity|].
        intros r Hr. destruct (Hscan r Hr); auto.
      * destruct Hscan as [-> Hscan]. split; [reflexivity|].
        intros r Hr. destruct (Hscan r Hr) as [? | [? | ?]]; auto.
      * destruct Hscan as [-> Hscan]. split; [reflexivity|].
        intros r Hr. destruct (Hscan r Hr) as [? | [? | ?]]; auto.
  - (* Stop *)
    destruct (menu_open b); [|discriminate]. intros [= <-].
    split; [exact Halloc | exact Hscan].
  - (* Visit *)
    destruct (scheduler_thread b) as [| |c [|r0 rest]| | | |] eqn:Hth;
      try discriminate; destruct Hscan as [-> Hscan].
    + intros [= <-]. split; [exact Halloc|]. cbn [with_thread scheduler_thread].
      intros r Hr. destruct (Hscan r Hr) as [H | H]; [inversion H | exact H].
    + destruct (heap b !! r0) as [up|] eqn:Hup; [|discriminate].
      assert (Hskip : upload_status up <> pending ->
                scanning now snap (with_thread (ForLoop now rest) b)).
      { intros Hne. split; [exact Halloc|].
        cbn [with_thread scheduler_thread]. split; [reflexivity|].
        intros r Hr. destruct (Hscan r Hr) as [H | H]; [|now right].
        apply elem_of_cons in H. destruct H as [-> | H]; [|now left].
        right. intros Hin. exfalso.
        assert (Hst : status_of b r0 = Some (upload_status up))
          by (unfold status_of; now rewrite Hup).
        pose proof (inv_pending b I r0 _ Hin Hst Hne) as Hc.
        rewrite Hth in Hc. discriminate Hc. }
      destruct (upload_status up) eqn:Hs;
        try (intros [= <-]; apply Hskip; discriminate).
      destruct (datetime_ge now (scheduled_time up)) eqn:Hdue; intros [= <-].
      * split.
        -- intros r Hr. apply lookup_alter_is_Some. auto.
        -- cbn [with_status scheduler_thread]. split; [reflexivity|].
           intros r Hr. destruct (decide (r = r0)) as [-> | Hne]; [now left|].
           right. destruct (Hscan r Hr) as [H | H].
           ++ apply elem_of_cons in H. destruct H; [contradiction | now left].
           ++ right. revert H. apply waiting_kept; [auto|].
              cbn [with_status heap]. now apply lookup_alter_ne.
      * split; [exact Halloc|]. cbn [with_thread scheduler_thread].
        split; [reflexivity|]. intros r Hr.
        destruct (Hscan r Hr) as [H | H]; [|now right].
        apply elem_of_cons in H. destruct H as [-> | H]; [|now left].
        right. intros _. exists up. auto.
  - (* Upload *)
    destruct (scheduler_thread b) as [| | |c u rest| | |] eqn:Hth;
      try discriminate; destruct Hscan as [-> Hscan].
    destruct (heap b !! u) as [up|]; [|discriminate].
    destruct (upload_video _ _ _ _ _ _ _ _ _) as [[shown [vid|e]]|] eqn:Hv;
      [| |discriminate]; intros [= <-];
      [|split; [exact Halloc | exact Logic.I]].
    split.
    + intros r Hr. apply lookup_alter_is_Some. auto.
    + cbn [with_status scheduler_thread]. split; [reflexivity|].
      intros r Hr. destruct (decide (r = u)) as [-> | Hne]; [now left|].
      right. destruct (Hscan r Hr) as [H | [H | H]];
        [contradiction | now left|].
      right. revert H. apply waiting_kept; [auto|].
      cbn [with_status heap]. now apply lookup_alter_ne.
  - (* Remove *)
    destruct (scheduler_thread b) as [| | | |c u rest| |] eqn:Hth;
      try discriminate; destruct Hscan as [-> Hscan].
    pose proof (inv_thread b I) as Ht. unfold thread_ok in Ht.
    rewrite Hth in Ht. destruct Ht as [Hin _].
    destruct (list_remove_in u _ Hin) as (l' & -> & Hsub & Hnd & _).
    destruct (Hnd (inv_nodup b I)) as [Hgone _].
    intros [= <-]. split; [exact Halloc|]. cbn [scheduler_thread].
    split; [reflexivity|]. intros r Hr.
    destruct (Hscan r Hr) as [-> | [H | H]].
    + right. intros Hu. contradiction.
    + now left.
    + right. revert H. apply waiting_kept; [|reflexivity].
      cbn [scheduled_uploads]. auto.
Qed.

Lemma scanning_run now snap evs :
  forall b b',
    invariant b -> scanning now snap b -> forallb within_scan evs = true ->
    run evs b = Some b' -> scanning now snap b'.
Proof.
  induction evs as [|ev evs IH]; intros b b' I Hs Hevs; cbn [run].
  - now intros [= <-].
  - cbn [forallb] in Hevs. apply andb_prop in Hevs. destruct Hevs as [Hev Hevs].
    destruct (step ev b) as [b1|] eqn:Hstep; [|discriminate].
    apply IH; eauto using invariant_step, scanning_step.
Qed.

(** X17: a scan of the dispatcher leaves no due entry behind: an entry
    that is pending and due when the thread wakes is out of the registry
    with a terminal status by the time the thread is back at the head of
    its loop. *)
Theorem scan_serves_every_due_entry b0 now evs b2 r u :
  reachable b0 ->
  scheduler_thread b0 = LoopHead -> scheduler_running b0 = true ->
  run (Wake now :: evs) b0 = Some b2 ->
  forallb within_scan evs = true ->
  scheduler_thread b2 = LoopHead ->
  r ∈ scheduled_uploads b0 -> heap b0 !! r = Some u ->
  upload_status u = pending ->
  datetime_ge now (scheduled_time u) = true ->
  (r ∉ scheduled_uploads b2)
  /\ exists st, status_of b2 r = Some st /\ terminal st.
Proof.
  intros Hreach Hth Hrun Hevs Hwithin Hend Hin Hu Hpend Hdue.
  pose proof (reachable_invariant b0 Hreach) as I0.
  assert (Hreach2 : reachable b2).
  { destruct Hreach as [evs0 H0]. exists (evs0 ++ Wake now :: evs).
    clear -H0 Hevs. revert H0. generalize new_bot.
    induction evs0 as [|e evs0 IH]; intros b; cbn [run app].
    - now intros [= ->].
    - destruct (step e b); [apply IH | discriminate]. }
  pose proof (reachable_invariant b2 Hreach2) as I2.
  destruct (run_keeps_time _ _ _ _ _ Hevs Hu) as (u2 & Hu2 & Htime).
  cbn [run step] in Hevs. rewrite Hth, Hrun in Hevs.
  assert (Hs1 : scanning now (scheduled_uploads b0)
                  (with_thread (ForLoop now (scheduled_uploads b0)) b0)).
  { split; [apply (inv_alloc b0 I0)|]. cbn [with_thread scheduler_thread].
    split; [reflexivity | auto]. }
  assert (I1 : invariant (with_thread (ForLoop now (scheduled_uploads b0)) b0)).
  { apply (invariant_step (Wake now) b0); [assumption|].
    cbn [step]. now rewrite Hth, Hrun. }
  pose proof (scanning_run _ _ _ _ _ I1 Hs1 Hwithin Hevs) as [_ Hs2].
  rewrite Hend in Hs2. pose proof (Hs2 r Hin) as Hw.
  assert (Hgone : r ∉ scheduled_uploads b2).
  { intros Hin2. destruct (Hw Hin2) as (u' & Hu' & _ & Hnot).
    rewrite Hu2 in Hu'. injection Hu' as <-. congruence. }
  split; [assumption|].
  exists (upload_status u2).
  assert (Hst : status_of b2 r = Some (upload_status u2))
    by (unfold status_of; now rewrite Hu2).
  split; [assumption|]. exact (inv_left b2 I2 r _ Hst Hgone).
Qed.

End Scan.

Lemma scan_serves_every_due_entry_witness :
  exists b b',
    run (U := ascii_tables) a_submission new_bot = Some b
    /\ run (U := ascii_tables) (Wake an_afternoon :: a_scan) b = Some b'
    /\ (0 ∉ scheduled_uploads b')
    /\ exists st, status_of b' 0 = Some st /\ terminal st.
Proof.
  set (b := default new_bot (run (U := ascii_tables) a_submission new_bot)).
  set (b' := default new_bot
               (run (U := ascii_tables) (Wake an_afternoon :: a_scan) b)).
  assert (Hb : run (U := ascii_tables) a_submission new_bot = Some b)
    by (vm_compute; reflexivity).
  assert (Hb' : run (U := ascii_tables) (Wake an_afternoon :: a_scan) b
                = Some b')
    by (vm_compute; reflexivity).
  exists b, b'. split; [exact Hb|]. split; [exact Hb'|].
  apply (scan_serves_every_due_entry (U := ascii_tables) b an_afternoon a_scan
           b' 0
           {| video_path := py "clip.mp4"; scheduled_time := an_afternoon;
              privacy := py "private"; tags := []; user_context := [];
              upload_status := pending |}
           (ex_intro _ a_submission Hb));
    try (vm_compute; reflexivity).
  vm_compute. apply list_elem_of_In. now left.
Defined.

(** ** What the parser returns *)

#[local] Open Scope Z_scope.

Lemma new_datetime_inv y m d h mi s us r :
  new_datetime y m d h mi s us = Return r ->
  r = {| year := y; month := m; day := d; hour := h; minute := mi;
         second := s; microsecond := us |}
  /\ date_fields_ok y m d = true /\ time_fields_ok h mi s us = true.
Proof.
  unfold new_datetime.
  destruct (date_fields_ok y m d); [|discriminate].
  destruct (time_fields_ok h mi s us); [|discriminate].
  intros [= <-]. auto.
Qed.

Lemma new_datetime_shape y m d h mi r :
  new_datetime y m d h mi 0 0 = Return r ->
  datetime_ok r = true /\ second r = 0 /\ microsecond r = 0.
Proof.
  intros H. destruct (new_datetime_inv _ _ _ _ _ _ _ _ H) as (-> & Hd & Ht).
  unfold datetime_ok. cbn. now rewrite Hd, Ht.
Qed.

(** Adding days keeps the time of day and gives a date of the calendar. *)
Lemma add_days_shape d n r :
  datetime_ok d = true -> add_days d n = Return r ->
  datetime_ok r = true
  /\ toordinal r = toordinal d + n
  /\ hour r = hour d /\ minute r = minute d /\ second r = second d
  /\ microsecond r = microsecond d.
Proof.
  intros Hok. unfold datetime_ok in Hok.
  apply andb_prop in Hok. destruct Hok as [_ Htime].
  assert (Ht := Htime). unfold time_fields_ok in Ht.
  repeat (apply andb_prop in Ht; destruct Ht as [Ht ?]).
  unfold add_days.
  destruct (Z.ltb_spec 0 (toordinal d + n)); [|discriminate].
  destruct (Z.leb_spec (toordinal d + n) _MAXORDINAL); [|discriminate].
  cbn [andb].
  pose proof (ord2ymd_ymd2ord (toordinal d + n) ltac:(lia)) as Hrt.
  destruct (_ord2ymd (toordinal d + n)) as [[y m] dd].
  destruct Hrt as [Hvalid Hrt].
  set (secs := hour d * 3600 + minute d * 60 + second d).
  assert (Hh : secs / 3600 = hour d)
    by (unfold secs; Z.div_mod_to_equations; lia).
  assert (Hm : secs mod 3600 / 60 = minute d)
    by (unfold secs; Z.div_mod_to_equations; lia).
  assert (Hs : secs mod 3600 mod 60 = second d)
    by (unfold secs; Z.div_mod_to_equations; lia).
  intros [= <-]. unfold datetime_ok, toordinal.
  cbn [year month day hour minute second microsecond].
  rewrite Hh, Hm, Hs, Hvalid, Htime, Hrt. repeat split.
Qed.

Section ParserShape.
Context {U : UnicodeData}.

Lemma strptime_shape s f d :
  strptime s f = Return d ->
  datetime_ok d = true /\ second d = 0 /\ microsecond d = 0.
Proof.
  unfold strptime. destruct (pattern false f) as [fmt|]; [|discriminate].
  cbn [bind]. destruct (fmatch fmt s) as [|[found rest] ?]; [discriminate|].
  destruct (truthy rest); [discriminate|].
  destruct (int_field fY found 1900); [|discriminate]. cbn [bind].
  destruct (int_field fm found 1); [|discriminate]. cbn [bind].
  destruct (int_field fd found 1); [|discriminate]. cbn [bind].
  destruct (hour_of found); [|discriminate]. cbn [bind].
  destruct (int_field fM found 0); [|discriminate]. cbn [bind].
  apply new_datetime_shape.
Qed.

(** X18: whatever the text and the current moment, a moment the parser
    returns is a valid [datetime] with second 0 and microsecond 0. *)
Theorem parsed_time_is_whole_minute now s r :
  parse_schedule_time now s = Some r ->
  datetime_ok r = true /\ second r = 0 /\ microsecond r = 0.
Proof.
  unfold parse_schedule_time, parse_body.
  set (t := lower (strip s)).
  destruct (contains (py " ") t).
  - destruct (split_space_once t) as [[date_part time_part]|];
      [|discriminate]. cbn [bind].
    destruct (strptime date_part (py "%Y-%m-%d")) as [date_obj|] eqn:Hd;
      [|discriminate]. cbn [bind].
    destruct (strptime_shape _ _ _ Hd) as (_ & _ & Hus).
    match goal with |- context [bind ?c _] => destruct c as [time_obj|] end;
      [|discriminate]. cbn [bind]. rewrite Hus.
    destruct (new_datetime _ _ _ _ _ 0 0) as [r0|] eqn:Hn; [|discriminate].
    intros [= <-]. now apply new_datetime_shape in Hn.
  - match goal with |- context [bind ?c _] => destruct c as [time_obj|] end;
      [|discriminate]. cbn [bind].
    destruct (new_datetime _ _ _ _ _ 0 0) as [r0|] eqn:Hn; [|discriminate].
    cbn [bind]. apply new_datetime_shape in Hn. destruct Hn as (Hok & Hs & Hus).
    destruct (datetime_le r0 now); [|intros [= <-]; auto].
    destruct (add_days r0 1) as [r1|] eqn:Ha; [|discriminate].
    intros [= <-].
    destruct (add_days_shape _ _ _ Hok Ha) as (? & _ & _ & _ & Hs' & Hus').
    repeat split; [assumption | congruence..].
Qed.

End ParserShape.

Lemma parsed_time_is_whole_minute_witness :
  exists r,
    parse_schedule_time (U := ascii_tables) an_afternoon (py "9:05pm") = Some r
    /\ datetime_ok r = true /\ second r = 0 /\ microsecond r = 0.
Proof.
  exists {| year := 2025; month := 1; day := 31; hour := 21; minute := 5;
            second := 0; microsecond := 0 |}.
  split; [vm_compute; reflexivity|].
  apply (parsed_time_is_whole_minute (U := ascii_tables) an_afternoon
           (py "9:05pm")).
  vm_compute. reflexivity.
Defined.

#[local] Close Scope Z_scope.

(** ** A time of day alone *)

#[local] Open Scope Z_scope.

Lemma days_before_next_year y :
  _days_before_year (y + 1) = _days_before_year y + 365 + b2z (_is_leap y).
Proof.
  unfold _days_before_year, _is_leap, b2z.
  replace (y + 1 - 1) with y by lia.
  destruct (Z.eqb_spec (y mod 4) 0), (Z.eqb_spec (y mod 100) 0),
    (Z.eqb_spec (y mod 400) 0); cbn [negb andb orb];
    Z.div_mod_to_equations; lia.
Qed.

Lemma days_before_year_mono y y' :
  y <= y' -> _days_before_year y <= _days_before_year y'.
Proof.
  intros H. unfold _days_before_year. Z.div_mod_to_equations. lia.
Qed.

(** Within a year the months follow each other: the days before a month
    and its own days end before any later month, and before the end of
    the year. *)
Lemma months_in_order leap :
  all_from 1 12 (fun m =>
    let before := table _DAYS_BEFORE_MONTH m + b2z ((2 <? m) && leap) in
    let days := if (m =? 2) && leap then 29 else table _DAYS_IN_MONTH m in
    (before + days <=? 365 + b2z leap)
    && all_from 1 12 (fun m' =>
         negb (m <? m')
         || (before + days
             <=? table _DAYS_BEFORE_MONTH m' + b2z ((2 <? m') && leap))))
  = true.
Proof. destruct leap; vm_compute; reflexivity. Qed.

Lemma month_ends y m :
  1 <= m <= 12 ->
  _days_before_month y m + _days_in_month y m <= 365 + b2z (_is_leap y)
  /\ forall m', m < m' <= 12 ->
       _days_before_month y m + _days_in_month y m <= _days_before_month y m'.
Proof.
  intros Hm.
  pose proof (all_from_spec _ _ _ (months_in_order (_is_leap y)) m ltac:(lia))
    as H. cbn beta zeta in H. apply andb_prop in H. destruct H as [H1 H2].
  unfold _days_before_month, _days_in_month. split; [lia|].
  intros m' Hm'. pose proof (all_from_spec _ _ _ H2 m' ltac:(lia)) as H.
  cbn beta in H. destruct (Z.ltb_spec m m'); [|lia]. cbn [negb orb] in H. lia.
Qed.

(** A date with the greater ordinal is the later date. *)
Lemma later_ordinal_later_date y1 m1 d1 y2 m2 d2 :
  date_fields_ok y1 m1 d1 = true -> date_fields_ok y2 m2 d2 = true ->
  _ymd2ord y1 m1 d1 < _ymd2ord y2 m2 d2 ->
  cmp_fields [y2; m2; d2] [y1; m1; d1] = Gt.
Proof.
  intros H1 H2 Hlt. unfold date_fields_ok in *.
  repeat (apply andb_prop in H1; destruct H1 as [H1 ?]).
  repeat (apply andb_prop in H2; destruct H2 as [H2 ?]).
  unfold MINYEAR, MAXYEAR in *.
  destruct (month_ends y1 m1 ltac:(lia)) as [He1 Hn1].
  destruct (month_ends y2 m2 ltac:(lia)) as [He2 Hn2].
  pose proof (days_before_month_nonneg y1 m1 ltac:(lia)).
  pose proof (days_before_month_nonneg y2 m2 ltac:(lia)).
  unfold _ymd2ord in Hlt. cbn [cmp_fields].
  destruct (Z.compare_spec y2 y1) as [-> | Hy | Hy]; [|exfalso|reflexivity].
  - destruct (Z.compare_spec m2 m1) as [-> | Hm | Hm]; [|exfalso|reflexivity].
    + destruct (Z.compare_spec d2 d1); [lia | lia | reflexivity].
    + pose proof (Hn2 m1 ltac:(lia)). lia.
  - pose proof (days_before_next_year y2) as Hn.
    pose proof (days_before_year_mono (y2 + 1) y1 ltac:(lia)). lia.
Qed.

Lemma cmp_fields_app p a b :
  cmp_fields (p ++ a) (p ++ b) = cmp_fields a b.
Proof.
  induction p as [|x p IH]; [reflexivity|]. cbn [app cmp_fields].
  now rewrite Z.compare_refl.
Qed.

Lemma cmp_fields_decided a b a' b' :
  cmp_fields a b = Gt -> length a = length b ->
  cmp_fields (a ++ a') (b ++ b') = Gt.
Proof.
  revert b. induction a as [|x a IH]; intros [|y b]; cbn; try discriminate.
  destruct (x ?= y); [intros; apply IH; [assumption | lia] | discriminate|].
  reflexivity.
Qed.

Section TimeAlone.
Context {U : UnicodeData}.

(** X19: for a text without a space (a time of day alone), a moment
    the parser returns is strictly later than the current moment and at
    most one day later. *)
Theorem time_alone_is_ahead now s r :
  datetime_ok now = true ->
  contains (py " ") (lower (strip s)) = false ->
  parse_schedule_time now s = Some r ->
  datetime_le r now = false
  /\ 0 < timestamp r - timestamp now <= 86400.
Proof.
  intros Hnow Hsp. unfold parse_schedule_time, parse_body. rewrite Hsp.
  match goal with |- context [bind ?c _] => destruct c as [time_obj|] end;
    [|discriminate]. cbn [bind].
  destruct (new_datetime _ _ _ _ _ 0 0) as [r0|] eqn:Hn; [|discriminate].
  cbn [bind]. destruct (new_datetime_inv _ _ _ _ _ _ _ _ Hn) as (Hr0 & Hd & Ht).
  assert (Hok0 : datetime_ok r0 = true)
    by (now apply new_datetime_shape in Hn).
  set (h := hour time_obj) in *. set (mi := minute time_obj) in *.
  assert (Hnow' := Hnow). unfold datetime_ok in Hnow'.
  apply andb_prop in Hnow'. destruct Hnow' as [Hnd Hnt].
  unfold time_fields_ok in Ht, Hnt.
  repeat (apply andb_prop in Ht; destruct Ht as [Ht ?]).
  repeat (apply andb_prop in Hnt; destruct Hnt as [Hnt ?]).
  assert (Hcmp : cmp_fields (fields r0) (fields now)
                 = cmp_fields [h; mi; 0; 0]
                     [hour now; minute now; second now; microsecond now]).
  { subst r0. unfold fields. cbn [year month day hour minute second microsecond].
    apply (cmp_fields_app [year now; month now; day now]). }
  assert (Hts0 : timestamp r0
                 = toordinal now * 86400 + h * 3600 + mi * 60).
  { subst r0. unfold timestamp, toordinal. cbn. lia. }
  assert (Ho0 : toordinal r0 = toordinal now) by (subst r0; reflexivity).
  unfold datetime_le at 1. rewrite Hcmp. cbn [cmp_fields].
  destruct (Z.compare_spec h (hour now)) as [Hh | Hh | Hh];
    [destruct (Z.compare_spec mi (minute now)) as [Hm | Hm | Hm];
     [destruct (Z.compare_spec 0 (second now)) as [Hs | Hs | Hs];
      [destruct (Z.compare_spec 0 (microsecond now)) as [Hu | Hu | Hu]| |]| |]
    | |].
  all: cbn beta iota.
  all: lazymatch goal with
       | |- Some _ = _ -> _ => intros [= Heq]; rewrite <- Heq; clear Heq; split
       | _ => idtac
       end.
  all: lazymatch goal with |- datetime_le _ _ = _ =>
         unfold datetime_le; rewrite Hcmp; cbn [cmp_fields];
         repeat (rewrite ?Z.compare_refl;
                 match goal with
                 | |- context [?a ?= ?b] =>
                     destruct (Z.compare_spec a b); try lia
                 end); reflexivity
       | _ => idtac end.
  all: lazymatch goal with |- _ < timestamp _ - _ <= _ =>
         rewrite Hts0; unfold timestamp
       | _ => idtac end.
  all: try lia.
  all: destruct (add_days r0 1) as [r1|] eqn:Ha; [|discriminate];
    intros [= Heq]; rewrite <- Heq; clear Heq;
    destruct (add_days_shape _ _ _ Hok0 Ha)
      as (Hok1 & Hord & Hh1 & Hm1 & Hs1 & Hu1);
    assert (Hts1 : timestamp r1 = timestamp r0 + 86400)
      by (unfold timestamp; rewrite Hord, Hh1, Hm1, Hs1; lia);
    (split; [|rewrite Hts1, Hts0; unfold timestamp; lia]).
  all: unfold datetime_le; unfold fields;
    change [year r1; month r1; day r1; hour r1; minute r1; second r1;
            microsecond r1]
      with ([year r1; month r1; day r1]
              ++ [hour r1; minute r1; second r1; microsecond r1]);
    change [year now; month now; day now; hour now; minute now; second now;
            microsecond now]
      with ([year now; month now; day now]
              ++ [hour now; minute now; second now; microsecond now]);
    rewrite cmp_fields_decided; [reflexivity | | reflexivity];
    apply later_ordinal_later_date;
      [assumption
      | unfold datetime_ok in Hok1; apply andb_prop in Hok1; tauto
      | fold (toordinal r1); fold (toordinal now); lia].
Qed.

End TimeAlone.

Lemma time_alone_is_ahead_witness :
  parse_schedule_time (U := ascii_tables) an_afternoon (py "9am")
  = Some {| year := 2025; month := 2; day := 1; hour := 9; minute := 0;
            second := 0; microsecond := 0 |}
  /\ datetime_le {| year := 2025; month := 2; day := 1; hour := 9;
                    minute := 0; second := 0; microsecond := 0 |}
       an_afternoon = false
  /\ 0 < timestamp {| year := 2025; month := 2; day := 1; hour := 9;
                      minute := 0; second := 0; microsecond := 0 |}
         - timestamp an_afternoon <= 86400.
Proof.
  split; [vm_compute; reflexivity|].
  apply (time_alone_is_ahead (U := ascii_tables) an_afternoon (py "9am"));
    vm_compute; reflexivity.
Defined.

#[local] Close Scope Z_scope.

(** ** What the parser refuses *)

Section Refusals.
Context {U : UnicodeData}.

Lemma match_char_split p s m s1 : In (m, s1) (match_char p s) -> s = m ++ s1.
Proof.
  destruct s as [|c s]; cbn [match_char]; [intros []|].
  destruct (p c); [|intros []]. intros [[= <- <-] | []]. reflexivity.
Qed.

Lemma match_spaces_split s m s1 : In (m, s1) (match_spaces s) -> s = m ++ s1.
Proof.
  revert m. induction s as [|c s IH]; intros m; cbn [match_spaces];
    [intros []|].
  destruct (isspace c); [|intros []]. intros H. apply in_app_or in H.
  destruct H as [H | [[= <- <-] | []]]; [|reflexivity].
  apply in_map_iff in H. destruct H as ([m' r] & [= <- <-] & H).
  cbn [app]. f_equal. now apply IH.
Qed.

(** What an expression matches is a prefix of the text, and what it leaves
    is the rest. *)
Lemma rmatch_split r s m s1 : In (m, s1) (rmatch r s) -> s = m ++ s1.
Proof.
  revert s m s1. induction r as [c|lc|lo hi| |a IHa b IHb|a IHa b IHb|];
    intros s m s1; cbn [rmatch];
    try apply match_char_split; [| |apply match_spaces_split].
  - intros H. apply in_flat_map in H. destruct H as ([m1 s2] & Ha & H).
    apply in_map_iff in H. destruct H as ([m2 s3] & [= <- <-] & Hb).
    rewrite (IHa _ _ _ Ha), (IHb _ _ _ Hb). now rewrite app_assoc.
  - intros H. apply in_app_or in H. destruct H; eauto.
Qed.

Lemma flat_map_nil {A B} (f : A -> list B) l :
  (forall x, In x l -> f x = []) -> flat_map f l = [].
Proof.
  induction l as [|x l IH]; [reflexivity|]. intros H. cbn [flat_map].
  rewrite (H x (or_introl eq_refl)), IH; [reflexivity|].
  intros y Hy. apply H. now right.
Qed.

(** A text without the character [c] matches no pattern that has [c] as a
    literal. *)
Lemma fmatch_needs_literal c fmt s :
  In (Plain (Chr c)) fmt -> c ∉ s -> fmatch fmt s = [].
Proof.
  revert s. induction fmt as [|it fmt IH]; intros s Hin Hc; [destruct Hin|].
  assert (Hrest : forall r m s1, In (Plain (Chr c)) fmt ->
            In (m, s1) (rmatch r s) -> fmatch fmt s1 = []).
  { intros r m s1 Hin' Hm. apply IH; [assumption|].
    rewrite (rmatch_split _ _ _ _ Hm) in Hc. intros Hs1. apply Hc.
    apply elem_of_app. now right. }
  destruct Hin as [-> | Hin].
  - cbn [fmatch rmatch]. destruct s as [|c' s]; [reflexivity|].
    cbn [match_char]. destruct (N.eqb_spec c c') as [<- | _]; [|reflexivity].
    exfalso. apply Hc. apply elem_of_cons. now left.
  - destruct it as [f r | r]; cbn [fmatch]; apply flat_map_nil;
      intros [m s1] Hm; rewrite (Hrest r m s1 Hin Hm); reflexivity.
Qed.

Lemma split_space_once_contains t a b :
  split_space_once t = Some (a, b) -> contains (py " ") t = true.
Proof.
  revert a b. induction t as [|c t IH]; intros a b; cbn [split_space_once];
    [discriminate|].
  destruct (N.eqb_spec c SPACE) as [-> | Hc].
  - intros _. reflexivity.
  - destruct (split_space_once t) as [[a' b']|]; [|discriminate]. intros _.
    cbn [contains]. rewrite (IH a' b' eq_refl). apply orb_true_r.
Qed.

Lemma strptime_needs_literal c fmt items s :
  pattern false fmt = Return items -> In (Plain (Chr c)) items ->
  c ∉ s -> strptime s fmt = Raise ValueError.
Proof.
  intros Hp Hin Hc. unfold strptime. rewrite Hp. cbn [bind].
  now rewrite (fmatch_needs_literal c) by assumption.
Qed.

(** X20: a text with a space whose part before the first space has no
    hyphen is refused: [9 am] is read as a date [9] followed by a
    time. *)
Theorem spaced_phrase_needs_date now s date_part time_part :
  split_space_once (lower (strip s)) = Some (date_part, time_part) ->
  ch "-" ∉ date_part ->
  parse_schedule_time now s = None.
Proof.
  intros Hs Hc. unfold parse_schedule_time, parse_body.
  rewrite (split_space_once_contains _ _ _ Hs), Hs. cbn [bind].
  rewrite (strptime_needs_literal (ch "-") (py "%Y-%m-%d") _ date_part
             eq_refl); [reflexivity | cbn; tauto | assumption].
Qed.

(** X21: behind a date, a time of day with neither [am], [pm] nor a
    colon is refused: the bare hour that is accepted alone is not accepted
    there. *)
Theorem dated_hour_needs_colon now s date_part time_part :
  split_space_once (lower (strip s)) = Some (date_part, time_part) ->
  contains (py "am") time_part = false ->
  contains (py "pm") time_part = false ->
  ch ":" ∉ time_part ->
  parse_schedule_time now s = None.
Proof.
  intros Hs Ham Hpm Hc. unfold parse_schedule_time, parse_body.
  rewrite (split_space_once_contains _ _ _ Hs), Hs. cbn [bind].
  destruct (strptime date_part _) as [date_obj|e]; [|reflexivity].
  cbn [bind]. rewrite Ham, Hpm. cbn [orb].
  rewrite (strptime_needs_literal (ch ":") (py "%H:%M") _ (strip time_part)
             eq_refl); [reflexivity | cbn; tauto|].
  intros H. apply Hc. now apply strip_elem.
Qed.

End Refusals.

Lemma spaced_phrase_needs_date_witness :
  parse_schedule_time (U := ascii_tables) an_afternoon (py "9 am") = None.
Proof.
  apply (spaced_phrase_needs_date (U := ascii_tables) an_afternoon (py "9 am")
           (py "9") (py "am")); [reflexivity|].
  intros H. apply list_elem_of_In in H. vm_compute in H. intuition discriminate.
Defined.

Lemma dated_hour_needs_colon_witness :
  parse_schedule_time (U := ascii_tables) an_afternoon (py "2025-01-15 14")
  = None.
Proof.
  apply (dated_hour_needs_colon (U := ascii_tables) an_afternoon
           (py "2025-01-15 14") (py "2025-01-15") (py "14"));
    [reflexivity | reflexivity | reflexivity|].
  intros H. apply list_elem_of_In in H. vm_compute in H. intuition discriminate.
Defined.
